(** * unicornhathd: the frame buffer, the panel chain and the render output

    A shallow embedding of [unicornhathd.py].  The module keeps its state in
    Python globals ([_buf], [_rotation], [_brightness], [_displays], ...);
    here they are the fields of one record that every operation threads
    through a state-and-exception monad, so that what an operation leaves
    behind when it raises is part of its meaning.

    numpy, the Python built-ins and the SPI device are not part of the
    repository; the small part of their behaviour the module relies on is
    modelled in the first sections, from their documentation. *)

From Stdlib Require Import ZArith SpecFloat Ascii DecimalString.
From stdpp Require Import gmap strings list.

Local Open Scope Z_scope.

(** ** Python numbers *)

(** A Python number as the module receives it: an [int] or a [float]
    (IEEE 754 binary64, through the standard library's executable
    specification of it). *)
Inductive pynum :=
| PyInt (z : Z)
| PyFloat (f : spec_float).

Definition float64_prec : Z := 53.
Definition float64_emax : Z := 1024.

Definition float64_of_Z (z : Z) : spec_float :=
  binary_normalize float64_prec float64_emax z 0 false.
Definition float64_mul : spec_float → spec_float → spec_float :=
  SFmul float64_prec float64_emax.
Definition float64_div : spec_float → spec_float → spec_float :=
  SFdiv float64_prec float64_emax.

(** The integer part of a float, fraction discarded (toward zero); nothing
    for NaN and the infinities. *)
Definition float64_trunc (f : spec_float) : option Z :=
  match f with
  | S754_zero _ => Some 0
  | S754_finite s m e =>
      let a := if 0 <=? e then Z.pos m * 2 ^ e else Z.pos m / 2 ^ (- e) in
      Some (if s then - a else a)
  | S754_infinity _ | S754_nan => None
  end.

(** Python 3's [round(f)] on a float: the nearest integer, a tie going to
    the even one (Python 2 sends a tie away from zero). *)
Definition float64_round (f : spec_float) : option Z :=
  match f with
  | S754_zero _ => Some 0
  | S754_finite s m e =>
      let a :=
        if 0 <=? e then Z.pos m * 2 ^ e
        else
          let d := 2 ^ (- e) in
          let q := Z.pos m / d in
          match 2 * (Z.pos m mod d) ?= d with
          | Lt => q
          | Gt => q + 1
          | Eq => if Z.even q then q else q + 1
          end in
      Some (if s then - a else a)
  | S754_infinity _ | S754_nan => None
  end.

(** The cells of [_buf] are numpy [int]s, 64 bits wide. *)
Definition int64_min : Z := - 2 ^ 63.
Definition int64_max : Z := 2 ^ 63 - 1.
Definition fits_int64 (v : Z) : bool := (int64_min <=? v) && (v <=? int64_max).
Definition wrap_int64 (v : Z) : Z := (v + 2 ^ 63) mod 2 ^ 64 - 2 ^ 63.

(** ** Exceptions *)

Inductive exn :=
| IndexError
| ValueError (msg : string)
| OverflowError.

Inductive result (A : Type) :=
| Ok (a : A)
| Raise (e : exn).
Arguments Ok {A} a.
Arguments Raise {A} e.

#[global] Instance result_ret : MRet result := @Ok.
#[global] Instance result_bind : MBind result :=
  λ A B k r, match r with Ok a => k a | Raise e => Raise e end.

(** ** numpy arrays of pixels *)

(** One cell of the last axis of [_buf]: the three channels R, G, B. *)
Definition pixel : Type := Z * Z * Z.

(** An array of shape [(shape0, shape1, 3)].  The shape is kept beside the
    rows, as numpy keeps it: an array with no row still has a second
    dimension. *)
Record ndarray := NDArray {
  shape0 : nat;
  shape1 : nat;
  cells : list (list pixel)
}.

Definition wf_ndarray (m : ndarray) : Prop :=
  length (cells m) = shape0 m ∧ Forall (λ row, length row = shape1 m) (cells m).

Definition tabulate (n c : nat) (f : nat → nat → pixel) : ndarray :=
  NDArray n c ((λ i, f i <$> seq 0 c) <$> seq 0 n).

(** [m[i][j]] for indices already in range. *)
Definition cell (m : ndarray) (i j : nat) : option pixel :=
  cells m !! i ≫= (.!! j).
Definition cell_or_zero (m : ndarray) (i j : nat) : pixel :=
  default (0, 0, 0) (cell m i j).

(** [numpy.zeros((w, h, 3), dtype=int)] *)
Definition zeros (w h : nat) : ndarray :=
  NDArray w h (replicate w (replicate h (0, 0, 0))).

(** [numpy.flip(m, 0)], [numpy.flip(m, 1)] and [numpy.transpose] of the
    first two axes. *)
Definition flip0 (m : ndarray) : ndarray :=
  NDArray (shape0 m) (shape1 m) (reverse (cells m)).
Definition flip1 (m : ndarray) : ndarray :=
  NDArray (shape0 m) (shape1 m) (reverse <$> cells m).
Definition transpose (m : ndarray) : ndarray :=
  tabulate (shape1 m) (shape0 m) (λ i j, cell_or_zero m j i).

(** [numpy.rot90(m, k)] on the axes (0, 1), case by case as numpy does it. *)
Definition rot90 (m : ndarray) (k : Z) : ndarray :=
  let k := k mod 4 in
  if k =? 0 then m
  else if k =? 2 then flip1 (flip0 m)
  else if k =? 1 then transpose (flip1 m)
  else flip1 (transpose m).

(** A Python index into a sequence of [n] items: a negative index counts
    from the end; nothing when it is out of range. *)
Definition py_index (n : nat) (i : Z) : option nat :=
  let n := Z.of_nat n in
  if (0 <=? i) && (i <? n) then Some (Z.to_nat i)
  else if (- n <=? i) && (i <? 0) then Some (Z.to_nat (n + i))
  else None.

(** The bounds of the slice [start:stop] of a sequence of [n] items, as
    [slice.indices] gives them: negative bounds count from the end, and
    both are clipped into [0, n]. *)
Definition slice_bounds (n : nat) (start stop : Z) : nat * nat :=
  let n := Z.of_nat n in
  let clip v := if v <? 0 then Z.max (v + n) 0 else Z.min v n in
  (Z.to_nat (clip start), Z.to_nat (clip stop)).

(** [m[x0:x1, y0:y1]] *)
Definition slice2 (m : ndarray) (x0 x1 y0 y1 : Z) : ndarray :=
  let '(lo0, hi0) := slice_bounds (shape0 m) x0 x1 in
  let '(lo1, hi1) := slice_bounds (shape1 m) y0 y1 in
  NDArray (hi0 - lo0) (hi1 - lo1)
    ((λ row, take (hi1 - lo1) (drop lo1 row)) <$> take (hi0 - lo0) (drop lo0 (cells m))).

(** The channels of the array in memory order: row by row, pixel by pixel,
    R then G then B. *)
Definition channels (p : pixel) : list Z :=
  let '(r, g, b) := p in [r; g; b].
Definition ravel (m : ndarray) : list Z :=
  cells m ≫= (λ row, row ≫= channels).

(** [str(n)] for a size. *)
Definition decimal (n : nat) : string :=
  NilZero.string_of_uint (Nat.to_uint n).

(** The message of numpy's [ValueError] when an array of [size] values is
    asked for in the shape [(768,)]. *)
Definition reshape_message (size : nat) : string :=
  String.append "cannot reshape array of size "
    (String.append (decimal size) " into shape (768,)").

(** [m.reshape(768)] *)
Definition reshape768 (m : ndarray) : result (list Z) :=
  if (shape0 m * shape1 m * 3 =? 768)%nat then Ok (ravel m)
  else Raise (ValueError (reshape_message (shape0 m * shape1 m * 3))).

(** A one-dimensional array after the multiplication by the brightness:
    still [int64] when the brightness is an [int], [float64] when it is a
    [float]. *)
Inductive array1 :=
| IntArray (l : list Z)
| FloatArray (l : list spec_float).

(** [a * b] for a one-dimensional [int64] array [a] and a Python number.
    The product with an [int] stays in [int64] and wraps there; numpy
    refuses an [int] that does not fit 64 bits. *)
Definition mul_scalar (a : list Z) (b : pynum) : result array1 :=
  match b with
  | PyInt k =>
      if fits_int64 k then Ok (IntArray ((λ c, wrap_int64 (c * k)) <$> a))
      else Raise OverflowError
  | PyFloat f => Ok (FloatArray ((λ c, float64_mul (float64_of_Z c) f) <$> a))
  end.

Section Astype.
(** numpy converts to [uint8] with C's conversion.  An integer is reduced
    modulo 256.  A float loses its fraction and, when what is left is in
    [0, 255], that is the byte; outside that range C leaves the
    conversion undefined and numpy hands on whatever the platform gives,
    taken here as a parameter. *)
Variable uint8_of_float_undefined : spec_float → Z.

Definition uint8_of_int (v : Z) : Z := v mod 256.

Definition uint8_of_float (f : spec_float) : Z :=
  match float64_trunc f with
  | Some t =>
      if (0 <=? t) && (t <=? 255) then t
      else uint8_of_float_undefined f mod 256
  | None => uint8_of_float_undefined f mod 256
  end.

(** [a.astype(numpy.uint8).tolist()] *)
Definition astype_uint8 (a : array1) : list Z :=
  match a with
  | IntArray l => uint8_of_int <$> l
  | FloatArray l => uint8_of_float <$> l
  end.
End Astype.

(** ** The colour table *)

Definition COLORS : gmap string pixel :=
  list_to_map [
    ("red", (255, 0, 0));
    ("lime", (0, 255, 0));
    ("blue", (0, 0, 255));
    ("yellow", (255, 255, 0));
    ("magenta", (255, 0, 255));
    ("cyan", (0, 255, 255));
    ("black", (0, 0, 0));
    ("white", (255, 255, 255));
    ("gray", (127, 127, 127));
    ("grey", (127, 127, 127));
    ("silver", (192, 192, 192));
    ("maroon", (128, 0, 0));
    ("olive", (128, 128, 0));
    ("green", (0, 128, 0));
    ("teal", (0, 128, 128));
    ("navy", (0, 0, 128));
    ("orange", (255, 165, 0));
    ("gold", (255, 215, 0));
    ("purple", (128, 0, 128));
    ("indigo", (75, 0, 130))
  ]%string.

(** [str.lower] as it is on a name of ASCII characters: the letters A to Z
    go to a to z and every other character stays.  On other characters
    Python follows the Unicode tables, which are not part of this module;
    a name is kept here as its bytes, and the statements that depend on a
    name being refused are about the names for which [is_ascii] holds. *)
Definition lower_ascii (c : ascii) : ascii :=
  let n := nat_of_ascii c in
  if (65 <=? n)%nat && (n <=? 90)%nat then ascii_of_nat (n + 32) else c.
Fixpoint lower (s : string) : string :=
  match s with
  | EmptyString => EmptyString
  | String c s' => String (lower_ascii c) (lower s')
  end.

(** A name of ASCII characters only. *)
Fixpoint is_ascii (s : string) : bool :=
  match s with
  | EmptyString => true
  | String c s' => (nat_of_ascii c <? 128)%nat && is_ascii s'
  end.

(** The colour argument of [set_all] and [set_pixel], in the three shapes
    the functions tell apart: a tuple in [r], a name in [r], or the three
    components [r], [g], [b].  The components are Python [int]s. *)
Inductive color :=
| ColorTuple (r g b : Z)
| ColorName (name : string)
| ColorRGB (r g b : Z).

(** ** One display of the chain *)

Definition PANEL_SHAPE : Z * Z := (16, 16).

Module Display.

Record t := Build {
  enabled : bool;
  x : Z;
  y : Z;
  rotation : Z
}.

Definition update (self : t) (x y rotation : Z) : t :=
  Build (enabled self) x y rotation.

Definition set_enabled (self : t) (enabled : bool) : t :=
  Build enabled (x self) (y self) (rotation self).

Definition get_buffer_window (self : t) (source : ndarray) : ndarray :=
  let view :=
    slice2 source (x self) (x self + fst PANEL_SHAPE) (y self) (y self + snd PANEL_SHAPE) in
  rot90 view (rotation self + 1).

End Display.

(** ** The module's globals *)

(** What the module does to the outside: a transfer on the SPI device or a
    pause. *)
Inductive event :=
| Xfer2 (bytes : list Z)
| Sleep.

Definition _SOF : Z := 0x72.
Definition WIDTH : Z := 16.
Definition HEIGHT : Z := 16.

Record state := State {
  _rotation : Z;
  _brightness : pynum;
  _buffer_width : Z;
  _buffer_height : Z;
  _addressing_enabled : bool;
  _buf : ndarray;
  _displays : list Display.t;
  (** the transfers and pauses performed so far, oldest first *)
  io : list event
}.

Definition with_rotation (v : Z) (s : state) : state :=
  State v (_brightness s) (_buffer_width s) (_buffer_height s)
    (_addressing_enabled s) (_buf s) (_displays s) (io s).
Definition with_brightness (v : pynum) (s : state) : state :=
  State (_rotation s) v (_buffer_width s) (_buffer_height s)
    (_addressing_enabled s) (_buf s) (_displays s) (io s).
Definition with_buffer_shape (w h : Z) (s : state) : state :=
  State (_rotation s) (_brightness s) w h
    (_addressing_enabled s) (_buf s) (_displays s) (io s).
Definition with_addressing_enabled (v : bool) (s : state) : state :=
  State (_rotation s) (_brightness s) (_buffer_width s) (_buffer_height s)
    v (_buf s) (_displays s) (io s).
Definition with_buf (v : ndarray) (s : state) : state :=
  State (_rotation s) (_brightness s) (_buffer_width s) (_buffer_height s)
    (_addressing_enabled s) v (_displays s) (io s).
Definition with_displays (v : list Display.t) (s : state) : state :=
  State (_rotation s) (_brightness s) (_buffer_width s) (_buffer_height s)
    (_addressing_enabled s) (_buf s) v (io s).
Definition with_io (v : list event) (s : state) : state :=
  State (_rotation s) (_brightness s) (_buffer_width s) (_buffer_height s)
    (_addressing_enabled s) (_buf s) (_displays s) v.

(** The globals as the module's top level leaves them. *)
Definition initial : state :=
  State 0 (PyFloat (float64_div (float64_of_Z 1) (float64_of_Z 2))) WIDTH HEIGHT false
    (zeros (Z.to_nat WIDTH) (Z.to_nat HEIGHT))
    (replicate 8 (Display.Build false 0 0 0)) [].

(** ** Statements: state and exceptions *)

(** A statement runs from a state of the globals to a value or a raised
    exception, and the state it leaves: an exception does not undo what was
    assigned before it. *)
Definition M (A : Type) : Type := state → result A * state.

Definition ret {A} (a : A) : M A := λ s, (Ok a, s).
Definition raise {A} (e : exn) : M A := λ s, (Raise e, s).
Definition bind {A B} (m : M A) (k : A → M B) : M B :=
  λ s, match m s with
       | (Ok a, s') => k a s'
       | (Raise e, s') => (Raise e, s')
       end.
Definition read : M state := λ s, (Ok s, s).
Definition modify (f : state → state) : M unit := λ s, (Ok tt, f s).
Definition lift {A} (r : result A) : M A := λ s, (r, s).

#[global] Instance M_ret : MRet M := @ret.
#[global] Instance M_bind : MBind M := λ A B k m, bind m k.

(** [for v in l: body] *)
Fixpoint for_in {A} (l : list A) (body : A → M unit) : M unit :=
  match l with
  | [] => ret tt
  | v :: l' => body v;; for_in l' body
  end.

(** ** The operations *)

Definition enable_addressing (enabled : bool) : M unit :=
  modify (with_addressing_enabled enabled).

(** The two globals are assigned before [numpy.zeros] is called, which
    refuses a negative dimension. *)
Definition setup_buffer (width height : Z) : M unit :=
  modify (with_buffer_shape width height);;
  s ← read;
  if (_buffer_width s <? 0) || (_buffer_height s <? 0)
  then raise (ValueError "negative dimensions are not allowed")
  else modify (with_buf (zeros (Z.to_nat (_buffer_width s)) (Z.to_nat (_buffer_height s)))).

(** [_displays[address]] *)
Definition display_at (address : Z) : M (nat * Display.t) :=
  s ← read;
  match py_index (length (_displays s)) address with
  | Some i =>
      match _displays s !! i with
      | Some d => ret (i, d)
      | None => raise IndexError
      end
  | None => raise IndexError
  end.

Definition enable_display (address : Z) (enabled : bool) : M unit :=
  '(i, d) ← display_at address;
  modify (λ s, with_displays (<[i := Display.set_enabled d enabled]> (_displays s)) s).

Definition setup_display (address x y rotation : Z) : M unit :=
  '(i, d) ← display_at address;
  modify (λ s, with_displays (<[i := Display.update d x y rotation]> (_displays s)) s);;
  enable_display address true.

Definition set_brightness (b : pynum) : M unit :=
  modify (with_brightness b).

(** [float(r)] where [r] is an [int]: the nearest float, or an
    [OverflowError] when there is none. *)
Definition float_of_pynum (r : pynum) : M spec_float :=
  match r with
  | PyFloat f => ret f
  | PyInt z =>
      match float64_of_Z z with
      | S754_infinity _ => raise OverflowError
      | f => ret f
      end
  end.

(** [int(round(f))] *)
Definition int_round (f : spec_float) : M Z :=
  match float64_round f with
  | Some k => ret k
  | None =>
      match f with
      | S754_nan => raise (ValueError "cannot convert float NaN to integer")
      | _ => raise OverflowError
      end
  end.

Definition set_rotation (r : pynum) : M unit :=
  f ← float_of_pynum r;
  k ← int_round (float64_div f (float64_of_Z 90));
  modify (with_rotation k).

Definition get_rotation : M Z :=
  s ← read;
  ret (_rotation s * 90).

(** The name, tuple or components of a colour argument as [r, g, b]. *)
Definition resolve_color (c : color) : M pixel :=
  match c with
  | ColorTuple r g b => ret (r, g, b)
  | ColorName name =>
      match COLORS !! lower name with
      | Some p => ret p
      | None => raise (ValueError "Invalid color!")
      end
  | ColorRGB r g b => ret (r, g, b)
  end.

(** numpy refuses to put a Python [int] that does not fit the cell.  The
    refusal is taken here before anything is written; what a refused
    assignment leaves in the cell differs between numpy versions, and no
    statement below is about it. *)
Definition fits_cell (p : pixel) : bool :=
  let '(r, g, b) := p in fits_int64 r && fits_int64 g && fits_int64 b.

(** [_buf[:] = r, g, b] *)
Definition fill (m : ndarray) (p : pixel) : ndarray :=
  NDArray (shape0 m) (shape1 m) ((λ row : list pixel, (λ _, p) <$> row) <$> cells m).

Definition set_all (c : color) : M unit :=
  p ← resolve_color c;
  if fits_cell p then modify (λ s, with_buf (fill (_buf s) p) s)
  else raise OverflowError.

(** [m[i][j] = r, g, b] for indices already in range.  The coordinates
    [x] and [y] of the accessors are Python [int]s, on which [int(x)] does
    nothing. *)
Definition store (m : ndarray) (i j : nat) (p : pixel) : ndarray :=
  NDArray (shape0 m) (shape1 m) (alter (λ row, <[j := p]> row) i (cells m)).

Definition set_pixel (x y : Z) (c : color) : M unit :=
  p ← resolve_color c;
  s ← read;
  match py_index (shape0 (_buf s)) x with
  | None => raise IndexError
  | Some i =>
      match py_index (shape1 (_buf s)) y with
      | None => raise IndexError
      | Some j =>
          if fits_cell p then modify (with_buf (store (_buf s) i j p))
          else raise OverflowError
      end
  end.

Definition safe_set_pixel (x y : Z) (c : color) : M unit :=
  if (x >=? 0) && (y >=? 0) && (x <? WIDTH) && (y <? HEIGHT)
  then set_pixel x y c
  else ret tt.

Definition get_pixel (x y : Z) : M pixel :=
  s ← read;
  match py_index (shape0 (_buf s)) x with
  | None => raise IndexError
  | Some i =>
      match py_index (shape1 (_buf s)) y with
      | None => raise IndexError
      | Some j => ret (cell_or_zero (_buf s) i j)
      end
  end.

Definition get_pixels : M ndarray :=
  s ← read;
  ret (_buf s).

(** The function has no [global _buf]: its assignment binds a local name,
    which is dropped when the function returns. *)
Definition set_pixels (buf : ndarray) : M unit :=
  let _buf := buf in
  ret tt.

Definition get_shape : M (Z * Z) :=
  s ← read;
  ret (_buffer_width s, _buffer_height s).

Definition clear : M unit :=
  modify (λ s, with_buf (fill (_buf s) (0, 0, 0)) s).

(** ** Output *)

(** [setup()] opens the SPI device on its first call and notes it in
    [is_setup]; later calls return at once.  The handle [_spi] and the flag
    are not among the globals of [state]: the device is kept as the list
    [io] of what was sent to it, on which opening it leaves no trace, so
    that a first call and a later one are not told apart here.  No
    statement below is about [_spi] or [is_setup]. *)
Definition setup : M unit := ret tt.
Definition xfer2 (bytes : list Z) : M unit :=
  modify (λ s, with_io (io s ++ [Xfer2 bytes]) s).
Definition sleep : M unit :=
  modify (λ s, with_io (io s ++ [Sleep]) s).

(** [range(n)] *)
Definition range (n : nat) : list Z := Z.of_nat <$> seq 0 n.

Section Show.
Variable uint8_of_float_undefined : spec_float → Z.

(** [(window.reshape(768) * _brightness).astype(numpy.uint8).tolist()] *)
Definition payload (window : ndarray) (brightness : pynum) : result (list Z) :=
  flat ← reshape768 window;
  scaled ← mul_scalar flat brightness;
  mret (astype_uint8 uint8_of_float_undefined scaled).

(** The body of the loop over the addresses. *)
Definition show_display (address : Z) : M unit :=
  s ← read;
  '(_, display) ← display_at address;
  if Display.enabled display then
    let window :=
      if (_buffer_width s =? _buffer_height s) || ((_rotation s =? 0) || (_rotation s =? 2))
      then Display.get_buffer_window display (rot90 (_buf s) (_rotation s))
      else Display.get_buffer_window display (rot90 (_buf s) (_rotation s)) in
    bytes ← lift (payload window (_brightness s));
    xfer2 ((_SOF + 1 + address) :: bytes);;
    sleep
  else ret tt.

Definition show : M unit :=
  setup;;
  s ← read;
  (if _addressing_enabled s then
     for_in (range 8) show_display
   else
     bytes ← lift (payload (rot90 (_buf s) (_rotation s)) (_brightness s));
     xfer2 (_SOF :: bytes));;
  sleep.

End Show.

(** ** Scrolling *)

(** [numpy.roll] along one axis of length [n], as numpy computes it: the
    shift is reduced modulo [n] (modulo 1 on an empty axis), and the last
    [offset] items come first. *)
Definition roll_list {A} (n : nat) (shift : Z) (l : list A) : list A :=
  let offset := Z.to_nat (shift mod Z.of_nat (if n is O then 1%nat else n)) in
  if offset is O then l
  else drop (n - offset) l ++ take (n - offset) l.

(** [numpy.roll(m, shift, axis=0)] and [numpy.roll(m, shift, axis=1)] *)
Definition roll0 (m : ndarray) (shift : Z) : ndarray :=
  NDArray (shape0 m) (shape1 m) (roll_list (shape0 m) shift (cells m)).
Definition roll1 (m : ndarray) (shift : Z) : ndarray :=
  NDArray (shape0 m) (shape1 m) (roll_list (shape1 m) shift <$> cells m).

Definition hscroll (dx : Z) : M unit :=
  modify (λ s, with_buf (roll1 (_buf s) dx) s).

Definition vscroll (dy : Z) : M unit :=
  modify (λ s, with_buf (roll0 (_buf s) dy) s).

(** ** Helpers on pixels *)

(** A pixel read by [get_pixel] is a Python tuple, and goes back into the
    setters as one. *)
Definition tuple (p : pixel) : color :=
  let '(r, g, b) := p in ColorTuple r g b.

Definition swap_pixels (x0 y0 x1 y1 : Z) : M unit :=
  p0 ← get_pixel x0 y0;
  p1 ← get_pixel x1 y1;
  safe_set_pixel x0 y0 (tuple p1);;
  safe_set_pixel x1 y1 (tuple p0).

(** The shader is taken as a function of the two coordinates that returns
    three [int]s and does nothing else. *)
Definition shade_pixels (shader : Z → Z → pixel) : M unit :=
  for_in (range (Z.to_nat WIDTH)) (λ x,
    for_in (range (Z.to_nat HEIGHT)) (λ y,
      let '(r, g, b) := shader x y in
      set_pixel x y (ColorRGB r g b))).

(** ** Drawing *)

(** [for v in l: body], the body updating local variables [acc]. *)
Fixpoint for_fold {A L} (l : list A) (body : A → L → M L) (acc : L) : M L :=
  match l with
  | [] => ret acc
  | v :: l' => acc' ← body v acc; for_fold l' body acc'
  end.

(** One turn of the loop of [_plotLineLow]: the locals are [D] and [y]. *)
Definition plotLineLow_step (dx dy yi : Z) (c : color) (x : Z) (Dy : Z * Z) : M (Z * Z) :=
  let '(D, y) := Dy in
  safe_set_pixel x y c;;
  let '(y, D) := if D >? 0 then (y + yi, D - 2 * dx) else (y, D) in
  ret (D + 2 * dy, y).

Definition _plotLineLow (x0 y0 x1 y1 : Z) (c : color) : M unit :=
  let dx := x1 - x0 in
  let dy := y1 - y0 in
  let yi := if dy <? 0 then -1 else 1 in
  let dy := if dy <? 0 then - dy else dy in
  let D := 2 * dy - dx in
  let y := y0 in
  for_fold (seqZ x0 (x1 - x0)) (plotLineLow_step dx dy yi c) (D, y);;
  ret tt.

(** One turn of the loop of [_plotLineHigh]: the locals are [D] and [x]. *)
Definition plotLineHigh_step (dx dy xi : Z) (c : color) (y : Z) (Dx : Z * Z) : M (Z * Z) :=
  let '(D, x) := Dx in
  safe_set_pixel x y c;;
  let '(x, D) := if D >? 0 then (x + xi, D - 2 * dy) else (x, D) in
  ret (D + 2 * dx, x).

Definition _plotLineHigh (x0 y0 x1 y1 : Z) (c : color) : M unit :=
  let dx := x1 - x0 in
  let dy := y1 - y0 in
  let xi := if dx <? 0 then -1 else 1 in
  let dx := if dx <? 0 then - dx else dx in
  let D := 2 * dx - dy in
  let x := x0 in
  for_fold (seqZ y0 (y1 - y0)) (plotLineHigh_step dx dy xi c) (D, x);;
  ret tt.

Definition draw_line (x0 y0 x1 y1 : Z) (c : color) : M unit :=
  (if Z.abs (y1 - y0) <? Z.abs (x1 - x0) then
     if x0 >? x1 then _plotLineLow x1 y1 x0 y0 c
     else _plotLineLow x0 y0 x1 y1 c
   else if y0 >? y1 then _plotLineHigh x1 y1 x0 y0 c
   else _plotLineHigh x0 y0 x1 y1 c);;
  safe_set_pixel x0 y0 c;;
  safe_set_pixel x1 y1 c.

Definition draw_rect (x y w h : Z) (c : color) : M unit :=
  let x1 := x + h in
  let y1 := y + w in
  draw_line x y x1 y c;;
  draw_line x1 y x1 y1 c;;
  draw_line x1 y1 x y1 c;;
  draw_line x y1 x y c.

Definition fill_rect (x y w h : Z) (c : color) : M unit :=
  let x1 := x + h in
  for_in (range (Z.to_nat (Z.abs (w + 1)))) (λ i,
    draw_line x (y + i) x1 (y + i) c).

(** The locals of the loop of [draw_circle]. *)
Record circle_locals := CircleLocals {
  circle_x : Z;
  circle_y : Z;
  circle_f : Z;
  circle_ddf_x : Z;
  circle_ddf_y : Z
}.

(** The assignments at the head of one turn of the loop. *)
Definition circle_advance (l : circle_locals) : circle_locals :=
  let '(y, ddf_y, f) :=
    if circle_f l >=? 0
    then (circle_y l - 1, circle_ddf_y l + 2, circle_f l + (circle_ddf_y l + 2))
    else (circle_y l, circle_ddf_y l, circle_f l) in
  let x := circle_x l + 1 in
  let ddf_x := circle_ddf_x l + 2 in
  let f := f + ddf_x in
  CircleLocals x y f ddf_x ddf_y.

(** The eight pixels of one turn. *)
Definition circle_octants (x0 y0 x y : Z) (c : color) : M unit :=
  safe_set_pixel (x0 + x) (y0 + y) c;;
  safe_set_pixel (x0 - x) (y0 + y) c;;
  safe_set_pixel (x0 + x) (y0 - y) c;;
  safe_set_pixel (x0 - x) (y0 - y) c;;
  safe_set_pixel (x0 + y) (y0 + x) c;;
  safe_set_pixel (x0 - y) (y0 + x) c;;
  safe_set_pixel (x0 + y) (y0 - x) c;;
  safe_set_pixel (x0 - y) (y0 - x) c.

(** [while x < y: ...]: a turn brings [x] and [y] closer by one at least,
    so [fuel] turns are enough whenever [y - x <= fuel]. *)
Fixpoint circle_loop (fuel : nat) (x0 y0 : Z) (c : color) (l : circle_locals) : M unit :=
  match fuel with
  | O => ret tt
  | S fuel =>
      if circle_x l <? circle_y l then
        let l := circle_advance l in
        circle_octants x0 y0 (circle_x l) (circle_y l) c;;
        circle_loop fuel x0 y0 c l
      else ret tt
  end.

Definition draw_circle (x y radius : Z) (c : color) : M unit :=
  let x0 := y in
  let y0 := x in
  let radius := Z.max 0 radius in
  let f := 1 - radius in
  let ddf_x := 1 in
  let ddf_y := -2 * radius in
  let x := 0 in
  let y := radius in
  safe_set_pixel x0 (y0 + radius) c;;
  safe_set_pixel x0 (y0 - radius) c;;
  safe_set_pixel (x0 + radius) y0 c;;
  safe_set_pixel (x0 - radius) y0 c;;
  circle_loop (Z.to_nat (y - x)) x0 y0 c (CircleLocals x y f ddf_x ddf_y).

(** ** Colours by hue *)

(** [int(n * 255)] for a component [n] that [colorsys.hsv_to_rgb] returns,
    an [int] or a [float]: the product of two [int]s is exact, and the
    float product loses its fraction; [int] refuses NaN and the
    infinities. *)
Definition int_times_255 (n : pynum) : result Z :=
  match n with
  | PyInt z => Ok (z * 255)
  | PyFloat f =>
      let product := float64_mul f (float64_of_Z 255) in
      match float64_trunc product with
      | Some t => Ok t
      | None =>
          match product with
          | S754_nan => Raise (ValueError "cannot convert float NaN to integer")
          | _ => Raise OverflowError
          end
      end
  end.

Section Hsv.
(** [colorsys.hsv_to_rgb] is the standard library's, not this module's: it
    is taken as any function from three numbers to three numbers or to an
    exception. *)
Variable hsv_to_rgb : pynum → pynum → pynum → result (pynum * pynum * pynum).

(** [[int(n * 255) for n in colorsys.hsv_to_rgb(h, s, v)]] *)
Definition hsv_channels (h s v : pynum) : result pixel :=
  '(r, g, b) ← hsv_to_rgb h s v;
  r ← int_times_255 r;
  g ← int_times_255 g;
  b ← int_times_255 b;
  mret (r, g, b).

Definition set_pixel_hsv (x y : Z) (h s v : pynum) : M unit :=
  '(r, g, b) ← lift (hsv_channels h s v);
  set_pixel x y (ColorRGB r g b).

Definition safe_set_pixel_hsv (x y : Z) (h s v : pynum) : M unit :=
  if (x >=? 0) && (y >=? 0) && (x <? WIDTH) && (y <? HEIGHT)
  then set_pixel_hsv x y h s v
  else ret tt.

End Hsv.

(** [set_layout] does nothing, whatever its argument. *)
Definition set_layout : M unit := ret tt.

Section Off.
Variable uint8_of_float_undefined : spec_float → Z.

Definition off : M unit :=
  clear;;
  show uint8_of_float_undefined.

End Off.

(** ** Notions of the statements *)

(** The shape of the buffer agrees with the two globals that record it, and
    every row has its cells. *)
Definition buffer_invariant (s : state) : Prop :=
  wf_ndarray (_buf s) ∧
  _buffer_width s = Z.of_nat (shape0 (_buf s)) ∧
  _buffer_height s = Z.of_nat (shape1 (_buf s)).

(** A quarter-turn, counterclockwise: the cell that arrives at [(i, j)]
    comes from row [j], counted from the end of the row by [i]. *)
Definition quarter_turn (m : ndarray) : ndarray :=
  tabulate (shape1 m) (shape0 m) (λ i j, cell_or_zero m j (shape1 m - 1 - i)).

(** A quarter-turn the other way, clockwise: the cell that arrives at
    [(i, j)] comes from column [i], counted from the last row by [j]. *)
Definition quarter_turn_back (m : ndarray) : ndarray :=
  tabulate (shape1 m) (shape0 m) (λ i j, cell_or_zero m (shape0 m - 1 - j) i).

(** A rotation by [k] quarter-turns, one turn after the other; a negative
    count turns the other way. *)
Definition quarter_turns (k : Z) (m : ndarray) : ndarray :=
  if 0 <=? k then Nat.iter (Z.to_nat k) quarter_turn m
  else Nat.iter (Z.to_nat (- k)) quarter_turn_back m.

(** The 16x16 sub-grid with its top-left corner at [(x, y)]. *)
Definition sub_grid (m : ndarray) (x y : Z) : ndarray :=
  tabulate 16 16 (λ i j, cell_or_zero m (Z.to_nat x + i) (Z.to_nat y + j)).

(** The window of a panel: rotate the whole buffer, slice, rotate the
    slice by the panel's rotation and one turn more. *)
Definition extract_window (buf : ndarray) (global_rotation : Z) (d : Display.t) : ndarray :=
  quarter_turns (Display.rotation d + 1)
    (sub_grid (quarter_turns global_rotation buf) (Display.x d) (Display.y d)).

(** A scaled channel saturated into a byte. *)
Definition saturate (v : Z) : Z := Z.max 0 (Z.min 255 v).

(** The byte that one channel [c] of a window becomes in a frame. *)
Definition scaled_byte (uint8_of_float_undefined : spec_float → Z)
    (brightness : pynum) (c : Z) : Z :=
  match brightness with
  | PyInt k => uint8_of_int (wrap_int64 (c * k))
  | PyFloat f => uint8_of_float uint8_of_float_undefined (float64_mul (float64_of_Z c) f)
  end.

(** What numpy's arithmetic makes of a channel [c] under a brightness: a
    byte; with an [int] brightness, the product reduced modulo 256; with a
    [float] brightness, the integer part of the float product whenever that
    is in [0, 255]. *)
Definition scaled_as_numpy (brightness : pynum) (c byte : Z) : Prop :=
  0 ≤ byte ≤ 255 ∧
  (∀ k, brightness = PyInt k → byte = (c * k) mod 256) ∧
  (∀ f t, brightness = PyFloat f →
     float64_trunc (float64_mul (float64_of_Z c) f) = Some t →
     0 ≤ t ≤ 255 → byte = t).

(** The windows a call of [show] reads: the rotated buffer, or in
    addressed mode the window of a display of the chain. *)
Definition shown_window (s : state) (w : ndarray) : Prop :=
  if _addressing_enabled s
  then ∃ d, d ∈ _displays s ∧
            w = Display.get_buffer_window d (rot90 (_buf s) (_rotation s))
  else w = rot90 (_buf s) (_rotation s).

(** A frame whose payload is, byte by byte, the channels of a window that
    [show] reads, scaled as numpy scales them. *)
Definition scaled_frame (s : state) (frame : list Z) : Prop :=
  ∃ header w bytes,
    frame = header :: bytes ∧ shown_window s w ∧
    Forall2 (scaled_as_numpy (_brightness s)) (ravel w) bytes.

(** Whether the slot at an address of the chain is enabled. *)
Definition panel_enabled (s : state) (a : nat) : bool :=
  match _displays s !! a with
  | Some d => Display.enabled d
  | None => false
  end.

(** The frame of the panel at address [a]: the header byte of the address,
    then the payload of the panel's window. *)
Definition panel_frame (uint8_of_float_undefined : spec_float → Z)
    (s : state) (a : nat) (frame : list Z) : Prop :=
  ∃ d bytes,
    _displays s !! a = Some d ∧
    payload uint8_of_float_undefined
      (Display.get_buffer_window d (rot90 (_buf s) (_rotation s))) (_brightness s)
      = Ok bytes ∧
    frame = (0x72 + 1 + Z.of_nat a) :: bytes.

(** What [set_rotation(r)] comes to, whatever the globals are: the
    quarter-turn count it stores, or the exception it raises. *)
Definition rotation_outcome (r : pynum) : result Z :=
  match set_rotation r initial with
  | (Ok _, s') => Ok (_rotation s')
  | (Raise e, _) => Raise e
  end.

(** An integer angle is taken to the multiple of 90 nearest to it. *)
Definition snaps_to_nearest (z : Z) : bool :=
  match rotation_outcome (PyInt z) with
  | Ok k => Z.abs (90 * k - z) <=? 45
  | Raise _ => false
  end.

(** The bytes of the transfers among some events. *)
Definition frames (evs : list event) : list (list Z) :=
  evs ≫= (λ ev, match ev with Xfer2 bytes => [bytes] | Sleep => [] end).

(** ** Notions of the further statements *)

(** The pixel that a colour argument stands for, when it stands for one. *)
Definition color_pixel (c : color) : option pixel :=
  match c with
  | ColorTuple r g b => Some (r, g, b)
  | ColorName name => COLORS !! lower name
  | ColorRGB r g b => Some (r, g, b)
  end.

(** A colour argument that stands for the pixel [p], which the cells of the
    buffer can hold. *)
Definition valid_color (c : color) (p : pixel) : Prop :=
  color_pixel c = Some p ∧ fits_cell p = true.

(** Every cell of the array holds numbers of 64 bits, as a numpy [int]
    array does. *)
Definition int64_buffer (m : ndarray) : Prop :=
  ∀ i j p, cell m i j = Some p → fits_cell p = true.

(** A buffer of the shape of one panel. *)
Definition panel_buffer (m : ndarray) : Prop :=
  wf_ndarray m ∧ shape0 m = 16%nat ∧ shape1 m = 16%nat.

(** The coordinates that the guard of [safe_set_pixel] lets through. *)
Definition in_guard (x y : Z) : Prop :=
  0 ≤ x < 16 ∧ 0 ≤ y < 16.

(** The pixel at [(x, y)] of a buffer, for coordinates from 0. *)
Definition pixel_at (m : ndarray) (x y : Z) : pixel :=
  cell_or_zero m (Z.to_nat x) (Z.to_nat y).

(** What [safe_set_pixel] makes of a panel buffer: the pixel is stored when
    the guard lets the coordinates through. *)
Definition plot (m : ndarray) (x y : Z) (p : pixel) : ndarray :=
  if (x >=? 0) && (y >=? 0) && (x <? WIDTH) && (y <? HEIGHT)
  then store m (Z.to_nat x) (Z.to_nat y) p
  else m.

(** The buffer [b] is the panel buffer [b0] with some pixels set to [p]:
    every pixel is [p] or as it was. *)
Definition painted (p : pixel) (b0 b : ndarray) : Prop :=
  panel_buffer b ∧
  ∀ x y, pixel_at b x y = p ∨ pixel_at b x y = pixel_at b0 x y.

(** The buffer [b] is the panel buffer [b0] with exactly the pixels of [P]
    set to [p]. *)
Definition painted_exactly (P : Z → Z → Prop) (p : pixel) (b0 b : ndarray) : Prop :=
  panel_buffer b ∧
  ∀ x y, in_guard x y →
    (P x y → pixel_at b x y = p) ∧
    (¬ P x y → pixel_at b x y = pixel_at b0 x y).

(** The points of a list plotted one after the other. *)
Definition plot_all (m : ndarray) (points : list (Z * Z)) (p : pixel) : ndarray :=
  foldl (λ m '(x, y), plot m x y p) m points.

(** The points that the loop of [_plotLineLow] passes to [safe_set_pixel],
    from the locals [D] and [y]. *)
Fixpoint low_points (xs : list Z) (dx dy yi D y : Z) : list (Z * Z) :=
  match xs with
  | [] => []
  | x :: xs =>
      (x, y) ::
      (let '(y, D) := if D >? 0 then (y + yi, D - 2 * dx) else (y, D) in
       low_points xs dx dy yi (D + 2 * dy) y)
  end.

(** The points that the loop of [_plotLineHigh] passes to
    [safe_set_pixel], from the locals [D] and [x]. *)
Fixpoint high_points (ys : list Z) (dx dy xi D x : Z) : list (Z * Z) :=
  match ys with
  | [] => []
  | y :: ys =>
      (x, y) ::
      (let '(x, D) := if D >? 0 then (x + xi, D - 2 * dy) else (x, D) in
       high_points ys dx dy xi (D + 2 * dx) x)
  end.

Definition plotLineLow_points (x0 y0 x1 y1 : Z) : list (Z * Z) :=
  let dx := x1 - x0 in
  let dy := y1 - y0 in
  let yi := if dy <? 0 then -1 else 1 in
  let dy := if dy <? 0 then - dy else dy in
  low_points (seqZ x0 (x1 - x0)) dx dy yi (2 * dy - dx) y0.

Definition plotLineHigh_points (x0 y0 x1 y1 : Z) : list (Z * Z) :=
  let dx := x1 - x0 in
  let dy := y1 - y0 in
  let xi := if dx <? 0 then -1 else 1 in
  let dx := if dx <? 0 then - dx else dx in
  high_points (seqZ y0 (y1 - y0)) dx dy xi (2 * dx - dy) x0.

(** The points that [draw_line] passes to [safe_set_pixel], in order. *)
Definition line_points (x0 y0 x1 y1 : Z) : list (Z * Z) :=
  (if Z.abs (y1 - y0) <? Z.abs (x1 - x0) then
     if x0 >? x1 then plotLineLow_points x1 y1 x0 y0
     else plotLineLow_points x0 y0 x1 y1
   else if y0 >? y1 then plotLineHigh_points x1 y1 x0 y0
   else plotLineHigh_points x0 y0 x1 y1) ++ [(x0, y0); (x1, y1)].

(** The coordinate [v] lies between [a] and [b], whichever is the
    smaller. *)
Definition between (a b v : Z) : Prop :=
  Z.min a b ≤ v ≤ Z.max a b.

(** The points of one turn of the loop of [draw_circle], and of the loop. *)
Definition octant_points (x0 y0 x y : Z) : list (Z * Z) :=
  [(x0 + x, y0 + y); (x0 - x, y0 + y); (x0 + x, y0 - y); (x0 - x, y0 - y);
   (x0 + y, y0 + x); (x0 - y, y0 + x); (x0 + y, y0 - x); (x0 - y, y0 - x)].

Fixpoint circle_loop_points (fuel : nat) (x0 y0 : Z) (l : circle_locals) : list (Z * Z) :=
  match fuel with
  | O => []
  | S fuel =>
      if circle_x l <? circle_y l then
        let l := circle_advance l in
        octant_points x0 y0 (circle_x l) (circle_y l) ++ circle_loop_points fuel x0 y0 l
      else []
  end.

(** The points that [draw_circle] passes to [safe_set_pixel], in order. *)
Definition circle_points (x y radius : Z) : list (Z * Z) :=
  let x0 := y in
  let y0 := x in
  let radius := Z.max 0 radius in
  [(x0, y0 + radius); (x0, y0 - radius); (x0 + radius, y0); (x0 - radius, y0)] ++
  circle_loop_points (Z.to_nat radius) x0 y0
    (CircleLocals 0 radius (1 - radius) 1 (-2 * radius)).

(** What every call of the module keeps: the eight slots of the chain, a
    well-formed buffer, cells of 64 bits. *)
Definition module_invariant (s : state) : Prop :=
  length (_displays s) = 8%nat ∧ wf_ndarray (_buf s) ∧ int64_buffer (_buf s).

(** The calls of the functions of the module, one constructor for each
    function with its arguments; [rotation] is another name of
    [set_rotation]. *)
Inductive call :=
| CallSetup
| CallEnableAddressing (enabled : bool)
| CallSetupBuffer (width height : Z)
| CallEnableDisplay (address : Z) (enabled : bool)
| CallSetupDisplay (address x y rotation : Z)
| CallSetBrightness (b : pynum)
| CallSetRotation (r : pynum)
| CallGetRotation
| CallSetLayout
| CallSetAll (c : color)
| CallSetPixel (x y : Z) (c : color)
| CallSafeSetPixel (x y : Z) (c : color)
| CallDrawCircle (x y radius : Z) (c : color)
| CallDrawLine (x0 y0 x1 y1 : Z) (c : color)
| CallDrawRect (x y w h : Z) (c : color)
| CallFillRect (x y w h : Z) (c : color)
| CallSetPixelHsv (x y : Z) (h s v : pynum)
| CallSafeSetPixelHsv (x y : Z) (h s v : pynum)
| CallGetPixel (x y : Z)
| CallShadePixels (shader : Z → Z → pixel)
| CallSwapPixels (x0 y0 x1 y1 : Z)
| CallGetPixels
| CallSetPixels (buf : ndarray)
| CallHscroll (dx : Z)
| CallVscroll (dy : Z)
| CallGetShape
| CallClear
| CallOff
| CallShow.

(** What a call does to the globals; the value that a getter returns is
    dropped. *)
Definition run_call (uint8_of_float_undefined : spec_float → Z)
    (hsv_to_rgb : pynum → pynum → pynum → result (pynum * pynum * pynum))
    (c : call) : M unit :=
  match c with
  | CallSetup => setup
  | CallEnableAddressing enabled => enable_addressing enabled
  | CallSetupBuffer width height => setup_buffer width height
  | CallEnableDisplay address enabled => enable_display address enabled
  | CallSetupDisplay address x y rotation => setup_display address x y rotation
  | CallSetBrightness b => set_brightness b
  | CallSetRotation r => set_rotation r
  | CallGetRotation => get_rotation;; ret tt
  | CallSetLayout => set_layout
  | CallSetAll c => set_all c
  | CallSetPixel x y c => set_pixel x y c
  | CallSafeSetPixel x y c => safe_set_pixel x y c
  | CallDrawCircle x y radius c => draw_circle x y radius c
  | CallDrawLine x0 y0 x1 y1 c => draw_line x0 y0 x1 y1 c
  | CallDrawRect x y w h c => draw_rect x y w h c
  | CallFillRect x y w h c => fill_rect x y w h c
  | CallSetPixelHsv x y h s v => set_pixel_hsv hsv_to_rgb x y h s v
  | CallSafeSetPixelHsv x y h s v => safe_set_pixel_hsv hsv_to_rgb x y h s v
  | CallGetPixel x y => get_pixel x y;; ret tt
  | CallShadePixels shader => shade_pixels shader
  | CallSwapPixels x0 y0 x1 y1 => swap_pixels x0 y0 x1 y1
  | CallGetPixels => get_pixels;; ret tt
  | CallSetPixels buf => set_pixels buf
  | CallHscroll dx => hscroll dx
  | CallVscroll dy => vscroll dy
  | CallGetShape => get_shape;; ret tt
  | CallClear => clear
  | CallOff => off uint8_of_float_undefined
  | CallShow => show uint8_of_float_undefined
  end.

(** A pixel of three bytes. *)
Definition byte_pixel (p : pixel) : bool :=
  let '(r, g, b) := p in
  (0 <=? r) && (r <=? 255) && (0 <=? g) && (g <=? 255) && (0 <=? b) && (b <=? 255).

(** The statement [m] plots the points of [points] in the colour [p] and
    returns [a]: on a panel buffer it leaves that buffer, the points
    plotted, and nothing else changed. *)
Definition plots {A} (points : list (Z * Z)) (p : pixel) (a : A) (m : M A) : Prop :=
  ∀ s, panel_buffer (_buf s) →
    m s = (Ok a, with_buf (plot_all (_buf s) points p) s).

(** The statement [m] is a walk over [points]: it calls [safe_set_pixel]
    with the colour [c] on each point in order, stops at the first call
    that raises, and returns [a] otherwise. *)
Definition draws {A} (points : list (Z * Z)) (c : color) (a : A) (m : M A) : Prop :=
  ∀ s, m s = (for_in points (λ pt, safe_set_pixel pt.1 pt.2 c) ≫= λ _, ret a) s.
(** The points that [draw_rect] passes to [safe_set_pixel], in order. *)
Definition rect_points (x y w h : Z) : list (Z * Z) :=
  let x1 := x + h in
  let y1 := y + w in
  line_points x y x1 y ++ line_points x1 y x1 y1 ++
  line_points x1 y1 x y1 ++ line_points x y1 x y.

(** The points that [fill_rect] passes to [safe_set_pixel], in order. *)
Definition fill_points (x y w h : Z) : list (Z * Z) :=
  range (Z.to_nat (Z.abs (w + 1))) ≫= λ i, line_points x (y + i) (x + h) (y + i).

(** The outline of the rectangle with the corners [(x0, y0)] and
    [(x1, y1)]. *)
Definition on_outline (x0 y0 x1 y1 x y : Z) : Prop :=
  between x0 x1 x ∧ between y0 y1 y ∧ (x = x0 ∨ x = x1 ∨ y = y0 ∨ y = y1).

(** The point [(x, y)] is within a pixel of the circle of radius [r] about
    [(cx, cy)]: the square of its distance to the centre is off [r * r] by
    [r] at most. *)
Definition near_circle (cx cy r x y : Z) : Prop :=
  Z.abs ((x - cx) * (x - cx) + (y - cy) * (y - cy) - r * r) ≤ r.

(** What the loop of [draw_circle] keeps of its locals, for the radius
    [r]. *)
Definition circle_invariant (r : Z) (l : circle_locals) : Prop :=
  0 ≤ circle_x l ∧ circle_y l ≤ r ∧
  circle_ddf_x l = 2 * circle_x l + 1 ∧
  circle_ddf_y l = -2 * circle_y l ∧
  circle_f l = circle_x l * circle_x l + circle_y l * circle_y l - r * r
               + 2 * circle_x l - circle_y l + 1 ∧
  (circle_x l < circle_y l → -2 * circle_y l + 2 ≤ circle_f l ≤ 2 * circle_x l + 1).
(** The buffer [b] after the turns of [shade_pixels] that come before the
    pixel [(x, y)] in the order of the two loops. *)
Definition shaded_until (shader : Z → Z → pixel) (x y : nat) (b0 b : ndarray) : Prop :=
  wf_ndarray b ∧ shape0 b = shape0 b0 ∧ shape1 b = shape1 b0 ∧
  ∀ i j, cell_or_zero b i j =
    if decide (i < x ∨ (i = x ∧ j < y))%nat
    then (if decide (j < 16)%nat then shader (Z.of_nat i) (Z.of_nat j) else cell_or_zero b0 i j)
    else cell_or_zero b0 i j.


(** A float that is a number: neither an infinity nor NaN. *)
Definition float64_is_finite (f : spec_float) : bool :=
  match f with
  | S754_zero _ | S754_finite _ _ _ => true
  | S754_infinity _ | S754_nan => false
  end.

(** A brightness that is an [int] or a float that is a number. *)
Definition finite_brightness (b : pynum) : Prop :=
  ∀ f, b = PyFloat f → float64_is_finite f = true.
(** Every state that the statement [m] can end in, returning or raising,
    is related by [R] to the one it started from. *)
Definition steps {A} (R : state → state → Prop) (m : M A) : Prop :=
  ∀ s r s', m s = (r, s') → R s s'.

(** From [s] to [s'] the buffer at most has changed, and it has kept its
    shape, its rows and the width of its cells. *)
Definition buffer_step (s s' : state) : Prop :=
  ∃ b, s' = with_buf b s ∧
       shape0 b = shape0 (_buf s) ∧ shape1 b = shape1 (_buf s) ∧
       (wf_ndarray (_buf s) → wf_ndarray b) ∧
       (int64_buffer (_buf s) → int64_buffer b).

(** From [s] to [s'] the slots of the chain at most have changed, and
    their number has stayed. *)
Definition chain_step (s s' : state) : Prop :=
  ∃ ds, s' = with_displays ds s ∧ length ds = length (_displays s).

(** From [s] to [s'] events at most have been added. *)
Definition io_step (s s' : state) : Prop :=
  ∃ evs, s' = with_io (io s ++ evs) s.

(** What a call can change of the globals. *)
Definition footprint (c : call) (s s' : state) : Prop :=
  match c with
  | CallEnableAddressing enabled => s' = with_addressing_enabled enabled s
  | CallSetupBuffer width height =>
      s' = with_buffer_shape width height s ∨
      s' = with_buf (zeros (Z.to_nat width) (Z.to_nat height))
             (with_buffer_shape width height s)
  | CallEnableDisplay _ _ | CallSetupDisplay _ _ _ _ => chain_step s s'
  | CallSetBrightness b => s' = with_brightness b s
  | CallSetRotation _ => s' = s ∨ ∃ k, s' = with_rotation k s
  | CallSetup | CallGetRotation | CallSetLayout | CallGetPixel _ _ | CallGetPixels
  | CallSetPixels _ | CallGetShape => s' = s
  | CallShow => io_step s s'
  | CallOff => ∃ s1, buffer_step s s1 ∧ io_step s1 s'
  | _ => buffer_step s s'
  end.

(** The functions that send to the device, the one that makes a new
    buffer, those that set slots of the chain, and those that write pixels
    of the buffer. *)
Definition sends (c : call) : bool :=
  match c with
  | CallShow | CallOff => true
  | _ => false
  end.
Definition resizes (c : call) : bool :=
  match c with
  | CallSetupBuffer _ _ => true
  | _ => false
  end.
Definition configures_chain (c : call) : bool :=
  match c with
  | CallEnableDisplay _ _ | CallSetupDisplay _ _ _ _ => true
  | _ => false
  end.
Definition writes_pixels (c : call) : bool :=
  match c with
  | CallSetupBuffer _ _ | CallSetAll _ | CallSetPixel _ _ _ | CallSafeSetPixel _ _ _
  | CallDrawCircle _ _ _ _ | CallDrawLine _ _ _ _ _ | CallDrawRect _ _ _ _ _
  | CallFillRect _ _ _ _ _ | CallSetPixelHsv _ _ _ _ _ | CallSafeSetPixelHsv _ _ _ _ _
  | CallShadePixels _ | CallSwapPixels _ _ _ _ | CallHscroll _ | CallVscroll _
  | CallClear | CallOff => true
  | _ => false
  end.

(** ** Some states *)

(** A chain of two panels side by side on a 32x16 buffer, at the addresses
    2 and 5, in addressed mode. *)
Definition two_panels : state :=
  snd ((setup_buffer 32 16;;
        setup_display 2 0 0 0;;
        setup_display 5 16 0 0;;
        enable_addressing true) initial).

(** One pixel set to (200, 0, 300), then the brightness set to the [int]
    [b]. *)
Definition one_pixel (b : Z) : state :=
  snd ((set_pixel 0 0 (ColorRGB 200 0 300);; set_brightness (PyInt b)) initial).

(** A 32x16 buffer shown a quarter-turn round, one pixel lit, and a panel
    on the second half of the turned buffer, itself mounted a quarter-turn
    round. *)
Definition turned_panel : state :=
  snd ((setup_buffer 32 16;;
        set_rotation (PyInt 90);;
        set_pixel 20 3 (ColorName "orange");;
        setup_display 0 0 16 1;;
        enable_addressing true) initial).

(** The start-up 16x16 buffer in addressed mode with two panels set up
    side by side, the second beyond the edge of the buffer. *)
Definition two_panels_off_edge : state :=
  snd ((setup_display 0 0 0 0;;
        setup_display 1 16 0 0;;
        enable_addressing true) initial).

(** The start-up state with two pixels lit. *)
Definition two_pixels : state :=
  snd ((set_pixel 0 15 (ColorRGB 1 2 3);; set_pixel 7 3 (ColorRGB 4 5 6)) initial).

(** * Properties *)

Ltac run_py :=
  unfold mbind, M_bind, result_bind, mret, M_ret, result_ret,
    bind, ret, raise, read, modify, lift in *;
  simpl in *.

(** ** The state monad *)

Lemma bind_ok {A B} (m : M A) (k : A → M B) s a s' :
  m s = (Ok a, s') → (m ≫= k) s = k a s'.
Proof. intros H. run_py. by rewrite H. Qed.

Lemma bind_raise {A B} (m : M A) (k : A → M B) s e s' :
  m s = (Raise e, s') → (m ≫= k) s = (Raise e, s').
Proof. intros H. run_py. by rewrite H. Qed.

(** ** Python indices *)

Lemma py_index_Some n i k :
  py_index n i = Some k ↔
  (0 ≤ i < Z.of_nat n ∧ k = Z.to_nat i) ∨
  (- Z.of_nat n ≤ i < 0 ∧ k = Z.to_nat (Z.of_nat n + i)).
Proof.
  unfold py_index. simpl.
  destruct (0 <=? i) eqn:H0, (i <? Z.of_nat n) eqn:H1, (- Z.of_nat n <=? i) eqn:H2,
    (i <? 0) eqn:H3; simpl;
    (split; [intros [= <-] || intros [=]|intros [[? ->]|[? ->]]]); try (left; split; [lia|done]);
    try (right; split; [lia|done]); try done; try lia.
Qed.

Lemma py_index_None n i :
  py_index n i = None ↔ i < - Z.of_nat n ∨ Z.of_nat n ≤ i.
Proof.
  unfold py_index. simpl.
  destruct (0 <=? i) eqn:H0, (i <? Z.of_nat n) eqn:H1, (- Z.of_nat n <=? i) eqn:H2,
    (i <? 0) eqn:H3; simpl; split; try done; try lia.
Qed.

Lemma py_index_lt n i k : py_index n i = Some k → (k < n)%nat.
Proof. rewrite py_index_Some. lia. Qed.

Lemma py_index_nonneg n i :
  0 ≤ i < Z.of_nat n → py_index n i = Some (Z.to_nat i).
Proof. intros. apply py_index_Some. by left. Qed.


(** ** Python's [round] and the float conversions *)

Lemma abs_signed (s : bool) (a : Z) : 0 ≤ a → Z.abs (if s then - a else a) = a.
Proof. destruct s; lia. Qed.

(** [float64_round] is within one half of the float, on either side. *)
Lemma float64_round_nearest (s : bool) (m : positive) (e k : Z) :
  float64_round (S754_finite s m e) = Some k →
  if 0 <=? e then Z.abs k = Z.pos m * 2 ^ e
  else Z.abs (2 * Z.pos m - 2 * Z.abs k * 2 ^ (- e)) ≤ 2 ^ (- e).
Proof.
  unfold float64_round. intros [= <-].
  destruct (0 <=? e) eqn:He.
  - apply Z.leb_le in He. apply abs_signed.
    apply Z.mul_nonneg_nonneg; [lia|by apply Z.pow_nonneg].
  - apply Z.leb_gt in He.
    assert (0 < 2 ^ (- e)) as Hd by (apply Z.pow_pos_nonneg; lia).
    pose proof (Z.div_mod (Z.pos m) (2 ^ (- e)) ltac:(lia)) as Hdm.
    pose proof (Z.mod_pos_bound (Z.pos m) (2 ^ (- e)) Hd) as Hr.
    assert (0 ≤ Z.pos m / 2 ^ (- e)) as Hq by (apply Z.div_pos; lia).
    revert Hdm Hr Hq.
    generalize (Z.pos m / 2 ^ (- e)) as q, (Z.pos m mod 2 ^ (- e)) as r.
    generalize dependent (2 ^ (- e)). intros d Hd q r Hdm Hr Hq.
    destruct (Z.compare_spec (2 * r) d) as [Hc|Hc|Hc].
    + destruct (Z.even q); rewrite abs_signed by lia; rewrite Hdm; apply Z.abs_le; nia.
    + rewrite abs_signed by lia. rewrite Hdm. apply Z.abs_le. nia.
    + rewrite abs_signed by lia. rewrite Hdm. apply Z.abs_le. nia.
Qed.

(** [float64_trunc] drops less than one unit, toward zero. *)
Lemma float64_trunc_toward_zero (s : bool) (m : positive) (e t : Z) :
  float64_trunc (S754_finite s m e) = Some t →
  (if s then t ≤ 0 else 0 ≤ t) ∧
  if 0 <=? e then Z.abs t = Z.pos m * 2 ^ e
  else 0 ≤ Z.pos m - Z.abs t * 2 ^ (- e) < 2 ^ (- e).
Proof.
  unfold float64_trunc. intros [= <-].
  destruct (0 <=? e) eqn:He.
  - apply Z.leb_le in He.
    assert (0 ≤ Z.pos m * 2 ^ e) by (apply Z.mul_nonneg_nonneg; [lia|by apply Z.pow_nonneg]).
    split; [destruct s; lia|by apply abs_signed].
  - apply Z.leb_gt in He.
    assert (0 < 2 ^ (- e)) as Hd by (apply Z.pow_pos_nonneg; lia).
    pose proof (Z.div_mod (Z.pos m) (2 ^ (- e)) ltac:(lia)) as Hdm.
    pose proof (Z.mod_pos_bound (Z.pos m) (2 ^ (- e)) Hd) as Hr.
    assert (0 ≤ Z.pos m / 2 ^ (- e)) as Hq by (apply Z.div_pos; lia).
    split; [destruct s; lia|]. rewrite abs_signed by done.
    revert Hdm Hr Hq.
    generalize (Z.pos m / 2 ^ (- e)) as q, (Z.pos m mod 2 ^ (- e)) as r.
    generalize dependent (2 ^ (- e)). intros d Hd q r Hdm Hr Hq. nia.
Qed.

(** ** The colour table *)

Lemma resolve_color_unknown (name : string) (s : state) :
  COLORS !! lower name = None →
  resolve_color (ColorName name) s = (Raise (ValueError "Invalid color!"), s).
Proof. intros H. unfold resolve_color. by rewrite H. Qed.

Lemma resolve_color_state (c : color) (s s' : state) (r : result pixel) :
  resolve_color c s = (r, s') → s' = s.
Proof.
  destruct c as [r0 g b|name|r0 g b]; unfold resolve_color.
  - by intros [= _ <-].
  - destruct (COLORS !! lower name); by intros [= _ <-].
  - by intros [= _ <-].
Qed.

(** C10: a colour name of ASCII characters that is not a key of [COLORS]
    once lowercased makes [set_all] and [set_pixel] raise [ValueError],
    and every global of [state], the pixel buffer among them, is as it was
    before the call. *)
Theorem unknown_color_name_raises_unchanged (name : string) (x y : Z) (s : state) :
  is_ascii name = true →
  COLORS !! lower name = None →
  set_all (ColorName name) s = (Raise (ValueError "Invalid color!"), s) ∧
  set_pixel x y (ColorName name) s = (Raise (ValueError "Invalid color!"), s).
Proof.
  intros _ H. split.
  - unfold set_all. by apply bind_raise, resolve_color_unknown.
  - unfold set_pixel. by apply bind_raise, resolve_color_unknown.
Qed.

Lemma unknown_color_name_raises_unchanged_witness :
  is_ascii "Pink" = true ∧
  COLORS !! lower "Pink" = None ∧
  set_all (ColorName "Pink") initial = (Raise (ValueError "Invalid color!"), initial) ∧
  set_pixel 3 4 (ColorName "Pink") initial = (Raise (ValueError "Invalid color!"), initial).
Proof.
  split; [reflexivity|].
  split; [vm_compute; reflexivity|].
  apply (unknown_color_name_raises_unchanged "Pink" 3 4 initial).
  - reflexivity.
  - vm_compute; reflexivity.
Defined.

(** ** The whole-grid setter *)

Lemma set_pixels_no_effect (buf : ndarray) (s : state) :
  set_pixels buf s = (Ok tt, s).
Proof. reflexivity. Qed.

(** C8: on the start-up buffer (all zero), [set_pixels] of a grid of the
    same shape filled with ones changes nothing: [get_pixels] still returns
    the zero buffer, which is not the grid that was passed. *)
Theorem set_pixels_then_get_pixels_initial :
  let buf := fill (zeros 16 16) (1, 1, 1) in
  (set_pixels buf;; get_pixels) initial = (Ok (zeros 16 16), initial) ∧
  zeros 16 16 ≠ buf.
Proof. split; [reflexivity|discriminate]. Qed.

(** ** The panel chain *)



Lemma display_at_length (address : Z) (s s' : state) (r : nat * Display.t) :
  display_at address s = (Ok r, s') → _displays s' = _displays s.
Proof.
  unfold display_at. run_py.
  destruct (py_index _ _); [|congruence].
  destruct (_ !! _); congruence.
Qed.

Lemma setup_display_unfold (address x y rotation : Z) (s : state) :
  setup_display address x y rotation s =
  match display_at address s with
  | (Ok (i, d), s') =>
      enable_display address true
        (with_displays (<[i := Display.update d x y rotation]> (_displays s')) s')
  | (Raise e, s') => (Raise e, s')
  end.
Proof.
  unfold setup_display. run_py.
  by destruct (display_at address s) as [[[i d]|e] s'].
Qed.





(** ** Cells of an array *)

Lemma wf_row (m : ndarray) (i : nat) :
  wf_ndarray m → (i < shape0 m)%nat →
  ∃ row, cells m !! i = Some row ∧ length row = shape1 m.
Proof.
  intros [Hlen Hrows] Hi.
  destruct (lookup_lt_is_Some_2 (cells m) i) as [row Hrow]; [lia|].
  exists row. split; [done|].
  by apply (Forall_lookup_1 _ _ _ _ Hrows Hrow).
Qed.

Lemma wf_cell (m : ndarray) (i j : nat) :
  wf_ndarray m → (i < shape0 m)%nat → (j < shape1 m)%nat →
  ∃ p, cell m i j = Some p.
Proof.
  intros Hwf Hi Hj. destruct (wf_row m i Hwf Hi) as (row & Hrow & Hlen).
  destruct (lookup_lt_is_Some_2 row j) as [p Hp]; [lia|].
  exists p. unfold cell. by rewrite Hrow.
Qed.

Lemma wf_zeros (w h : nat) : wf_ndarray (zeros w h).
Proof.
  split; simpl.
  - by rewrite length_replicate.
  - apply Forall_replicate. by rewrite length_replicate.
Qed.

Lemma wf_store (m : ndarray) (i j : nat) (p : pixel) :
  wf_ndarray m → wf_ndarray (store m i j p).
Proof.
  intros [Hlen Hrows]. split; simpl.
  - by rewrite length_alter.
  - apply Forall_lookup. intros k row. rewrite list_lookup_alter.
    rewrite Forall_lookup in Hrows. case_decide as Hk.
    + subst k. destruct (cells m !! i) as [row'|] eqn:Hrow; [|done].
      intros [= <-]. rewrite length_insert. eauto.
    + eauto.
Qed.

Lemma cell_store_eq (m : ndarray) (i j : nat) (p : pixel) :
  wf_ndarray m → (i < shape0 m)%nat → (j < shape1 m)%nat →
  cell (store m i j p) i j = Some p.
Proof.
  intros Hwf Hi Hj. destruct (wf_row m i Hwf Hi) as (row & Hrow & Hlen).
  unfold cell, store. simpl.
  rewrite list_lookup_alter_eq, Hrow. simpl.
  apply list_lookup_insert_eq. lia.
Qed.

Lemma cell_store_ne (m : ndarray) (i j i' j' : nat) (p : pixel) :
  (i, j) ≠ (i', j') →
  cell (store m i j p) i' j' = cell m i' j'.
Proof.
  intros Hne. unfold cell, store. simpl.
  destruct (decide (i = i')) as [->|Hi].
  - rewrite list_lookup_alter_eq. destruct (cells m !! i') as [row|]; [|done]. simpl.
    apply list_lookup_insert_ne. congruence.
  - by rewrite list_lookup_alter_ne.
Qed.

(** ** The pixel accessors *)

Lemma buffer_invariant_initial : buffer_invariant initial.
Proof. split; [apply wf_zeros|done]. Qed.

Lemma set_pixel_unfold (x y : Z) (c : color) (p : pixel) (s : state) :
  resolve_color c s = (Ok p, s) →
  set_pixel x y c s =
  match py_index (shape0 (_buf s)) x, py_index (shape1 (_buf s)) y with
  | Some i, Some j =>
      if fits_cell p then (Ok tt, with_buf (store (_buf s) i j p) s)
      else (Raise OverflowError, s)
  | _, _ => (Raise IndexError, s)
  end.
Proof.
  intros Hc. unfold set_pixel. rewrite (bind_ok _ _ _ _ _ Hc). run_py.
  destruct (py_index (shape0 _) x); [|done].
  destruct (py_index (shape1 _) y); [|done].
  by destruct (fits_cell p).
Qed.

Lemma get_pixel_unfold (x y : Z) (s : state) :
  get_pixel x y s =
  match py_index (shape0 (_buf s)) x, py_index (shape1 (_buf s)) y with
  | Some i, Some j => (Ok (cell_or_zero (_buf s) i j), s)
  | _, _ => (Raise IndexError, s)
  end.
Proof.
  unfold get_pixel. run_py.
  destruct (py_index (shape0 _) x); [|done].
  by destruct (py_index (shape1 _) y).
Qed.

Lemma resolve_color_rgb (r g b : Z) (s : state) :
  resolve_color (ColorRGB r g b) s = (Ok (r, g, b), s).
Proof. reflexivity. Qed.

Lemma fits_cell_bytes (r g b : Z) :
  0 ≤ r ≤ 255 → 0 ≤ g ≤ 255 → 0 ≤ b ≤ 255 → fits_cell (r, g, b) = true.
Proof.
  intros. unfold fits_cell, fits_int64, int64_min, int64_max.
  repeat (apply andb_true_intro; split); lia.
Qed.

(** C9: within the bounds of the buffer and with channels in [0, 255],
    [set_pixel(x, y, r, g, b)] returns and [get_pixel(x, y)] then returns
    exactly [(r, g, b)]. *)
Theorem set_pixel_then_get_pixel (x y r g b : Z) (s : state) :
  buffer_invariant s →
  0 ≤ x < _buffer_width s → 0 ≤ y < _buffer_height s →
  0 ≤ r ≤ 255 → 0 ≤ g ≤ 255 → 0 ≤ b ≤ 255 →
  ∃ s', set_pixel x y (ColorRGB r g b) s = (Ok tt, s') ∧
        get_pixel x y s' = (Ok (r, g, b), s').
Proof.
  intros (Hwf & Hw & Hh) Hx Hy Hr Hg Hb.
  rewrite (set_pixel_unfold x y _ (r, g, b) s (resolve_color_rgb r g b s)).
  rewrite !py_index_nonneg by lia.
  rewrite fits_cell_bytes by done.
  eexists. split; [done|].
  rewrite get_pixel_unfold. simpl.
  rewrite !py_index_nonneg by lia.
  unfold cell_or_zero. rewrite cell_store_eq by (done || lia). done.
Qed.

Lemma set_pixel_then_get_pixel_witness :
  ∃ s', set_pixel 3 15 (ColorRGB 255 165 0) initial = (Ok tt, s') ∧
        get_pixel 3 15 s' = (Ok (255, 165, 0), s').
Proof.
  apply (set_pixel_then_get_pixel 3 15 255 165 0 initial buffer_invariant_initial);
    split; vm_compute; congruence.
Defined.




(** ** The guarded setter *)

(** On a buffer of the panel's own shape the guard of [safe_set_pixel] is
    the bounds of the buffer: outside them nothing happens, inside them
    the call is [set_pixel]. *)
Lemma safe_set_pixel_panel_shape (x y : Z) (c : color) (s : state) :
  _buffer_width s = WIDTH → _buffer_height s = HEIGHT →
  safe_set_pixel x y c s =
  if decide (0 ≤ x < _buffer_width s ∧ 0 ≤ y < _buffer_height s)
  then set_pixel x y c s else (Ok tt, s).
Proof.
  intros -> ->. unfold safe_set_pixel, WIDTH, HEIGHT.
  case_decide as H.
  - destruct H as [[??] [??]].
    by rewrite (proj2 (Z.geb_le x 0)), (proj2 (Z.geb_le y 0)),
      (proj2 (Z.ltb_lt x 16)), (proj2 (Z.ltb_lt y 16)) by lia.
  - destruct (x >=? 0) eqn:H1, (y >=? 0) eqn:H2, (x <? 16) eqn:H3, (y <? 16) eqn:H4;
      simpl; try done.
    exfalso. apply H. lia.
Qed.

(** C4: the guard compares with the constants [WIDTH] and [HEIGHT], not
    with the shape of the buffer.  After [setup_buffer(8, 8)] the
    coordinate (10, 10) is outside the buffer and [safe_set_pixel] raises
    [IndexError]; after [setup_buffer(32, 32)] the coordinate (20, 20) is
    inside the buffer, [set_pixel] writes it and [safe_set_pixel] writes
    nothing. *)
Theorem safe_set_pixel_resized_buffer :
  ∃ small large,
    setup_buffer 8 8 initial = (Ok tt, small) ∧
    setup_buffer 32 32 initial = (Ok tt, large) ∧
    safe_set_pixel 10 10 (ColorRGB 255 0 0) small = (Raise IndexError, small) ∧
    safe_set_pixel 20 20 (ColorRGB 255 0 0) large = (Ok tt, large) ∧
    (set_pixel 20 20 (ColorRGB 255 0 0);; get_pixel 20 20) large ≠
    (safe_set_pixel 20 20 (ColorRGB 255 0 0);; get_pixel 20 20) large.
Proof.
  eexists _, _. split; [reflexivity|]. split; [reflexivity|].
  split; [reflexivity|]. split; [reflexivity|].
  vm_compute. discriminate.
Qed.

(** ** The global rotation *)

Lemma int_round_state (f : spec_float) (s : state) :
  int_round f s = (fst (int_round f initial), s).
Proof.
  unfold int_round. destruct (float64_round f); [done|]. by destruct f.
Qed.

Lemma float_of_pynum_state (r : pynum) (s : state) :
  float_of_pynum r s = (fst (float_of_pynum r initial), s).
Proof.
  destruct r as [z|f]; [|done]. unfold float_of_pynum.
  by destruct (float64_of_Z z).
Qed.

Lemma set_rotation_any_state (r : pynum) (s : state) :
  set_rotation r s =
  match rotation_outcome r with
  | Ok k => (Ok tt, with_rotation k s)
  | Raise e => (Raise e, s)
  end.
Proof.
  unfold rotation_outcome, set_rotation.
  unfold mbind, M_bind, bind.
  rewrite (float_of_pynum_state r s).
  destruct (float_of_pynum r initial) as [[f|e] s0] eqn:E; simpl; [|done].
  rewrite (int_round_state _ s), (int_round_state _ s0).
  by destruct (int_round _ initial) as [[k|e] s1].
Qed.

Lemma get_rotation_with_rotation (k : Z) (s : state) :
  get_rotation (with_rotation k s) = (Ok (90 * k), with_rotation k s).
Proof. unfold get_rotation. run_py. f_equal. f_equal. lia. Qed.

(** Every integer angle from -3600 to 3600, by evaluation. *)
Lemma snaps_to_nearest_ten_turns :
  forallb snaps_to_nearest (seqZ (-3600) 7201) = true.
Proof. vm_compute. reflexivity. Qed.

Lemma set_rotation_rounds (r : pynum) (k : Z) (s : state) :
  rotation_outcome r = Ok k →
  ∃ f, float_of_pynum r s = (Ok f, s) ∧
       float64_round (float64_div f (float64_of_Z 90)) = Some k.
Proof.
  unfold rotation_outcome, set_rotation.
  unfold mbind, M_bind, bind.
  rewrite (float_of_pynum_state r s).
  destruct (float_of_pynum r initial) as [[f|e] s0] eqn:E; simpl; [|done].
  rewrite (int_round_state _ s0). unfold int_round.
  destruct (float64_round _) as [k'|] eqn:Hk.
  - simpl. intros [= <-]. by exists f.
  - by destruct (float64_div f _).
Qed.

(** An angle given as the float of an integer is treated as that
    integer. *)
Lemma rotation_outcome_float_of_int (z k : Z) :
  rotation_outcome (PyInt z) = Ok k →
  rotation_outcome (PyFloat (float64_of_Z z)) = Ok k.
Proof.
  unfold rotation_outcome, set_rotation, float_of_pynum.
  unfold mbind, M_bind, bind.
  by destruct (float64_of_Z z).
Qed.

(** C5, as the code has it: [set_rotation(r)] either raises and leaves
    the globals as they were, or stores the quarter-turn count [k] that
    [round] makes of the float quotient [r / 90.0], and [get_rotation()]
    then returns [90 * k]; for an integer angle from -3600 to 3600, given
    as an [int] or as a [float], it does not raise, and [90 * k] is the
    multiple of 90 nearest to the angle.  The value is not brought into
    {0, 90, 180, 270}. *)
Theorem set_rotation_then_get_rotation (r : pynum) (s : state) :
  ((∃ e, set_rotation r s = (Raise e, s)) ∨
   (∃ f k, float_of_pynum r s = (Ok f, s) ∧
           float64_round (float64_div f (float64_of_Z 90)) = Some k ∧
           set_rotation r s = (Ok tt, with_rotation k s) ∧
           get_rotation (with_rotation k s) = (Ok (90 * k), with_rotation k s))) ∧
  (∀ z, r = PyInt z ∨ r = PyFloat (float64_of_Z z) → -3600 ≤ z ≤ 3600 →
     ∃ k, set_rotation r s = (Ok tt, with_rotation k s) ∧
          get_rotation (with_rotation k s) = (Ok (90 * k), with_rotation k s) ∧
          Z.abs (90 * k - z) ≤ 45).
Proof.
  split.
  - rewrite set_rotation_any_state. destruct (rotation_outcome r) as [k|e] eqn:Hout.
    + right. destruct (set_rotation_rounds r k s Hout) as (f & Hf & Hk).
      exists f, k. split; [done|]. split; [done|]. split; [done|].
      apply get_rotation_with_rotation.
    + left. by exists e.
  - intros z Hr Hz. rewrite set_rotation_any_state.
    pose proof snaps_to_nearest_ten_turns as Hall.
    rewrite forallb_forall in Hall.
    assert (snaps_to_nearest z = true) as Hsnap.
    { apply Hall, list_elem_of_In, elem_of_seqZ. lia. }
    unfold snaps_to_nearest in Hsnap.
    destruct (rotation_outcome (PyInt z)) as [k|e] eqn:Hout; [|done].
    assert (rotation_outcome r = Ok k) as ->
      by (destruct Hr as [->| ->]; [done|by apply rotation_outcome_float_of_int]).
    exists k. split; [done|]. split; [apply get_rotation_with_rotation|].
    by apply Z.leb_le.
Qed.

Lemma set_rotation_then_get_rotation_witness :
  ∃ k, set_rotation (PyInt 135) initial = (Ok tt, with_rotation k initial) ∧
       get_rotation (with_rotation k initial) = (Ok (90 * k), with_rotation k initial) ∧
       Z.abs (90 * k - 135) ≤ 45.
Proof.
  apply (proj2 (set_rotation_then_get_rotation (PyInt 135) initial) 135 (or_introl eq_refl)).
  split; vm_compute; discriminate.
Defined.

(** C5 as stated fails at 360: [set_rotation(360)] then [get_rotation()]
    returns 360, which is none of 0, 90, 180, 270. *)
Lemma get_rotation_after_full_turn :
  ∃ s', set_rotation (PyInt 360) initial = (Ok tt, s') ∧
        get_rotation s' = (Ok 360, s') ∧
        360 ∉ [0; 90; 180; 270].
Proof.
  eexists. split; [vm_compute; reflexivity|]. split; [reflexivity|].
  rewrite !elem_of_cons, elem_of_nil. lia.
Qed.

(** ** The bytes of a frame *)

Lemma wrap_int64_mod_256 (v : Z) : wrap_int64 v mod 256 = v mod 256.
Proof.
  unfold wrap_int64.
  rewrite Zminus_mod.
  rewrite Z.mod_mod_divide by (by exists (2 ^ 56)).
  rewrite <- Zminus_mod. f_equal. lia.
Qed.

Lemma rot90_size (m : ndarray) (k : Z) :
  (shape0 (rot90 m k) * shape1 (rot90 m k) = shape0 m * shape1 m)%nat.
Proof.
  unfold rot90. simpl.
  destruct (k mod 4 =? 0); [done|].
  destruct (k mod 4 =? 2); [done|].
  destruct (k mod 4 =? 1); simpl; lia.
Qed.

Section RenderFacts.
Variable und : spec_float → Z.

Lemma scaled_byte_as_numpy (b : pynum) (c : Z) :
  scaled_as_numpy b c (scaled_byte und b c).
Proof.
  unfold scaled_as_numpy, scaled_byte. split; [|split].
  - destruct b as [k|f].
    + unfold uint8_of_int. pose proof (Z.mod_pos_bound (wrap_int64 (c * k)) 256). lia.
    + unfold uint8_of_float.
      destruct (float64_trunc _) as [t|].
      * destruct ((0 <=? t) && (t <=? 255)) eqn:Ht.
        -- apply andb_prop in Ht. lia.
        -- pose proof (Z.mod_pos_bound (und (float64_mul (float64_of_Z c) f)) 256). lia.
      * pose proof (Z.mod_pos_bound (und (float64_mul (float64_of_Z c) f)) 256). lia.
  - intros k ->. unfold uint8_of_int. apply wrap_int64_mod_256.
  - intros f t -> Ht Hrange. unfold uint8_of_float. rewrite Ht.
    by rewrite (proj2 (Z.leb_le 0 t)), (proj2 (Z.leb_le t 255)) by lia.
Qed.

Lemma payload_Ok (w : ndarray) (b : pynum) (bytes : list Z) :
  payload und w b = Ok bytes →
  (shape0 w * shape1 w * 3 = 768)%nat ∧ bytes = scaled_byte und b <$> ravel w.
Proof.
  unfold payload, reshape768, mul_scalar. intros Hp. run_py.
  destruct (_ =? 768)%nat eqn:Hshape; [|done].
  apply Nat.eqb_eq in Hshape. split; [done|].
  destruct b as [k|f].
  - destruct (fits_int64 k); [|done]. simpl in Hp.
    injection Hp as <-. by rewrite <- list_fmap_compose.
  - simpl in Hp. injection Hp as <-. by rewrite <- list_fmap_compose.
Qed.

(** The payload exists as soon as the window has 768 channel values and
    the brightness is a [float] or an [int] that fits 64 bits. *)
Lemma payload_total (w : ndarray) (b : pynum) :
  (shape0 w * shape1 w * 3 = 768)%nat →
  (∀ k, b = PyInt k → fits_int64 k = true) →
  ∃ bytes, payload und w b = Ok bytes.
Proof.
  intros Hshape Hb. unfold payload, reshape768, mul_scalar. run_py.
  rewrite (proj2 (Nat.eqb_eq _ _) Hshape).
  destruct b as [k|f]; [rewrite (Hb k eq_refl)|]; simpl; eauto.
Qed.

Lemma payload_scaled (w : ndarray) (b : pynum) (bytes : list Z) :
  payload und w b = Ok bytes →
  Forall2 (scaled_as_numpy b) (ravel w) bytes.
Proof.
  intros [_ ->]%payload_Ok.
  apply Forall2_fmap_r, Forall_Forall2_diag, Forall_forall.
  intros c _. apply scaled_byte_as_numpy.
Qed.

End RenderFacts.

(** ** The frames of a call of [show] *)

Section ShowFacts.
Variable und : spec_float → Z.

Lemma frames_app (evs1 evs2 : list event) :
  frames (evs1 ++ evs2) = frames evs1 ++ frames evs2.
Proof. unfold frames. apply bind_app. Qed.

Lemma display_at_with_io (a : Z) (l : list event) (s : state) :
  display_at a (with_io l s) =
  match py_index (length (_displays s)) a with
  | Some i =>
      match _displays s !! i with
      | Some d => (Ok (i, d), with_io l s)
      | None => (Raise IndexError, with_io l s)
      end
  | None => (Raise IndexError, with_io l s)
  end.
Proof.
  unfold display_at. run_py.
  destruct (py_index _ a); [|done]. by destruct (_ !! _).
Qed.

(** One turn of the loop adds its events and touches nothing else. *)
Lemma show_display_step (s : state) (a : Z) (l : list event) :
  show_display und a (with_io l s) =
  match py_index (length (_displays s)) a with
  | Some i =>
      match _displays s !! i with
      | Some d =>
          if Display.enabled d then
            match payload und (Display.get_buffer_window d (rot90 (_buf s) (_rotation s)))
                    (_brightness s) with
            | Ok bytes =>
                (Ok tt, with_io (l ++ [Xfer2 ((_SOF + 1 + a) :: bytes); Sleep]) s)
            | Raise e => (Raise e, with_io l s)
            end
          else (Ok tt, with_io l s)
      | None => (Raise IndexError, with_io l s)
      end
  | None => (Raise IndexError, with_io l s)
  end.
Proof.
  unfold show_display.
  unfold mbind at 1, M_bind at 1, bind at 1, read at 1.
  unfold mbind at 1, M_bind at 1, bind at 1.
  rewrite display_at_with_io.
  destruct (py_index _ a) as [i|]; [|done].
  destruct (_ !! i) as [d|]; [|done].
  destruct (Display.enabled d); [|done].
  cbn [_buffer_width _buffer_height _rotation _buf _brightness with_io].
  match goal with |- context [if ?c then ?w else ?w] =>
    replace (if c then w else w) with w by (by destruct c) end.
  destruct (payload und _ _) as [bytes|e]; [|done].
  run_py. unfold sleep, modify, with_io. simpl. by rewrite <- app_assoc.
Qed.
Lemma for_in_cons {A} (a : A) (l : list A) (body : A → M unit) (s : state) :
  for_in (a :: l) body s =
  match body a s with
  | (Ok _, s') => for_in l body s'
  | (Raise e, s') => (Raise e, s')
  end.
Proof. simpl. run_py. by destruct (body a s) as [[[]|e] s']. Qed.

Lemma scaled_frame_of_payload (s : state) (header : Z) (w : ndarray) (bytes : list Z) :
  shown_window s w → payload und w (_brightness s) = Ok bytes →
  scaled_frame s (header :: bytes).
Proof.
  intros Hw Hp. exists header, w, bytes. split; [done|]. split; [done|].
  by apply (payload_scaled und).
Qed.

(** Whatever the chain holds and however the loop ends, what it has sent
    are frames of windows of displays of the chain. *)
Lemma for_in_show_display_frames (s : state) (addrs : list Z) (l : list event) :
  _addressing_enabled s = true →
  ∃ res evs,
    for_in addrs (show_display und) (with_io l s) = (res, with_io (l ++ evs) s) ∧
    Forall (scaled_frame s) (frames evs).
Proof.
  intros Hmode. revert l. induction addrs as [|a addrs IH]; intros l.
  - exists (Ok tt), []. by rewrite app_nil_r.
  - rewrite for_in_cons, show_display_step.
    destruct (py_index _ a) as [i|];
      [|exists (Raise IndexError), []; by rewrite app_nil_r].
    destruct (_ !! i) as [d|] eqn:Hd;
      [|exists (Raise IndexError), []; by rewrite app_nil_r].
    destruct (Display.enabled d).
    + destruct (payload und _ _) as [bytes|e] eqn:Hp;
        [|exists (Raise e), []; by rewrite app_nil_r].
      destruct (IH (l ++ [Xfer2 (_SOF + 1 + a :: bytes); Sleep])) as (res & evs & -> & Hevs).
      exists res, ([Xfer2 (_SOF + 1 + a :: bytes); Sleep] ++ evs).
      rewrite app_assoc. split; [done|].
      rewrite frames_app. apply Forall_app. split; [|done].
      apply Forall_singleton.
      apply scaled_frame_of_payload
        with (Display.get_buffer_window d (rot90 (_buf s) (_rotation s))); [|done].
      unfold shown_window. rewrite Hmode. exists d. split; [|done].
      by apply list_elem_of_lookup_2 with i.
    + apply IH.
Qed.

(** The two branches of [show]. *)
Lemma show_unfold (s : state) :
  show und s =
  if _addressing_enabled s then
    match for_in (range 8) (show_display und) s with
    | (Ok _, s') => sleep s'
    | (Raise e, s') => (Raise e, s')
    end
  else
    match payload und (rot90 (_buf s) (_rotation s)) (_brightness s) with
    | Ok bytes => (Ok tt, with_io (io s ++ [Xfer2 (_SOF :: bytes); Sleep]) s)
    | Raise e => (Raise e, s)
    end.
Proof.
  unfold show. run_py. destruct (_addressing_enabled s).
  - by destruct (for_in (range 8) (show_display und) s) as [[[]|e] s'].
  - destruct (payload und _ _) as [bytes|e]; [|done].
    unfold xfer2, sleep, modify, with_io. simpl. by rewrite <- app_assoc.
Qed.

(** C1, as the code has it: every frame that a call of [show] sends, in
    either mode and whether or not the call ends in an exception, carries
    for each channel of its window one byte in [0, 255]; with an [int]
    brightness the byte is the product of channel and brightness reduced
    modulo 256, and with a [float] brightness it is the integer part of the
    float product whenever that is in [0, 255].  There is no saturation.
    Outside addressed mode, with the 768 channel values of a 16x16 buffer,
    the call returns and has sent exactly one such frame. *)
Theorem show_scales_without_saturation (s : state) :
  (∃ res evs,
     show und s = (res, with_io (io s ++ evs) s) ∧
     Forall (scaled_frame s) (frames evs)) ∧
  (_addressing_enabled s = false →
   (shape0 (_buf s) * shape1 (_buf s) * 3 = 768)%nat →
   (∀ k, _brightness s = PyInt k → fits_int64 k = true) →
   ∃ bytes,
     show und s = (Ok tt, with_io (io s ++ [Xfer2 (_SOF :: bytes); Sleep]) s) ∧
     Forall2 (scaled_as_numpy (_brightness s)) (ravel (rot90 (_buf s) (_rotation s))) bytes).
Proof.
  assert (s = with_io (io s) s) as Hs by (by destruct s).
  rewrite !show_unfold.
  destruct (_addressing_enabled s) eqn:Hmode.
  - split; [|done].
    destruct (for_in_show_display_frames s (range 8) (io s) Hmode)
      as (res & evs & Hrun & Hevs).
    rewrite <- Hs in Hrun. rewrite Hrun.
    destruct res as [[]|e].
    + exists (Ok tt), (evs ++ [Sleep]). split.
      * unfold sleep, modify, with_io. simpl. by rewrite app_assoc.
      * rewrite frames_app. apply Forall_app. split; [done|]. by apply Forall_nil.
    + by exists (Raise e), evs.
  - destruct (payload und _ _) as [bytes|e] eqn:Hp.
    + split.
      * exists (Ok tt), [Xfer2 (_SOF :: bytes); Sleep]. split; [done|].
        apply Forall_singleton.
        apply scaled_frame_of_payload with (rot90 (_buf s) (_rotation s)); [|done].
        unfold shown_window. by rewrite Hmode.
      * intros _ _ _. exists bytes. split; [done|]. by apply (payload_scaled und).
    + split.
      * exists (Raise e), []. rewrite app_nil_r. split; [by rewrite <- Hs|].
        by apply Forall_nil.
      * intros _ Hshape Hb.
        destruct (payload_total und (rot90 (_buf s) (_rotation s)) (_brightness s))
          as [bytes Hbytes]; [|done|congruence].
        by rewrite rot90_size.
Qed.

Lemma for_in_show_display_enabled (s : state) (ns : list nat) (l : list event) :
  Forall (λ n, n < length (_displays s))%nat ns →
  Forall (λ d, Display.enabled d = true →
               ∃ bytes, payload und (Display.get_buffer_window d (rot90 (_buf s) (_rotation s)))
                          (_brightness s) = Ok bytes) (_displays s) →
  ∃ evs,
    for_in (Z.of_nat <$> ns) (show_display und) (with_io l s) = (Ok tt, with_io (l ++ evs) s) ∧
    Forall2 (panel_frame und s) (filter (λ a, panel_enabled s a = true) ns) (frames evs).
Proof.
  intros Hns Hwin. revert l. induction Hns as [|n ns Hn Hns IH]; intros l.
  - exists []. rewrite app_nil_r. split; [done|]. constructor.
  - rewrite fmap_cons, for_in_cons, show_display_step.
    rewrite py_index_nonneg by lia. rewrite Nat2Z.id.
    destruct (lookup_lt_is_Some_2 (_displays s) n Hn) as [d Hd].
    assert (panel_enabled s n = Display.enabled d) as Hpe
      by (unfold panel_enabled; by rewrite Hd).
    rewrite Hd, filter_cons.
    destruct (Display.enabled d) eqn:Hen.
    + destruct (Forall_lookup_1 _ _ _ _ Hwin Hd Hen) as [bytes Hp].
      rewrite Hp.
      destruct (IH (l ++ [Xfer2 (_SOF + 1 + Z.of_nat n :: bytes); Sleep])) as (evs & -> & Hevs).
      exists ([Xfer2 (_SOF + 1 + Z.of_nat n :: bytes); Sleep] ++ evs).
      rewrite app_assoc. split; [done|].
      rewrite decide_True by done.
      rewrite frames_app. change (frames [Xfer2 (_SOF + 1 + Z.of_nat n :: bytes); Sleep])
        with [_SOF + 1 + Z.of_nat n :: bytes].
      constructor; [|done]. by exists d, bytes.
    + rewrite decide_False by (by rewrite Hpe). apply IH.
Qed.

(** C2, as the code has it: in addressed mode, when the payload of every
    enabled panel can be formed (its window has its 768 values, and the
    brightness is a float or an [int] of 64 bits), one call of [show]
    returns, and the frames it has sent are, in this order, those of the
    enabled panels taken by ascending address from 0 to 7: one frame each,
    none for a disabled panel, the frame of the panel at address [a]
    beginning with the byte [0x72 + 1 + a]. *)
Theorem show_addressed_frames (s : state) :
  _addressing_enabled s = true →
  length (_displays s) = 8%nat →
  Forall (λ d, Display.enabled d = true →
               ∃ bytes, payload und (Display.get_buffer_window d (rot90 (_buf s) (_rotation s)))
                          (_brightness s) = Ok bytes) (_displays s) →
  ∃ evs,
    show und s = (Ok tt, with_io (io s ++ evs) s) ∧
    Forall2 (panel_frame und s) (filter (λ a, panel_enabled s a = true) (seq 0 8)) (frames evs).
Proof.
  intros Hmode Hlen Hwin.
  assert (s = with_io (io s) s) as Hs by (by destruct s).
  destruct (for_in_show_display_enabled s (seq 0 8) (io s)) as (evs & Hrun & Hevs); [|done|].
  { rewrite Hlen. apply Forall_forall. intros n Hn%elem_of_seq. lia. }
  rewrite <- Hs in Hrun.
  exists (evs ++ [Sleep]). split.
  - rewrite show_unfold, Hmode. unfold range. rewrite Hrun.
    unfold sleep, modify, with_io. simpl. by rewrite app_assoc.
  - rewrite frames_app. simpl. by rewrite app_nil_r.
Qed.

End ShowFacts.

Lemma show_addressed_frames_witness :
  ∃ evs,
    show (λ _, 0) two_panels = (Ok tt, with_io (io two_panels ++ evs) two_panels) ∧
    Forall2 (panel_frame (λ _, 0) two_panels)
      (filter (λ a, panel_enabled two_panels a = true) (seq 0 8)) (frames evs).
Proof.
  apply (show_addressed_frames (λ _, 0) two_panels); [reflexivity|reflexivity|].
  change (_displays two_panels) with
    [Display.Build false 0 0 0; Display.Build false 0 0 0; Display.Build true 0 0 0;
     Display.Build false 0 0 0; Display.Build false 0 0 0; Display.Build true 16 0 0;
     Display.Build false 0 0 0; Display.Build false 0 0 0].
  repeat (constructor;
          [intros He; first [discriminate He | eexists; vm_compute; reflexivity]|]).
  constructor.
Defined.

(** C2 as stated fails on the start-up 16x16 buffer in addressed mode with
    the panels at the addresses 0 and 1 set up side by side, the second at
    the offset (16, 0), beyond the edge of the buffer.  Two panels are
    enabled; [show] sends the frame of the panel at address 0 and pauses,
    then raises the [ValueError] of the reshape at address 1, whose window
    is empty: one frame for two enabled panels. *)
Lemma show_sends_one_frame_for_two_panels :
  _addressing_enabled two_panels_off_edge = true ∧
  filter (λ a, panel_enabled two_panels_off_edge a = true) (seq 0 8) = [0; 1]%nat ∧
  show (λ _, 0) two_panels_off_edge =
    (Raise (ValueError "cannot reshape array of size 0 into shape (768,)"),
     with_io [Xfer2 (0x73 :: replicate 768 0); Sleep] two_panels_off_edge) ∧
  frames (io (snd (show (λ _, 0) two_panels_off_edge))) = [0x73 :: replicate 768 0].
Proof. vm_compute. repeat split; reflexivity. Qed.

Lemma show_scales_without_saturation_witness :
  ∃ bytes,
    show (λ _, 0) (one_pixel 2) =
      (Ok tt, with_io (io (one_pixel 2) ++ [Xfer2 (_SOF :: bytes); Sleep]) (one_pixel 2)) ∧
    Forall2 (scaled_as_numpy (_brightness (one_pixel 2)))
      (ravel (rot90 (_buf (one_pixel 2)) (_rotation (one_pixel 2)))) bytes.
Proof.
  apply (proj2 (show_scales_without_saturation (λ _, 0) (one_pixel 2)));
    [reflexivity|reflexivity|].
  intros k [= <-]. reflexivity.
Defined.

(** C1 as stated fails on the start-up buffer with the pixel (0, 0) set to
    (200, 0, 300).  At brightness 2 the first bytes of the payload are 144
    and 88: the products 400 and 600 reduced modulo 256, where saturation
    gives 255.  At brightness 1 the channel 300 is sent as 44. *)
Lemma show_wraps_modulo_256 :
  ∃ bytes2 bytes1,
    (∀ und, io (snd (show und (one_pixel 2))) = [Xfer2 (_SOF :: bytes2); Sleep]) ∧
    (∀ und, io (snd (show und (one_pixel 1))) = [Xfer2 (_SOF :: bytes1); Sleep]) ∧
    take 3 (ravel (rot90 (_buf (one_pixel 2)) (_rotation (one_pixel 2)))) = [200; 0; 300] ∧
    take 3 (ravel (rot90 (_buf (one_pixel 1)) (_rotation (one_pixel 1)))) = [200; 0; 300] ∧
    take 3 bytes2 = [144; 0; 88] ∧
    take 3 bytes1 = [200; 0; 44] ∧
    take 3 bytes2 ≠ saturate <$> [200 * 2; 0 * 2; 300 * 2] ∧
    take 3 bytes1 ≠ saturate <$> [200 * 1; 0 * 1; 300 * 1].
Proof.
  eexists _, _. split; [intros und; vm_compute; reflexivity|].
  split; [intros und; vm_compute; reflexivity|].
  repeat split; discriminate.
Qed.

(** ** Rotations and windows *)

Lemma cell_or_zero_row (m : ndarray) (i j : nat) :
  wf_ndarray m → (i < shape0 m)%nat → (j < shape1 m)%nat →
  ∃ row, cells m !! i = Some row ∧ length row = shape1 m ∧
         row !! j = Some (cell_or_zero m i j).
Proof.
  intros Hwf Hi Hj. destruct (wf_row m i Hwf Hi) as (row & Hrow & Hlen).
  exists row. split; [done|]. split; [done|].
  destruct (lookup_lt_is_Some_2 row j) as [p Hp]; [lia|].
  unfold cell_or_zero, cell. rewrite Hrow. simpl. by rewrite Hp.
Qed.

(** Two arrays of one shape with the same cells are the same array. *)
Lemma ndarray_ext (m1 m2 : ndarray) :
  wf_ndarray m1 → wf_ndarray m2 →
  shape0 m1 = shape0 m2 → shape1 m1 = shape1 m2 →
  (∀ i j, (i < shape0 m1)%nat → (j < shape1 m1)%nat →
          cell_or_zero m1 i j = cell_or_zero m2 i j) →
  m1 = m2.
Proof.
  destruct m1 as [n1 c1 l1], m2 as [n2 c2 l2]. unfold wf_ndarray. simpl.
  intros [Hl1 Hr1] [Hl2 Hr2] <- <- Hcell. f_equal.
  apply (list_eq_same_length _ _ n1); [done|done|].
  intros i r1 r2 Hi H1 H2.
  apply (list_eq_same_length _ _ c1).
  - by apply (Forall_lookup_1 _ _ _ _ Hr2 H2).
  - by apply (Forall_lookup_1 _ _ _ _ Hr1 H1).
  - intros j p1 p2 Hj Hp1 Hp2. specialize (Hcell i j Hi Hj).
    unfold cell_or_zero, cell in Hcell. simpl in Hcell.
    rewrite H1, H2 in Hcell. simpl in Hcell. by rewrite Hp1, Hp2 in Hcell.
Qed.

Lemma wf_tabulate (n c : nat) (f : nat → nat → pixel) : wf_ndarray (tabulate n c f).
Proof.
  split; simpl.
  - by rewrite length_fmap, length_seq.
  - apply Forall_fmap, Forall_forall. intros i _. simpl.
    by rewrite length_fmap, length_seq.
Qed.

Lemma cell_or_zero_tabulate (n c : nat) (f : nat → nat → pixel) (i j : nat) :
  (i < n)%nat → (j < c)%nat → cell_or_zero (tabulate n c f) i j = f i j.
Proof.
  intros Hi Hj. unfold cell_or_zero, cell, tabulate. simpl.
  rewrite list_lookup_fmap, lookup_seq_lt by done. simpl.
  by rewrite list_lookup_fmap, lookup_seq_lt by done.
Qed.

Lemma tabulate_ext (n c : nat) (f g : nat → nat → pixel) :
  (∀ i j, (i < n)%nat → (j < c)%nat → f i j = g i j) →
  tabulate n c f = tabulate n c g.
Proof.
  intros H. apply ndarray_ext; try apply wf_tabulate; try done.
  simpl. intros i j Hi Hj. rewrite !cell_or_zero_tabulate by done. by apply H.
Qed.

Lemma wf_flip0 (m : ndarray) : wf_ndarray m → wf_ndarray (flip0 m).
Proof.
  intros [Hlen Hrows]. split; simpl.
  - by rewrite length_reverse.
  - by apply Forall_reverse.
Qed.

Lemma wf_flip1 (m : ndarray) : wf_ndarray m → wf_ndarray (flip1 m).
Proof.
  intros [Hlen Hrows]. split; simpl.
  - by rewrite length_fmap.
  - apply Forall_fmap. apply (Forall_impl _ _ _ Hrows).
    intros row Hrow. simpl. by rewrite length_reverse.
Qed.

Lemma cell_or_zero_flip0 (m : ndarray) (i j : nat) :
  wf_ndarray m → (i < shape0 m)%nat →
  cell_or_zero (flip0 m) i j = cell_or_zero m (shape0 m - 1 - i) j.
Proof.
  intros [Hlen Hrows] Hi. unfold cell_or_zero, cell, flip0. simpl.
  rewrite reverse_lookup by lia. rewrite Hlen.
  by replace (shape0 m - S i)%nat with (shape0 m - 1 - i)%nat by lia.
Qed.

Lemma cell_or_zero_flip1 (m : ndarray) (i j : nat) :
  wf_ndarray m → (i < shape0 m)%nat → (j < shape1 m)%nat →
  cell_or_zero (flip1 m) i j = cell_or_zero m i (shape1 m - 1 - j).
Proof.
  intros Hwf Hi Hj. destruct (wf_row m i Hwf Hi) as (row & Hrow & Hlen).
  unfold cell_or_zero, cell, flip1. simpl.
  rewrite list_lookup_fmap, Hrow. simpl.
  rewrite reverse_lookup by lia. rewrite Hlen.
  by replace (shape1 m - S j)%nat with (shape1 m - 1 - j)%nat by lia.
Qed.

Lemma wf_transpose (m : ndarray) : wf_ndarray (transpose m).
Proof. apply wf_tabulate. Qed.

Lemma wf_quarter_turn (m : ndarray) : wf_ndarray (quarter_turn m).
Proof. apply wf_tabulate. Qed.

(** numpy's first case: flip the rows, then transpose. *)
Lemma transpose_flip1 (m : ndarray) :
  wf_ndarray m → transpose (flip1 m) = quarter_turn m.
Proof.
  intros Hwf. unfold transpose, quarter_turn. simpl.
  apply tabulate_ext. intros i j Hi Hj. by apply cell_or_zero_flip1.
Qed.

(** Two quarter-turns: numpy's second case. *)
Lemma quarter_turn_twice (m : ndarray) :
  wf_ndarray m → quarter_turn (quarter_turn m) = flip1 (flip0 m).
Proof.
  intros Hwf. apply ndarray_ext.
  - apply wf_quarter_turn.
  - by apply wf_flip1, wf_flip0.
  - done.
  - done.
  - simpl. intros i j Hi Hj.
    unfold quarter_turn at 1. simpl.
    rewrite cell_or_zero_tabulate by done.
    unfold quarter_turn. rewrite cell_or_zero_tabulate by lia.
    rewrite (cell_or_zero_flip1 (flip0 m) i j) by (done || by apply wf_flip0).
    rewrite (cell_or_zero_flip0 m i) by done. simpl.
    f_equal; lia.
Qed.

(** Three quarter-turns: numpy's last case. *)
Lemma quarter_turn_thrice (m : ndarray) :
  wf_ndarray m → quarter_turn (quarter_turn (quarter_turn m)) = flip1 (transpose m).
Proof.
  intros Hwf. rewrite (quarter_turn_twice m) by done. apply ndarray_ext.
  - apply wf_quarter_turn.
  - apply wf_flip1, wf_transpose.
  - done.
  - done.
  - simpl. intros i j Hi Hj.
    unfold quarter_turn at 1. simpl.
    rewrite cell_or_zero_tabulate by done.
    rewrite (cell_or_zero_flip1 (flip0 m) j) by (by apply wf_flip0 || (simpl; lia)).
    rewrite (cell_or_zero_flip0 m j) by done. simpl.
    rewrite (cell_or_zero_flip1 (transpose m) i j) by (apply wf_transpose || done).
    unfold transpose. simpl. rewrite cell_or_zero_tabulate by lia.
    f_equal; lia.
Qed.

(** Four quarter-turns bring the array back. *)
Lemma quarter_turn_four_times (m : ndarray) :
  wf_ndarray m → quarter_turn (quarter_turn (quarter_turn (quarter_turn m))) = m.
Proof.
  intros Hwf. rewrite (quarter_turn_thrice m) by done. apply ndarray_ext.
  - apply wf_quarter_turn.
  - done.
  - done.
  - done.
  - simpl. intros i j Hi Hj.
    unfold quarter_turn. simpl.
    rewrite cell_or_zero_tabulate by done.
    rewrite (cell_or_zero_flip1 (transpose m) j) by (apply wf_transpose || (simpl; lia)).
    unfold transpose. simpl. rewrite cell_or_zero_tabulate by lia.
    f_equal; lia.
Qed.

Lemma wf_quarter_turns (k : nat) (m : ndarray) :
  wf_ndarray m → wf_ndarray (Nat.iter k quarter_turn m).
Proof. intros Hwf. destruct k as [|k]; [done|]. simpl. apply wf_quarter_turn. Qed.

Lemma quarter_turns_period (q r : nat) (m : ndarray) :
  wf_ndarray m → Nat.iter (4 * q + r) quarter_turn m = Nat.iter r quarter_turn m.
Proof.
  intros Hwf. induction q as [|q IH]; [done|].
  replace (4 * S q + r)%nat with (4 + (4 * q + r))%nat by lia.
  rewrite Nat.iter_add, IH. simpl.
  apply quarter_turn_four_times. by apply wf_quarter_turns.
Qed.

Lemma quarter_turns_mod (n : nat) (m : ndarray) :
  wf_ndarray m → Nat.iter n quarter_turn m = Nat.iter (n mod 4) quarter_turn m.
Proof.
  intros Hwf.
  transitivity (Nat.iter (4 * (n / 4) + n mod 4) quarter_turn m).
  - f_equal. apply Nat.div_mod_eq.
  - by apply quarter_turns_period.
Qed.

(** numpy's [rot90] by cases is the quarter-turn taken [k mod 4] times. *)
Lemma rot90_iter (m : ndarray) (k : Z) :
  wf_ndarray m → rot90 m k = Nat.iter (Z.to_nat (k mod 4)) quarter_turn m.
Proof.
  intros Hwf. unfold rot90. simpl.
  pose proof (Z.mod_pos_bound k 4) as Hr.
  destruct (decide (k mod 4 = 0)) as [->|]; [done|].
  destruct (decide (k mod 4 = 1)) as [->|]; [simpl; by rewrite transpose_flip1|].
  destruct (decide (k mod 4 = 2)) as [->|]; [simpl; by rewrite quarter_turn_twice|].
  assert (k mod 4 = 3) as -> by lia.
  simpl. by rewrite quarter_turn_thrice.
Qed.

(** A quarter-turn back is three quarter-turns on. *)
Lemma quarter_turn_back_thrice (m : ndarray) :
  wf_ndarray m → quarter_turn_back m = quarter_turn (quarter_turn (quarter_turn m)).
Proof.
  intros Hwf. rewrite quarter_turn_thrice by done. apply ndarray_ext.
  - apply wf_tabulate.
  - apply wf_flip1, wf_transpose.
  - done.
  - done.
  - simpl. intros i j Hi Hj.
    unfold quarter_turn_back. rewrite cell_or_zero_tabulate by done.
    rewrite (cell_or_zero_flip1 (transpose m) i j) by (apply wf_transpose || done).
    unfold transpose. simpl. by rewrite cell_or_zero_tabulate by lia.
Qed.

Lemma wf_quarter_turns_back (k : nat) (m : ndarray) :
  wf_ndarray m → wf_ndarray (Nat.iter k quarter_turn_back m).
Proof. intros Hwf. destruct k as [|k]; [done|]. simpl. apply wf_tabulate. Qed.

Lemma quarter_turns_back (n : nat) (m : ndarray) :
  wf_ndarray m →
  Nat.iter n quarter_turn_back m = Nat.iter (3 * n) quarter_turn m.
Proof.
  intros Hwf. induction n as [|n IH]; [done|].
  replace (3 * S n)%nat with (3 + 3 * n)%nat by lia.
  rewrite Nat.iter_add, <- IH.
  apply (quarter_turn_back_thrice (Nat.iter n quarter_turn_back m)).
  by apply wf_quarter_turns_back.
Qed.

(** numpy's [rot90] is the rotation by [k] quarter-turns, for every
    integer [k]. *)
Lemma rot90_quarter_turns (m : ndarray) (k : Z) :
  wf_ndarray m → rot90 m k = quarter_turns k m.
Proof.
  intros Hwf. rewrite rot90_iter by done. unfold quarter_turns.
  destruct (0 <=? k) eqn:Hk.
  - apply Z.leb_le in Hk. rewrite (quarter_turns_mod (Z.to_nat k)) by done.
    f_equal. rewrite Z2Nat.inj_mod by lia. done.
  - apply Z.leb_gt in Hk. rewrite quarter_turns_back by done.
    rewrite (quarter_turns_mod (3 * Z.to_nat (- k))) by done.
    f_equal. apply Nat2Z.inj. rewrite Z2Nat.id by (apply Z.mod_pos_bound; lia).
    rewrite Nat2Z.inj_mod, Nat2Z.inj_mul, Z2Nat.id by lia.
    change (Z.of_nat 3) with 3. change (Z.of_nat 4) with 4.
    replace (3 * - k) with (k + (- k) * 4) by lia.
    by rewrite Z.mod_add by lia.
Qed.

Lemma wf_rot90 (m : ndarray) (k : Z) : wf_ndarray m → wf_ndarray (rot90 m k).
Proof.
  intros Hwf. unfold rot90. simpl.
  destruct (k mod 4 =? 0); [done|].
  destruct (k mod 4 =? 2); [by apply wf_flip1, wf_flip0|].
  destruct (k mod 4 =? 1); [apply wf_transpose|apply wf_flip1, wf_transpose].
Qed.

Lemma slice_bounds_inside (n : nat) (start : Z) :
  0 ≤ start → start + 16 ≤ Z.of_nat n →
  slice_bounds n start (start + 16) = (Z.to_nat start, (Z.to_nat start + 16)%nat).
Proof.
  intros H0 H1. unfold slice_bounds. simpl.
  rewrite (proj2 (Z.ltb_ge start 0)), (proj2 (Z.ltb_ge (start + 16) 0)) by lia.
  f_equal; lia.
Qed.

(** A slice that lies inside the array is the sub-grid at its corner. *)
Lemma slice2_sub_grid (m : ndarray) (x y : Z) :
  wf_ndarray m →
  0 ≤ x → x + 16 ≤ Z.of_nat (shape0 m) →
  0 ≤ y → y + 16 ≤ Z.of_nat (shape1 m) →
  slice2 m x (x + 16) y (y + 16) = sub_grid m x y.
Proof.
  intros Hwf Hx0 Hx1 Hy0 Hy1. pose proof Hwf as [Hlen Hrows].
  unfold slice2. rewrite !slice_bounds_inside by done.
  replace (Z.to_nat x + 16 - Z.to_nat x)%nat with 16%nat by lia.
  replace (Z.to_nat y + 16 - Z.to_nat y)%nat with 16%nat by lia.
  apply ndarray_ext; [|apply wf_tabulate|done|done|].
  - split; simpl.
    + rewrite length_fmap, length_take, length_drop. lia.
    + apply Forall_fmap, Forall_forall. intros row Hrow. simpl.
      apply elem_of_take in Hrow as (i & Hrow & _). rewrite lookup_drop in Hrow.
      rewrite length_take, length_drop.
      rewrite (Forall_lookup_1 _ _ _ _ Hrows Hrow). lia.
  - simpl. intros i j Hi Hj.
    unfold sub_grid. rewrite cell_or_zero_tabulate by done.
    unfold cell_or_zero, cell. simpl.
    rewrite list_lookup_fmap, lookup_take_lt, lookup_drop by done.
    destruct (cells m !! (Z.to_nat x + i)%nat) as [row|]; [|done]. simpl.
    by rewrite lookup_take_lt, lookup_drop by done.
Qed.

Lemma slice_bounds_le (n : nat) (start stop : Z) :
  (snd (slice_bounds n start stop) ≤ n)%nat.
Proof.
  unfold slice_bounds. simpl.
  destruct (stop <? 0) eqn:H; [apply Z.ltb_lt in H|apply Z.ltb_ge in H]; lia.
Qed.

Lemma wf_slice2 (m : ndarray) (x0 x1 y0 y1 : Z) :
  wf_ndarray m → wf_ndarray (slice2 m x0 x1 y0 y1).
Proof.
  intros [Hlen Hrows]. unfold slice2.
  pose proof (slice_bounds_le (shape0 m) x0 x1) as H0.
  pose proof (slice_bounds_le (shape1 m) y0 y1) as H1.
  destruct (slice_bounds (shape0 m) x0 x1) as [lo0 hi0].
  destruct (slice_bounds (shape1 m) y0 y1) as [lo1 hi1].
  simpl in *. split; simpl.
  - rewrite length_fmap, length_take, length_drop. lia.
  - apply Forall_fmap, Forall_forall. intros row Hrow. simpl.
    apply elem_of_take in Hrow as (i & Hrow & _). rewrite lookup_drop in Hrow.
    rewrite length_take, length_drop.
    rewrite (Forall_lookup_1 _ _ _ _ Hrows Hrow). lia.
Qed.

Section WindowFacts.
Variable und : spec_float → Z.

(** C3, as the code has it: the window that [show] takes for a panel with
    offset [(x, y)] and rotation step [r] is the whole buffer rotated by
    the global rotation step, then sliced as numpy slices from [(x, y)]
    over 16 rows and 16 columns, then the slice rotated by [r + 1]
    quarter-turns.  When the slice lies inside the rotated buffer it is the
    16x16 sub-grid with its corner at [(x, y)], and the frame of the panel
    is made of that window. *)
Theorem window_is_rotate_slice_rotate (s : state) (d : Display.t) :
  wf_ndarray (_buf s) →
  let rotated := quarter_turns (_rotation s) (_buf s) in
  let x := Display.x d in
  let y := Display.y d in
  Display.get_buffer_window d (rot90 (_buf s) (_rotation s)) =
    quarter_turns (Display.rotation d + 1) (slice2 rotated x (x + 16) y (y + 16)) ∧
  (0 ≤ x → x + 16 ≤ Z.of_nat (shape0 rotated) →
   0 ≤ y → y + 16 ≤ Z.of_nat (shape1 rotated) →
   Display.get_buffer_window d (rot90 (_buf s) (_rotation s)) =
     extract_window (_buf s) (_rotation s) d ∧
   ∀ (a : nat) (bytes : list Z),
     _displays s !! a = Some d → Display.enabled d = true →
     payload und (extract_window (_buf s) (_rotation s) d) (_brightness s) = Ok bytes →
     show_display und (Z.of_nat a) s =
       (Ok tt, with_io (io s ++ [Xfer2 ((_SOF + 1 + Z.of_nat a) :: bytes); Sleep]) s)).
Proof.
  intros Hwf rotated x y.
  assert (wf_ndarray rotated) as Hwfr
    by (unfold rotated; rewrite <- rot90_quarter_turns by done; by apply wf_rot90).
  assert (Display.get_buffer_window d (rot90 (_buf s) (_rotation s)) =
          quarter_turns (Display.rotation d + 1) (slice2 rotated x (x + 16) y (y + 16)))
    as Hwin.
  { unfold Display.get_buffer_window. simpl.
    rewrite (rot90_quarter_turns (_buf s)) by done.
    by rewrite rot90_quarter_turns by (by apply wf_slice2). }
  split; [done|].
  intros Hx0 Hx1 Hy0 Hy1.
  assert (Display.get_buffer_window d (rot90 (_buf s) (_rotation s)) =
          extract_window (_buf s) (_rotation s) d) as Hspec.
  { rewrite Hwin. unfold extract_window. by rewrite slice2_sub_grid. }
  split; [done|].
  intros a bytes Hd Hen Hp.
  assert (s = with_io (io s) s) as Hs by (by destruct s).
  rewrite Hs at 1. rewrite show_display_step.
  rewrite py_index_nonneg by (apply lookup_lt_Some in Hd; lia).
  by rewrite Nat2Z.id, Hd, Hen, Hspec, Hp.
Qed.

End WindowFacts.

Lemma window_is_rotate_slice_rotate_witness :
  let d := Display.Build true 0 16 1 in
  Display.get_buffer_window d (rot90 (_buf turned_panel) (_rotation turned_panel)) =
    extract_window (_buf turned_panel) (_rotation turned_panel) d ∧
  ∀ (a : nat) (bytes : list Z),
    _displays turned_panel !! a = Some d → Display.enabled d = true →
    payload (λ _, 0) (extract_window (_buf turned_panel) (_rotation turned_panel) d)
      (_brightness turned_panel) = Ok bytes →
    show_display (λ _, 0) (Z.of_nat a) turned_panel =
      (Ok tt, with_io (io turned_panel ++ [Xfer2 ((_SOF + 1 + Z.of_nat a) :: bytes); Sleep])
                turned_panel).
Proof.
  assert (wf_ndarray (_buf turned_panel)) as Hwf
    by (split; [reflexivity|vm_compute; repeat constructor]).
  apply (proj2 (window_is_rotate_slice_rotate (λ _, 0) turned_panel
                  (Display.Build true 0 16 1) Hwf));
    vm_compute; congruence.
Defined.

(** C3 as stated fails for a panel whose offset is not that of a 16x16
    sub-grid of the buffer.  At the offset (8, 0) on the start-up 16x16
    buffer the slice has the 8 rows that are left, and the window, turned,
    is 16 by 8: 128 pixels.  At the offset (-20, 0) on a 32x16 buffer with
    the pixel (12, 0) lit, the slice counts from the far edge and starts at
    row 12: the lit pixel is the first of the slice and arrives at (15, 0)
    of the window, where the sub-grid has (0, 0, 0). *)
Lemma window_off_the_grid_is_not_the_sub_grid :
  Display.get_buffer_window (Display.Build true 8 0 0)
    (rot90 (_buf initial) (_rotation initial)) ≠
  extract_window (_buf initial) (_rotation initial) (Display.Build true 8 0 0) ∧
  shape0 (Display.get_buffer_window (Display.Build true 8 0 0)
            (rot90 (_buf initial) (_rotation initial))) = 16%nat ∧
  shape1 (Display.get_buffer_window (Display.Build true 8 0 0)
            (rot90 (_buf initial) (_rotation initial))) = 8%nat ∧
  cell_or_zero
    (Display.get_buffer_window (Display.Build true (-20) 0 0)
       (rot90 (store (zeros 32 16) 12 0 (1, 2, 3)) 0)) 15 0 = (1, 2, 3) ∧
  cell_or_zero
    (extract_window (store (zeros 32 16) 12 0 (1, 2, 3)) 0
       (Display.Build true (-20) 0 0)) 15 0 = (0, 0, 0).
Proof.
  split.
  - intros H. apply (f_equal shape1) in H. vm_compute in H. discriminate H.
  - vm_compute. repeat split; reflexivity.
Qed.

(** ** Windows that lie inside the buffer *)

Lemma window_size (d : Display.t) (source : ndarray) :
  0 ≤ Display.x d → Display.x d + 16 ≤ Z.of_nat (shape0 source) →
  0 ≤ Display.y d → Display.y d + 16 ≤ Z.of_nat (shape1 source) →
  let w := Display.get_buffer_window d source in
  (shape0 w * shape1 w * 3 = 768)%nat.
Proof.
  intros Hx0 Hx1 Hy0 Hy1. unfold Display.get_buffer_window. simpl.
  rewrite rot90_size. unfold slice2. rewrite !slice_bounds_inside by done.
  simpl. lia.
Qed.

(** A panel whose 16x16 window lies inside the rotated buffer has its
    payload, for a [float] brightness or an [int] one that fits 64 bits. *)
Lemma payload_window_inside (und : spec_float → Z) (s : state) (d : Display.t) :
  0 ≤ Display.x d →
  Display.x d + 16 ≤ Z.of_nat (shape0 (rot90 (_buf s) (_rotation s))) →
  0 ≤ Display.y d →
  Display.y d + 16 ≤ Z.of_nat (shape1 (rot90 (_buf s) (_rotation s))) →
  (∀ k, _brightness s = PyInt k → fits_int64 k = true) →
  ∃ bytes,
    payload und (Display.get_buffer_window d (rot90 (_buf s) (_rotation s)))
      (_brightness s) = Ok bytes.
Proof.
  intros Hx0 Hx1 Hy0 Hy1 Hb. apply payload_total; [|done].
  by apply window_size.
Qed.

(** At the start-up brightness 0.5 every channel from 0 to 255 is halved,
    the half dropped: the float path truncates toward zero. *)
Lemma half_brightness_truncates (und : spec_float → Z) (c : Z) :
  0 ≤ c ≤ 255 → scaled_byte und (_brightness initial) c = c / 2.
Proof.
  intros Hc.
  assert (forallb (λ c, scaled_byte und (_brightness initial) c =? c / 2) (seqZ 0 256) = true)
    as Hall by (vm_compute; reflexivity).
  rewrite forallb_forall in Hall. apply Z.eqb_eq, Hall, list_elem_of_In, elem_of_seqZ. lia.
Qed.

(** A cleared 16x16 buffer at the start-up brightness: one frame of 769
    bytes, the header [0x72] and 768 zeros. *)
Example show_cleared_buffer (und : spec_float → Z) :
  snd ((clear;; show und) initial) =
  with_io [Xfer2 (0x72 :: replicate 768 0); Sleep] initial.
Proof. vm_compute. reflexivity. Qed.

(** ** Invariants of the globals *)

Lemma set_pixel_buffer_invariant (x y : Z) (c : color) (s s' : state) :
  buffer_invariant s → set_pixel x y c s = (Ok tt, s') → buffer_invariant s'.
Proof.
  intros (Hwf & Hw & Hh). unfold set_pixel. run_py.
  destruct (resolve_color c s) as [[p|e] s0] eqn:Hc; [|done].
  apply resolve_color_state in Hc as ->.
  destruct (py_index _ x) as [i|]; [|done].
  destruct (py_index _ y) as [j|]; [|done].
  destruct (fits_cell p); [|done].
  intros [= <-]. split; [by apply wf_store|done].
Qed.

Lemma setup_buffer_invariant (width height : Z) (s : state) :
  0 ≤ width → 0 ≤ height →
  ∃ s', setup_buffer width height s = (Ok tt, s') ∧ buffer_invariant s' ∧
        shape0 (_buf s') = Z.to_nat width ∧ shape1 (_buf s') = Z.to_nat height.
Proof.
  intros Hw Hh. unfold setup_buffer. run_py.
  rewrite (proj2 (Z.ltb_ge width 0)), (proj2 (Z.ltb_ge height 0)) by done. simpl.
  eexists. split; [done|]. split; [|done].
  split; [apply wf_zeros|]. simpl. lia.
Qed.

(** A refused resize has already overwritten the two recorded dimensions,
    and the buffer keeps its old shape. *)
Lemma setup_buffer_negative (width height : Z) (s : state) :
  width < 0 ∨ height < 0 →
  setup_buffer width height s =
  (Raise (ValueError "negative dimensions are not allowed"),
   with_buffer_shape width height s).
Proof.
  intros H. unfold setup_buffer. run_py.
  destruct (width <? 0) eqn:Hw; [done|]. destruct (height <? 0) eqn:Hh; [done|].
  apply Z.ltb_ge in Hw, Hh. lia.
Qed.

Lemma enable_display_length (address : Z) (enabled : bool) (s s' : state) (r : result unit) :
  enable_display address enabled s = (r, s') →
  length (_displays s') = length (_displays s).
Proof.
  unfold enable_display. run_py.
  destruct (display_at address s) as [[[i d]|e] s0] eqn:Hd.
  - apply display_at_length in Hd as Hlen. intros [= _ <-]. simpl.
    by rewrite length_insert, Hlen.
  - unfold display_at in Hd. run_py.
    destruct (py_index _ _); [destruct (_ !! _)|]; congruence.
Qed.

Lemma setup_display_length (address x y rotation : Z) (s s' : state) (r : result unit) :
  setup_display address x y rotation s = (r, s') →
  length (_displays s') = length (_displays s).
Proof.
  rewrite setup_display_unfold.
  destruct (display_at address s) as [[[i d]|e] s0] eqn:Hd.
  - apply display_at_length in Hd as Hlen. intros H%enable_display_length.
    simpl in H. by rewrite H, length_insert, Hlen.
  - unfold display_at in Hd. run_py.
    destruct (py_index _ _); [destruct (_ !! _)|]; congruence.
Qed.

(** * Further properties *)

(** ** Colours *)

Lemma resolve_color_pixel (c : color) (s : state) :
  resolve_color c s =
  match color_pixel c with
  | Some p => (Ok p, s)
  | None => (Raise (ValueError "Invalid color!"), s)
  end.
Proof.
  destruct c as [r g b|name|r g b]; unfold resolve_color, color_pixel; try done.
  by destruct (COLORS !! lower name).
Qed.

Lemma resolve_color_valid (c : color) (p : pixel) (s : state) :
  valid_color c p → resolve_color c s = (Ok p, s).
Proof. intros [Hc _]. by rewrite resolve_color_pixel, Hc. Qed.

Lemma lower_ascii_idemp (a : ascii) : lower_ascii (lower_ascii a) = lower_ascii a.
Proof.
  assert (∀ n, (n < 256)%nat →
    lower_ascii (lower_ascii (ascii_of_nat n)) = lower_ascii (ascii_of_nat n)) as H.
  { intros n Hn. do 256 (destruct n as [|n]; [reflexivity|]). lia. }
  rewrite <- (ascii_nat_embedding a). apply H, nat_ascii_bounded.
Qed.

Lemma lower_idemp (name : string) : lower (lower name) = lower name.
Proof.
  induction name as [|a name IH]; [done|]. simpl. by rewrite lower_ascii_idemp, IH.
Qed.

Lemma COLORS_bytes (name : string) (p : pixel) :
  COLORS !! name = Some p → byte_pixel p = true.
Proof.
  assert (map_Forall (λ _ p, byte_pixel p = true) COLORS) as H.
  { apply map_Forall_to_list. vm_compute. repeat constructor. }
  apply H.
Qed.

Lemma byte_pixel_fits (p : pixel) : byte_pixel p = true → fits_cell p = true.
Proof.
  destruct p as [[r g] b]. unfold byte_pixel. rewrite !andb_true_iff.
  intros [[[[[??]?]?]?]?]. apply fits_cell_bytes; lia.
Qed.

(** X1: a colour name is looked up without regard to case, and a name of
    the table always stands for three bytes: with such a name [set_all]
    and, at coordinates of the buffer, [set_pixel] return. *)
Theorem color_names_ignore_case (name : string) (x y : Z) (s : state) :
  set_all (ColorName name) s = set_all (ColorName (lower name)) s ∧
  set_pixel x y (ColorName name) s = set_pixel x y (ColorName (lower name)) s ∧
  ∀ p, COLORS !! lower name = Some p →
    byte_pixel p = true ∧
    set_all (ColorName name) s = (Ok tt, with_buf (fill (_buf s) p) s) ∧
    (∀ i j, py_index (shape0 (_buf s)) x = Some i → py_index (shape1 (_buf s)) y = Some j →
       set_pixel x y (ColorName name) s = (Ok tt, with_buf (store (_buf s) i j p) s)).
Proof.
  split; [|split].
  - unfold set_all, resolve_color. by rewrite lower_idemp.
  - unfold set_pixel, resolve_color. by rewrite lower_idemp.
  - intros p Hp. pose proof (COLORS_bytes _ _ Hp) as Hb.
    pose proof (byte_pixel_fits _ Hb) as Hfit.
    assert (valid_color (ColorName name) p) as Hv by done.
    split; [done|]. split.
    + unfold set_all. rewrite (bind_ok _ _ _ _ _ (resolve_color_valid _ _ s Hv)).
      by rewrite Hfit.
    + intros i j Hi Hj.
      rewrite (set_pixel_unfold x y _ p s (resolve_color_valid _ _ s Hv)).
      by rewrite Hi, Hj, Hfit.
Qed.

Lemma color_names_ignore_case_witness :
  byte_pixel (255, 165, 0) = true ∧
  set_all (ColorName "OrAnGe") initial =
    (Ok tt, with_buf (fill (_buf initial) (255, 165, 0)) initial) ∧
  (∀ i j, py_index (shape0 (_buf initial)) 3 = Some i →
          py_index (shape1 (_buf initial)) (-1) = Some j →
     set_pixel 3 (-1) (ColorName "OrAnGe") initial =
       (Ok tt, with_buf (store (_buf initial) i j (255, 165, 0)) initial)).
Proof.
  apply (proj2 (proj2 (color_names_ignore_case "OrAnGe" 3 (-1) initial))).
  vm_compute. reflexivity.
Defined.

(** ** The buffer as a whole *)

Lemma cell_or_zero_zeros (w h i j : nat) : cell_or_zero (zeros w h) i j = (0, 0, 0).
Proof.
  unfold cell_or_zero. destruct (cell (zeros w h) i j) as [p|] eqn:H; [|done].
  unfold cell, zeros in H. simpl in H.
  apply bind_Some in H as (row & Hrow & Hp).
  apply lookup_replicate_1 in Hrow as [-> _].
  by apply lookup_replicate_1 in Hp as [-> _].
Qed.

Lemma wf_fill (m : ndarray) (p : pixel) : wf_ndarray m → wf_ndarray (fill m p).
Proof.
  intros [Hlen Hrows]. split; simpl.
  - by rewrite length_fmap.
  - apply Forall_fmap. apply (Forall_impl _ _ _ Hrows).
    intros row Hrow. simpl. by rewrite length_fmap.
Qed.

Lemma cell_fill (m : ndarray) (p q : pixel) (i j : nat) :
  cell (fill m p) i j = Some q → q = p.
Proof.
  unfold cell, fill. simpl. rewrite list_lookup_fmap.
  destruct (cells m !! i) as [row|]; [|done]. simpl. rewrite list_lookup_fmap.
  destruct (row !! j); [|done]. simpl. congruence.
Qed.

Lemma cell_or_zero_fill (m : ndarray) (p : pixel) (i j : nat) :
  wf_ndarray m → (i < shape0 m)%nat → (j < shape1 m)%nat →
  cell_or_zero (fill m p) i j = p.
Proof.
  intros Hwf Hi Hj.
  destruct (wf_cell (fill m p) i j (wf_fill m p Hwf) Hi Hj) as [q Hq].
  unfold cell_or_zero. rewrite Hq. simpl. by apply cell_fill in Hq.
Qed.

Lemma cell_or_zero_store (m : ndarray) (i j i' j' : nat) (p : pixel) :
  wf_ndarray m → (i < shape0 m)%nat → (j < shape1 m)%nat →
  cell_or_zero (store m i j p) i' j' =
  if decide (i = i' ∧ j = j') then p else cell_or_zero m i' j'.
Proof.
  intros Hwf Hi Hj. unfold cell_or_zero. case_decide as H.
  - destruct H as [<- <-]. by rewrite cell_store_eq.
  - rewrite cell_store_ne; [done|]. intros [= ??]. by apply H.
Qed.

Lemma get_pixel_inside (x y : Z) (s : state) :
  0 ≤ x < Z.of_nat (shape0 (_buf s)) → 0 ≤ y < Z.of_nat (shape1 (_buf s)) →
  get_pixel x y s = (Ok (pixel_at (_buf s) x y), s).
Proof.
  intros Hx Hy. rewrite get_pixel_unfold. by rewrite !py_index_nonneg by done.
Qed.

(** X2: [setup_buffer] with dimensions from 0 returns; the buffer then has
    that shape, [get_shape] reports it, every pixel reads (0, 0, 0), and
    nothing else has changed: the rotation, the brightness, the chain and
    what was sent stay. *)
Theorem setup_buffer_zero_filled (width height : Z) (s : state) :
  0 ≤ width → 0 ≤ height →
  ∃ s', setup_buffer width height s = (Ok tt, s') ∧
        s' = with_buf (_buf s') (with_buffer_shape width height s) ∧
        buffer_invariant s' ∧
        get_shape s' = (Ok (width, height), s') ∧
        ∀ x y, 0 ≤ x < width → 0 ≤ y < height →
               get_pixel x y s' = (Ok (0, 0, 0), s').
Proof.
  intros Hw Hh.
  destruct (setup_buffer_invariant width height s Hw Hh) as (s' & Hrun & Hinv & H0 & H1).
  exists s'. split; [done|].
  assert (s' = with_buf (zeros (Z.to_nat width) (Z.to_nat height))
                 (with_buffer_shape width height s)) as Hs'.
  { revert Hrun. unfold setup_buffer. run_py.
    rewrite (proj2 (Z.ltb_ge width 0)), (proj2 (Z.ltb_ge height 0)) by done. simpl.
    by intros [= <-]. }
  split; [by rewrite Hs' at 1; rewrite Hs'|]. split; [done|]. split.
  - rewrite Hs'. unfold get_shape. by run_py.
  - intros x y Hx Hy. rewrite get_pixel_inside by lia.
    unfold pixel_at. rewrite Hs' at 1. simpl. by rewrite cell_or_zero_zeros.
Qed.

Lemma setup_buffer_zero_filled_witness :
  ∃ s', setup_buffer 32 16 initial = (Ok tt, s') ∧
        s' = with_buf (_buf s') (with_buffer_shape 32 16 initial) ∧
        buffer_invariant s' ∧
        get_shape s' = (Ok (32, 16), s') ∧
        ∀ x y, 0 ≤ x < 32 → 0 ≤ y < 16 →
               get_pixel x y s' = (Ok (0, 0, 0), s').
Proof. apply (setup_buffer_zero_filled 32 16 initial); discriminate. Defined.

(** X3: [setup_buffer] with a negative dimension raises [ValueError]
    after it has recorded the two dimensions: the buffer is the old one,
    and [get_shape] reports a shape that the buffer does not have. *)
Theorem setup_buffer_refused_keeps_buffer (width height : Z) (s : state) :
  width < 0 ∨ height < 0 →
  ∃ s', setup_buffer width height s =
          (Raise (ValueError "negative dimensions are not allowed"), s') ∧
        _buf s' = _buf s ∧
        get_shape s' = (Ok (width, height), s') ∧
        ¬ buffer_invariant s'.
Proof.
  intros H. rewrite setup_buffer_negative by done.
  eexists. split; [done|]. split; [done|]. split; [done|].
  intros (_ & Hw & Hh). simpl in Hw, Hh. lia.
Qed.

Lemma setup_buffer_refused_keeps_buffer_witness :
  ∃ s', setup_buffer 32 (-16) initial =
          (Raise (ValueError "negative dimensions are not allowed"), s') ∧
        _buf s' = _buf initial ∧
        get_shape s' = (Ok (32, -16), s') ∧
        ¬ buffer_invariant s'.
Proof. apply (setup_buffer_refused_keeps_buffer 32 (-16) initial). right. reflexivity. Defined.

(** X4: [set_all] with a colour that stands for a pixel the cells can hold
    returns; the shape of the buffer stays, every pixel then reads that
    colour, at coordinates counted from either edge, and nothing but the
    buffer has changed. *)
Theorem set_all_fills (c : color) (p : pixel) (s : state) :
  valid_color c p → wf_ndarray (_buf s) →
  ∃ b, set_all c s = (Ok tt, with_buf b s) ∧
       wf_ndarray b ∧ shape0 b = shape0 (_buf s) ∧ shape1 b = shape1 (_buf s) ∧
       ∀ x y, - Z.of_nat (shape0 b) ≤ x < Z.of_nat (shape0 b) →
              - Z.of_nat (shape1 b) ≤ y < Z.of_nat (shape1 b) →
              get_pixel x y (with_buf b s) = (Ok p, with_buf b s).
Proof.
  intros Hv Hwf. exists (fill (_buf s) p). split.
  - unfold set_all. rewrite (bind_ok _ _ _ _ _ (resolve_color_valid _ _ s Hv)).
    by rewrite (proj2 Hv).
  - split; [by apply wf_fill|]. split; [done|]. split; [done|].
    intros x y Hx Hy. rewrite get_pixel_unfold. simpl in *.
    destruct (py_index (shape0 (_buf s)) x) as [i|] eqn:Hi;
      [|apply py_index_None in Hi; lia].
    destruct (py_index (shape1 (_buf s)) y) as [j|] eqn:Hj;
      [|apply py_index_None in Hj; lia].
    apply py_index_lt in Hi, Hj. by rewrite cell_or_zero_fill.
Qed.

Lemma set_all_fills_witness :
  ∃ b, set_all (ColorName "teal") initial = (Ok tt, with_buf b initial) ∧
       wf_ndarray b ∧ shape0 b = shape0 (_buf initial) ∧ shape1 b = shape1 (_buf initial) ∧
       ∀ x y, - Z.of_nat (shape0 b) ≤ x < Z.of_nat (shape0 b) →
              - Z.of_nat (shape1 b) ≤ y < Z.of_nat (shape1 b) →
              get_pixel x y (with_buf b initial) = (Ok (0, 128, 128), with_buf b initial).
Proof.
  apply (set_all_fills (ColorName "teal") (0, 128, 128) initial).
  - split; reflexivity.
  - apply wf_zeros.
Defined.

(** X5: a [set_pixel] that returns changes one cell of the buffer and
    nothing else: [get_pixel] at coordinates that address another cell
    returns what it returned before, and the shape, the chain and the
    settings stay. *)
Theorem set_pixel_leaves_other_pixels (x y x' y' : Z) (c : color) (s s' : state) :
  wf_ndarray (_buf s) →
  set_pixel x y c s = (Ok tt, s') →
  s' = with_buf (_buf s') s ∧
  shape0 (_buf s') = shape0 (_buf s) ∧ shape1 (_buf s') = shape1 (_buf s) ∧
  (py_index (shape0 (_buf s)) x ≠ py_index (shape0 (_buf s)) x' ∨
   py_index (shape1 (_buf s)) y ≠ py_index (shape1 (_buf s)) y' →
   fst (get_pixel x' y' s') = fst (get_pixel x' y' s)).
Proof.
  intros Hwf. unfold set_pixel. run_py.
  destruct (resolve_color c s) as [[p|e] s0] eqn:Hc; [|done].
  apply resolve_color_state in Hc as ->.
  destruct (py_index _ x) as [i|] eqn:Hi; [|done].
  destruct (py_index _ y) as [j|] eqn:Hj; [|done].
  destruct (fits_cell p); [|done].
  intros [= <-]. split; [done|]. split; [done|]. split; [done|].
  intros Hne. rewrite !get_pixel_unfold. simpl.
  destruct (py_index _ x') as [i'|] eqn:Hi'; [|done].
  destruct (py_index _ y') as [j'|] eqn:Hj'; [|done].
  simpl. f_equal. apply py_index_lt in Hi as Hilt. apply py_index_lt in Hj as Hjlt.
  rewrite cell_or_zero_store by done.
  rewrite decide_False; [done|]. intros [-> ->]. by destruct Hne.
Qed.

Lemma set_pixel_leaves_other_pixels_witness :
  ∃ s', set_pixel (-1) 2 (ColorName "red") initial = (Ok tt, s') ∧
        fst (get_pixel 14 2 s') = fst (get_pixel 14 2 initial).
Proof.
  eexists. split; [reflexivity|].
  apply (set_pixel_leaves_other_pixels (-1) 2 14 2 (ColorName "red") initial _
           (wf_zeros 16 16) eq_refl).
  left. vm_compute. discriminate.
Defined.

(** ** Scrolling *)

Lemma roll_list_length {A} (n : nat) (d : Z) (l : list A) :
  length l = n → length (roll_list n d l) = n.
Proof.
  intros Hl. unfold roll_list.
  destruct (Z.to_nat _) as [|o]; [done|].
  rewrite length_app, length_drop, length_take. lia.
Qed.

Lemma roll_list_lookup {A} (n : nat) (d : Z) (l : list A) (i : nat) :
  length l = n → (i < n)%nat →
  roll_list n d l !! i = l !! Z.to_nat ((Z.of_nat i - d) mod Z.of_nat n).
Proof.
  intros Hl Hi. unfold roll_list. destruct n as [|n']; [lia|].
  set (n := S n') in *.
  pose proof (Z.mod_pos_bound d (Z.of_nat n) ltac:(lia)) as Ho.
  rewrite <- (Zminus_mod_idemp_r (Z.of_nat i) d).
  destruct (Z.to_nat (d mod Z.of_nat n)) as [|o'] eqn:Hoff.
  - assert (d mod Z.of_nat n = 0) as -> by lia.
    rewrite Z.sub_0_r, Z.mod_small by lia. by rewrite Nat2Z.id.
  - set (o := S o') in *. assert (d mod Z.of_nat n = Z.of_nat o) as -> by lia.
    destruct (decide (i < o)%nat) as [Hlt|Hge].
    + rewrite lookup_app_l by (rewrite length_drop; lia).
      rewrite lookup_drop. f_equal.
      rewrite <- (Z.mod_unique_pos (Z.of_nat i - Z.of_nat o) (Z.of_nat n) (-1)
                    (Z.of_nat i - Z.of_nat o + Z.of_nat n)) by lia.
      lia.
    + rewrite lookup_app_r by (rewrite length_drop; lia).
      rewrite length_drop, lookup_take_lt by lia. f_equal.
      rewrite Z.mod_small by lia. lia.
Qed.

Lemma wf_roll0 (m : ndarray) (d : Z) : wf_ndarray m → wf_ndarray (roll0 m d).
Proof.
  intros [Hlen Hrows]. split; simpl.
  - by apply roll_list_length.
  - apply Forall_lookup. intros i row Hrow.
    assert (i < shape0 m)%nat as Hi
      by (apply lookup_lt_Some in Hrow; by rewrite roll_list_length in Hrow).
    rewrite roll_list_lookup in Hrow by done.
    by apply (Forall_lookup_1 _ _ _ _ Hrows Hrow).
Qed.

Lemma wf_roll1 (m : ndarray) (d : Z) : wf_ndarray m → wf_ndarray (roll1 m d).
Proof.
  intros [Hlen Hrows]. split; simpl.
  - by rewrite length_fmap.
  - apply Forall_fmap. apply (Forall_impl _ _ _ Hrows).
    intros row Hrow. simpl. by apply roll_list_length.
Qed.

(** The index that a roll by [d] brings to the index [i] of an axis of
    length [n]. *)
Lemma rolled_index_lt (n i : nat) (d : Z) :
  (i < n)%nat → (Z.to_nat ((Z.of_nat i - d) mod Z.of_nat n) < n)%nat.
Proof. intros Hi. pose proof (Z.mod_pos_bound (Z.of_nat i - d) (Z.of_nat n)). lia. Qed.

Lemma cell_or_zero_roll0 (m : ndarray) (d : Z) (i j : nat) :
  wf_ndarray m → (i < shape0 m)%nat →
  cell_or_zero (roll0 m d) i j =
  cell_or_zero m (Z.to_nat ((Z.of_nat i - d) mod Z.of_nat (shape0 m))) j.
Proof.
  intros [Hlen Hrows] Hi. unfold cell_or_zero, cell, roll0. simpl.
  by rewrite roll_list_lookup.
Qed.

Lemma cell_or_zero_roll1 (m : ndarray) (d : Z) (i j : nat) :
  wf_ndarray m → (i < shape0 m)%nat → (j < shape1 m)%nat →
  cell_or_zero (roll1 m d) i j =
  cell_or_zero m i (Z.to_nat ((Z.of_nat j - d) mod Z.of_nat (shape1 m))).
Proof.
  intros Hwf Hi Hj. destruct (wf_row m i Hwf Hi) as (row & Hrow & Hlen).
  unfold cell_or_zero, cell, roll1. simpl.
  rewrite list_lookup_fmap, Hrow. simpl. by rewrite roll_list_lookup.
Qed.

Lemma roll_list_zero {A} (n : nat) (l : list A) : roll_list n 0 l = l.
Proof. unfold roll_list. by rewrite Z.mod_0_l by (destruct n; lia). Qed.

Lemma roll0_zero (m : ndarray) : roll0 m 0 = m.
Proof. destruct m as [n c l]. unfold roll0. simpl. by rewrite roll_list_zero. Qed.

Lemma roll1_zero (m : ndarray) : roll1 m 0 = m.
Proof.
  destruct m as [n c l]. unfold roll1. simpl. f_equal.
  induction l as [|row l IH]; [done|]. csimpl. by rewrite roll_list_zero, IH.
Qed.

Lemma rolled_index_add (n : Z) (i a b : Z) :
  0 < n → ((i - b) mod n - a) mod n = (i - (a + b)) mod n.
Proof.
  intros Hn. rewrite Zminus_mod_idemp_l. f_equal. lia.
Qed.

Lemma roll0_roll0 (m : ndarray) (a b : Z) :
  wf_ndarray m → roll0 (roll0 m a) b = roll0 m (a + b).
Proof.
  intros Hwf. apply ndarray_ext; try done; try (by repeat apply wf_roll0).
  simpl. intros i j Hi Hj.
  rewrite (cell_or_zero_roll0 (roll0 m a)) by (done || by apply wf_roll0).
  simpl. rewrite !cell_or_zero_roll0 by (done || by apply rolled_index_lt).
  f_equal. rewrite Z2Nat.id by (apply Z.mod_pos_bound; lia).
  by rewrite rolled_index_add by lia.
Qed.

Lemma roll1_roll1 (m : ndarray) (a b : Z) :
  wf_ndarray m → roll1 (roll1 m a) b = roll1 m (a + b).
Proof.
  intros Hwf. apply ndarray_ext; try done; try (by repeat apply wf_roll1).
  simpl. intros i j Hi Hj.
  rewrite (cell_or_zero_roll1 (roll1 m a)) by (done || by apply wf_roll1).
  simpl. rewrite !cell_or_zero_roll1 by (done || by apply rolled_index_lt).
  f_equal. rewrite Z2Nat.id by (apply Z.mod_pos_bound; lia).
  by rewrite rolled_index_add by lia.
Qed.

Lemma roll0_roll1 (m : ndarray) (a b : Z) :
  wf_ndarray m → roll0 (roll1 m a) b = roll1 (roll0 m b) a.
Proof.
  intros Hwf. apply ndarray_ext; try done.
  - by apply wf_roll0, wf_roll1.
  - by apply wf_roll1, wf_roll0.
  - simpl. intros i j Hi Hj.
    rewrite (cell_or_zero_roll0 (roll1 m a)) by (done || by apply wf_roll1).
    rewrite (cell_or_zero_roll1 (roll0 m b)) by (done || by apply wf_roll0).
    simpl. rewrite cell_or_zero_roll0 by done.
    by rewrite cell_or_zero_roll1 by (done || by apply rolled_index_lt).
Qed.

Lemma with_buf_with_buf (b b' : ndarray) (s : state) :
  with_buf b (with_buf b' s) = with_buf b s.
Proof. done. Qed.

Lemma with_buf_same (s : state) : with_buf (_buf s) s = s.
Proof. by destruct s. Qed.

(** X6: [hscroll(dx)] moves the pixel at [(x, y)] to [(x, (y + dx) mod
    height)]: it is the second coordinate that turns, the one that
    [set_pixel] calls vertical.  The shape of the buffer stays and nothing
    but the buffer changes. *)
Theorem hscroll_moves_pixels (dx : Z) (s : state) :
  wf_ndarray (_buf s) →
  ∃ b, hscroll dx s = (Ok tt, with_buf b s) ∧
       wf_ndarray b ∧ shape0 b = shape0 (_buf s) ∧ shape1 b = shape1 (_buf s) ∧
       ∀ x y, 0 ≤ x < Z.of_nat (shape0 (_buf s)) → 0 ≤ y < Z.of_nat (shape1 (_buf s)) →
              get_pixel x ((y + dx) mod Z.of_nat (shape1 (_buf s))) (with_buf b s) =
              (Ok (pixel_at (_buf s) x y), with_buf b s).
Proof.
  intros Hwf. exists (roll1 (_buf s) dx). split; [done|].
  split; [by apply wf_roll1|]. split; [done|]. split; [done|].
  intros x y Hx Hy.
  pose proof (Z.mod_pos_bound (y + dx) (Z.of_nat (shape1 (_buf s))) ltac:(lia)) as Hm.
  rewrite get_pixel_inside by (simpl; lia). unfold pixel_at. simpl.
  rewrite cell_or_zero_roll1 by (done || lia).
  rewrite Z2Nat.id by lia. rewrite Zminus_mod_idemp_l.
  replace (y + dx - dx) with y by lia. by rewrite Z.mod_small by lia.
Qed.

Lemma hscroll_moves_pixels_witness :
  ∃ b, hscroll 3 turned_panel = (Ok tt, with_buf b turned_panel) ∧
       wf_ndarray b ∧ shape0 b = shape0 (_buf turned_panel) ∧
       shape1 b = shape1 (_buf turned_panel) ∧
       ∀ x y, 0 ≤ x < Z.of_nat (shape0 (_buf turned_panel)) →
              0 ≤ y < Z.of_nat (shape1 (_buf turned_panel)) →
              get_pixel x ((y + 3) mod Z.of_nat (shape1 (_buf turned_panel)))
                (with_buf b turned_panel) =
              (Ok (pixel_at (_buf turned_panel) x y), with_buf b turned_panel).
Proof.
  apply (hscroll_moves_pixels 3 turned_panel).
  split; [reflexivity|vm_compute; repeat constructor].
Defined.

(** X7: [vscroll(dy)] moves the pixel at [(x, y)] to [((x + dy) mod
    width, y)]: it is the first coordinate that turns.  The shape of the
    buffer stays and nothing but the buffer changes. *)
Theorem vscroll_moves_pixels (dy : Z) (s : state) :
  wf_ndarray (_buf s) →
  ∃ b, vscroll dy s = (Ok tt, with_buf b s) ∧
       wf_ndarray b ∧ shape0 b = shape0 (_buf s) ∧ shape1 b = shape1 (_buf s) ∧
       ∀ x y, 0 ≤ x < Z.of_nat (shape0 (_buf s)) → 0 ≤ y < Z.of_nat (shape1 (_buf s)) →
              get_pixel ((x + dy) mod Z.of_nat (shape0 (_buf s))) y (with_buf b s) =
              (Ok (pixel_at (_buf s) x y), with_buf b s).
Proof.
  intros Hwf. exists (roll0 (_buf s) dy). split; [done|].
  split; [by apply wf_roll0|]. split; [done|]. split; [done|].
  intros x y Hx Hy.
  pose proof (Z.mod_pos_bound (x + dy) (Z.of_nat (shape0 (_buf s))) ltac:(lia)) as Hm.
  rewrite get_pixel_inside by (simpl; lia). unfold pixel_at. simpl.
  rewrite cell_or_zero_roll0 by (done || lia).
  rewrite Z2Nat.id by lia. rewrite Zminus_mod_idemp_l.
  replace (x + dy - dy) with x by lia. by rewrite Z.mod_small by lia.
Qed.

Lemma vscroll_moves_pixels_witness :
  ∃ b, vscroll (-5) turned_panel = (Ok tt, with_buf b turned_panel) ∧
       wf_ndarray b ∧ shape0 b = shape0 (_buf turned_panel) ∧
       shape1 b = shape1 (_buf turned_panel) ∧
       ∀ x y, 0 ≤ x < Z.of_nat (shape0 (_buf turned_panel)) →
              0 ≤ y < Z.of_nat (shape1 (_buf turned_panel)) →
              get_pixel ((x + -5) mod Z.of_nat (shape0 (_buf turned_panel))) y
                (with_buf b turned_panel) =
              (Ok (pixel_at (_buf turned_panel) x y), with_buf b turned_panel).
Proof.
  apply (vscroll_moves_pixels (-5) turned_panel).
  split; [reflexivity|vm_compute; repeat constructor].
Defined.

(** X8: scrolls add up and undo each other: [hscroll(a)] then
    [hscroll(b)] is [hscroll(a + b)], the same for [vscroll], so that a
    scroll by [d] followed by a scroll by [-d] leaves every global as it
    was; and a horizontal and a vertical scroll can be done in either
    order. *)
Theorem scrolls_compose (a b : Z) (s : state) :
  wf_ndarray (_buf s) →
  (hscroll a;; hscroll b) s = hscroll (a + b) s ∧
  (vscroll a;; vscroll b) s = vscroll (a + b) s ∧
  (hscroll a;; hscroll (- a)) s = (Ok tt, s) ∧
  (vscroll a;; vscroll (- a)) s = (Ok tt, s) ∧
  (hscroll a;; vscroll b) s = (vscroll b;; hscroll a) s.
Proof.
  intros Hwf.
  assert (∀ a b, (hscroll a;; hscroll b) s = hscroll (a + b) s) as Hh.
  { intros a' b'. unfold hscroll. run_py. by rewrite roll1_roll1. }
  assert (∀ a b, (vscroll a;; vscroll b) s = vscroll (a + b) s) as Hv.
  { intros a' b'. unfold vscroll. run_py. by rewrite roll0_roll0. }
  split; [apply Hh|]. split; [apply Hv|]. split; [|split].
  - rewrite Hh, Z.add_opp_diag_r. unfold hscroll, modify.
    by rewrite roll1_zero, with_buf_same.
  - rewrite Hv, Z.add_opp_diag_r. unfold vscroll, modify.
    by rewrite roll0_zero, with_buf_same.
  - unfold hscroll, vscroll. run_py. by rewrite roll0_roll1.
Qed.

Lemma scrolls_compose_witness :
  (hscroll 7;; hscroll (- 7)) turned_panel = (Ok tt, turned_panel) ∧
  (vscroll 7;; vscroll (- 7)) turned_panel = (Ok tt, turned_panel).
Proof.
  assert (wf_ndarray (_buf turned_panel)) as Hwf
    by (split; [reflexivity|vm_compute; repeat constructor]).
  destruct (scrolls_compose 7 0 turned_panel Hwf) as (_ & _ & H1 & H2 & _).
  split; [exact H1|exact H2].
Defined.

(** ** Writing through the guard *)

Lemma guard_true (x y : Z) :
  in_guard x y → (x >=? 0) && (y >=? 0) && (x <? WIDTH) && (y <? HEIGHT) = true.
Proof.
  intros [[??] [??]]. unfold WIDTH, HEIGHT.
  by rewrite (proj2 (Z.geb_le x 0)), (proj2 (Z.geb_le y 0)),
    (proj2 (Z.ltb_lt x 16)), (proj2 (Z.ltb_lt y 16)) by lia.
Qed.

Lemma guard_false (x y : Z) :
  ¬ in_guard x y → (x >=? 0) && (y >=? 0) && (x <? WIDTH) && (y <? HEIGHT) = false.
Proof.
  intros H. unfold WIDTH, HEIGHT.
  destruct (x >=? 0) eqn:H1, (y >=? 0) eqn:H2, (x <? 16) eqn:H3, (y <? 16) eqn:H4;
    simpl; try done.
  exfalso. apply H. unfold in_guard. lia.
Qed.

Lemma panel_buffer_plot (m : ndarray) (x y : Z) (p : pixel) :
  panel_buffer m → panel_buffer (plot m x y p).
Proof.
  intros (Hwf & H0 & H1). unfold plot.
  destruct (_ && _); [|done]. split; [by apply wf_store|done].
Qed.

Lemma pixel_at_plot (m : ndarray) (x y x' y' : Z) (p : pixel) :
  panel_buffer m → in_guard x' y' →
  pixel_at (plot m x y p) x' y' =
  if decide (x = x' ∧ y = y') then p else pixel_at m x' y'.
Proof.
  intros (Hwf & H0 & H1) Hg'. unfold plot, pixel_at.
  destruct (decide (in_guard x y)) as [Hg|Hg].
  - rewrite guard_true by done. destruct Hg as [??], Hg' as [??].
    rewrite cell_or_zero_store by (done || lia).
    destruct (decide (x = x' ∧ y = y')) as [[-> ->]|Hne].
    + by rewrite decide_True.
    + rewrite decide_False; [done|]. intros [??]. apply Hne. lia.
  - rewrite guard_false by done.
    rewrite decide_False; [done|]. intros [-> ->]. done.
Qed.

Lemma pixel_at_plot_any (m : ndarray) (x y x' y' : Z) (p : pixel) :
  panel_buffer m →
  pixel_at (plot m x y p) x' y' = p ∨ pixel_at (plot m x y p) x' y' = pixel_at m x' y'.
Proof.
  intros (Hwf & H0 & H1). unfold plot, pixel_at.
  destruct (decide (in_guard x y)) as [Hg|Hg].
  - rewrite guard_true by done. destruct Hg as [??].
    rewrite cell_or_zero_store by (done || lia). case_decide; auto.
  - rewrite guard_false by done. auto.
Qed.

(** On a panel buffer, with a colour that stands for a pixel, the guarded
    setter returns and has plotted the pixel. *)
Lemma safe_set_pixel_plot (x y : Z) (c : color) (p : pixel) (s : state) :
  panel_buffer (_buf s) → valid_color c p →
  safe_set_pixel x y c s = (Ok tt, with_buf (plot (_buf s) x y p) s).
Proof.
  intros (Hwf & H0 & H1) Hv. unfold safe_set_pixel, plot.
  destruct (_ && _) eqn:Hg; [|by rewrite with_buf_same].
  rewrite (set_pixel_unfold x y c p s (resolve_color_valid c p s Hv)).
  repeat (apply andb_prop in Hg as [Hg ?]). unfold WIDTH, HEIGHT in *.
  rewrite !py_index_nonneg by lia. by rewrite (proj2 Hv).
Qed.

Lemma valid_color_tuple (m : ndarray) (x y : Z) :
  wf_ndarray m → int64_buffer m →
  0 ≤ x < Z.of_nat (shape0 m) → 0 ≤ y < Z.of_nat (shape1 m) →
  valid_color (tuple (pixel_at m x y)) (pixel_at m x y).
Proof.
  intros Hwf H64 Hx Hy.
  destruct (wf_cell m (Z.to_nat x) (Z.to_nat y) Hwf) as [p Hp]; [lia..|].
  unfold pixel_at, cell_or_zero. rewrite Hp. simpl.
  split; [by destruct p as [[??]?]|by apply (H64 _ _ _ Hp)].
Qed.

(** ** Swapping two pixels *)

(** X9: on a panel buffer, with both coordinates in [0, 16) x [0, 16),
    [swap_pixels] returns; each of the two pixels then reads what the
    other read before, every other pixel reads what it read, and nothing
    but the buffer has changed. *)
Theorem swap_pixels_swaps (x0 y0 x1 y1 : Z) (s : state) :
  panel_buffer (_buf s) → int64_buffer (_buf s) →
  in_guard x0 y0 → in_guard x1 y1 →
  ∃ b, swap_pixels x0 y0 x1 y1 s = (Ok tt, with_buf b s) ∧
       panel_buffer b ∧
       pixel_at b x0 y0 = pixel_at (_buf s) x1 y1 ∧
       pixel_at b x1 y1 = pixel_at (_buf s) x0 y0 ∧
       ∀ x y, in_guard x y → (x, y) ≠ (x0, y0) → (x, y) ≠ (x1, y1) →
              pixel_at b x y = pixel_at (_buf s) x y.
Proof.
  intros Hpanel H64 Hg0 Hg1. pose proof Hpanel as (Hwf & H0 & H1).
  pose proof Hg0 as [??]. pose proof Hg1 as [??].
  set (p0 := pixel_at (_buf s) x0 y0). set (p1 := pixel_at (_buf s) x1 y1).
  assert (valid_color (tuple p0) p0) as Hv0 by (apply valid_color_tuple; (done || lia)).
  assert (valid_color (tuple p1) p1) as Hv1 by (apply valid_color_tuple; (done || lia)).
  exists (plot (plot (_buf s) x0 y0 p1) x1 y1 p0). split.
  - unfold swap_pixels.
    rewrite (bind_ok _ _ s p0 s) by (apply get_pixel_inside; lia).
    rewrite (bind_ok _ _ s p1 s) by (apply get_pixel_inside; lia).
    rewrite (bind_ok _ _ s tt (with_buf (plot (_buf s) x0 y0 p1) s))
      by (by apply safe_set_pixel_plot).
    rewrite (safe_set_pixel_plot x1 y1 _ p0) by (done || by apply panel_buffer_plot).
    done.
  - split; [by repeat apply panel_buffer_plot|].
    rewrite !pixel_at_plot by (done || by apply panel_buffer_plot).
    split; [|split].
    + destruct (decide (x1 = x0 ∧ y1 = y0)) as [[-> ->]|]; [done|].
      by rewrite decide_True.
    + by rewrite decide_True.
    + intros x y Hg Hne0 Hne1.
      rewrite !pixel_at_plot by (done || by apply panel_buffer_plot).
      rewrite !decide_False; [done|intros [??]..]; congruence.
Qed.

Lemma int64_buffer_zeros (w h : nat) : int64_buffer (zeros w h).
Proof.
  intros i j p Hp. unfold cell, zeros in Hp. simpl in Hp.
  apply bind_Some in Hp as (row & Hrow & Hp).
  apply lookup_replicate_1 in Hrow as [-> _].
  by apply lookup_replicate_1 in Hp as [-> _].
Qed.

Lemma panel_buffer_initial : panel_buffer (_buf initial).
Proof. split; [apply wf_zeros|done]. Qed.

Lemma int64_buffer_store (m : ndarray) (i j : nat) (p : pixel) :
  int64_buffer m → fits_cell p = true → int64_buffer (store m i j p).
Proof.
  intros Hm Hp i' j' q. destruct (decide ((i, j) = (i', j'))) as [[= <- <-]|Hne].
  - unfold cell, store. simpl. rewrite list_lookup_alter_eq.
    destruct (cells m !! i) as [row|]; [|done]. simpl.
    intros [(_ & <- & _)|[? _]]%list_lookup_insert_Some; done.
  - rewrite cell_store_ne by done. apply Hm.
Qed.

Lemma panel_buffer_two_pixels : panel_buffer (_buf two_pixels).
Proof.
  change (_buf two_pixels)
    with (plot (plot (_buf initial) 0 15 (1, 2, 3)) 7 3 (4, 5, 6)).
  apply panel_buffer_plot, panel_buffer_plot, panel_buffer_initial.
Qed.

Lemma int64_buffer_two_pixels : int64_buffer (_buf two_pixels).
Proof.
  change (_buf two_pixels)
    with (store (store (zeros 16 16) 0 15 (1, 2, 3)) 7 3 (4, 5, 6)).
  apply int64_buffer_store; [|done].
  apply int64_buffer_store; [|done].
  apply int64_buffer_zeros.
Qed.

Lemma swap_pixels_swaps_witness :
  ∃ b, swap_pixels 0 15 7 3 two_pixels = (Ok tt, with_buf b two_pixels) ∧
       panel_buffer b ∧
       pixel_at b 0 15 = (4, 5, 6) ∧
       pixel_at b 7 3 = (1, 2, 3) ∧
       ∀ x y, in_guard x y → (x, y) ≠ (0, 15) → (x, y) ≠ (7, 3) →
              pixel_at b x y = pixel_at (_buf two_pixels) x y.
Proof.
  apply (swap_pixels_swaps 0 15 7 3 two_pixels panel_buffer_two_pixels
           int64_buffer_two_pixels);
    unfold in_guard; lia.
Defined.

(** X10: [swap_pixels] reads with [get_pixel] and writes through the
    guard.  A first coordinate pair outside [-16, 16) makes it raise
    [IndexError] with nothing changed; a first pair with a negative
    coordinate from -16 is read from the far edge and not written, so that
    the call copies that pixel to the second place and swaps nothing. *)
Theorem swap_pixels_negative_copies (x0 y0 x1 y1 : Z) (s : state) :
  panel_buffer (_buf s) → int64_buffer (_buf s) →
  (py_index 16 x0 = None ∨ py_index 16 y0 = None →
     swap_pixels x0 y0 x1 y1 s = (Raise IndexError, s)) ∧
  (∀ i j, py_index 16 x0 = Some i → py_index 16 y0 = Some j →
     ¬ in_guard x0 y0 → in_guard x1 y1 →
     ∃ b, swap_pixels x0 y0 x1 y1 s = (Ok tt, with_buf b s) ∧
          panel_buffer b ∧
          pixel_at b x1 y1 = cell_or_zero (_buf s) i j ∧
          ∀ x y, in_guard x y → (x, y) ≠ (x1, y1) →
                 pixel_at b x y = pixel_at (_buf s) x y).
Proof.
  intros Hpanel H64. pose proof Hpanel as (Hwf & H0 & H1). split.
  - intros Hnone. unfold swap_pixels. apply bind_raise.
    rewrite get_pixel_unfold, H0, H1.
    destruct Hnone as [-> | ->]; [done|]. by destruct (py_index 16 x0).
  - intros i j Hi Hj Hng Hg1. pose proof Hg1 as [??].
    set (p0 := cell_or_zero (_buf s) i j). set (p1 := pixel_at (_buf s) x1 y1).
    apply py_index_lt in Hi as Hilt. apply py_index_lt in Hj as Hjlt.
    assert (valid_color (tuple p0) p0) as Hv0.
    { replace p0 with (pixel_at (_buf s) (Z.of_nat i) (Z.of_nat j))
        by (unfold pixel_at; by rewrite !Nat2Z.id).
      apply valid_color_tuple; (done || lia). }
    assert (valid_color (tuple p1) p1) as Hv1 by (apply valid_color_tuple; (done || lia)).
    exists (plot (_buf s) x1 y1 p0). split.
    + unfold swap_pixels.
      rewrite (bind_ok _ _ s p0 s) by (by rewrite get_pixel_unfold, H0, H1, Hi, Hj).
      rewrite (bind_ok _ _ s p1 s) by (apply get_pixel_inside; lia).
      rewrite (bind_ok _ _ s tt s).
      * by apply safe_set_pixel_plot.
      * unfold safe_set_pixel. by rewrite guard_false.
    + split; [by apply panel_buffer_plot|].
      split; [by rewrite pixel_at_plot, decide_True|].
      intros x y Hg Hne. rewrite pixel_at_plot by done.
      rewrite decide_False; [done|]. intros [??]. congruence.
Qed.

Lemma swap_pixels_negative_copies_witness :
  swap_pixels 16 0 7 3 two_pixels = (Raise IndexError, two_pixels) ∧
  ∃ b, swap_pixels (-16) (-1) 7 3 two_pixels = (Ok tt, with_buf b two_pixels) ∧
       panel_buffer b ∧
       pixel_at b 7 3 = (1, 2, 3) ∧
       ∀ x y, in_guard x y → (x, y) ≠ (7, 3) →
              pixel_at b x y = pixel_at (_buf two_pixels) x y.
Proof.
  split.
  - apply (proj1 (swap_pixels_negative_copies 16 0 7 3 two_pixels panel_buffer_two_pixels
                    int64_buffer_two_pixels)).
    left. reflexivity.
  - apply (proj2 (swap_pixels_negative_copies (-16) (-1) 7 3 two_pixels
                    panel_buffer_two_pixels int64_buffer_two_pixels) 0%nat 15%nat).
    + reflexivity.
    + reflexivity.
    + unfold in_guard. lia.
    + unfold in_guard. lia.
Defined.

(** ** Drawing as plotting a list of points *)

Lemma plot_all_app (m : ndarray) (l1 l2 : list (Z * Z)) (p : pixel) :
  plot_all m (l1 ++ l2) p = plot_all (plot_all m l1 p) l2 p.
Proof. unfold plot_all. apply foldl_app. Qed.

Lemma panel_buffer_plot_all (m : ndarray) (points : list (Z * Z)) (p : pixel) :
  panel_buffer m → panel_buffer (plot_all m points p).
Proof.
  revert m. induction points as [|[x y] points IH]; intros m Hm; [done|].
  simpl. by apply IH, panel_buffer_plot.
Qed.

Lemma pixel_at_plot_all (m : ndarray) (points : list (Z * Z)) (p : pixel) (x y : Z) :
  panel_buffer m → in_guard x y →
  pixel_at (plot_all m points p) x y =
  if decide ((x, y) ∈ points) then p else pixel_at m x y.
Proof.
  intros Hm Hg. revert m Hm. induction points as [|[x' y'] points IH]; intros m Hm.
  - destruct (decide _) as [Hin|]; [by apply elem_of_nil in Hin|done].
  - change (plot_all m ((x', y') :: points) p) with (plot_all (plot m x' y' p) points p).
    rewrite IH by (by apply panel_buffer_plot).
    rewrite pixel_at_plot by done.
    destruct (decide ((x, y) ∈ points)) as [Hin|Hnin].
    + rewrite decide_True; [done|]. apply elem_of_cons. by right.
    + destruct (decide (x' = x ∧ y' = y)) as [[-> ->]|Hne].
      * rewrite decide_True; [done|]. apply elem_of_cons. by left.
      * rewrite decide_False; [done|].
        intros [[= ??]|?]%elem_of_cons; [|done]. apply Hne. by split.
Qed.

Lemma pixel_at_plot_all_any (m : ndarray) (points : list (Z * Z)) (p : pixel) (x y : Z) :
  panel_buffer m →
  pixel_at (plot_all m points p) x y = p ∨
  pixel_at (plot_all m points p) x y = pixel_at m x y.
Proof.
  revert m. induction points as [|[x' y'] points IH]; intros m Hm; [by right|].
  simpl. destruct (IH (plot m x' y' p) (panel_buffer_plot _ _ _ _ Hm)) as [H|H];
    [by left|].
  rewrite H. by apply pixel_at_plot_any.
Qed.

Lemma painted_plot_all (m : ndarray) (points : list (Z * Z)) (p : pixel) :
  panel_buffer m → painted p m (plot_all m points p).
Proof.
  intros Hm. split; [by apply panel_buffer_plot_all|].
  intros x y. by apply pixel_at_plot_all_any.
Qed.

Lemma painted_exactly_plot_all (P : Z → Z → Prop) (m : ndarray)
    (points : list (Z * Z)) (p : pixel) :
  panel_buffer m →
  (∀ x y, in_guard x y → (x, y) ∈ points ↔ P x y) →
  painted_exactly P p m (plot_all m points p).
Proof.
  intros Hm HP. split; [by apply panel_buffer_plot_all|].
  intros x y Hg. rewrite pixel_at_plot_all by done. split; intros H.
  - rewrite decide_True; [done|]. by apply HP.
  - rewrite decide_False; [done|]. intros Hin. by apply H, HP.
Qed.

Lemma bind_unfold {A B} (m : M A) (k : A → M B) (s : state) :
  (m ≫= k) s =
  match m s with
  | (Ok a, s') => k a s'
  | (Raise e, s') => (Raise e, s')
  end.
Proof. done. Qed.

Lemma for_in_app {A} (l1 l2 : list A) (body : A → M unit) (s : state) :
  for_in (l1 ++ l2) body s = (for_in l1 body ≫= λ _, for_in l2 body) s.
Proof.
  revert s. induction l1 as [|v l1 IH]; intros s; [done|].
  rewrite <- app_comm_cons, !for_in_cons, bind_unfold, for_in_cons.
  destruct (body v s) as [[[]|e] s']; [|done].
  by rewrite IH, bind_unfold.
Qed.

Lemma draws_ret {A} (a : A) (c : color) : draws [] c a (ret a).
Proof. by intros s. Qed.

Lemma draws_bind {A B} (l1 l2 : list (Z * Z)) (c : color) (a : A) (b : B)
    (m : M A) (k : A → M B) :
  draws l1 c a m → draws l2 c b (k a) → draws (l1 ++ l2) c b (m ≫= k).
Proof.
  intros Hm Hk s.
  rewrite bind_unfold, Hm, !bind_unfold, for_in_app, bind_unfold.
  destruct (for_in l1 _ s) as [[[]|e] s']; [exact (Hk s')|done].
Qed.

Lemma draws_safe_set_pixel (x y : Z) (c : color) :
  draws [(x, y)] c tt (safe_set_pixel x y c).
Proof.
  intros s. rewrite bind_unfold, for_in_cons. simpl.
  by destruct (safe_set_pixel x y c s) as [[[]|e] s'].
Qed.

Lemma draws_for_in {A} (f : A → list (Z * Z)) (c : color) (l : list A) (body : A → M unit) :
  (∀ v, draws (f v) c tt (body v)) → draws (l ≫= f) c tt (for_in l body).
Proof.
  intros Hbody. induction l as [|v l IH]; [apply draws_ret|].
  change (draws (f v ++ (l ≫= f)) c tt (body v ≫= λ _, for_in l body)).
  apply (draws_bind _ _ _ tt); [apply Hbody|apply IH].
Qed.

Lemma draws_for_fold_low (xs : list Z) (dx dy yi D y : Z) (c : color) :
  ∃ acc, draws (low_points xs dx dy yi D y) c acc
           (for_fold xs (plotLineLow_step dx dy yi c) (D, y)).
Proof.
  revert D y. induction xs as [|x xs IH]; intros D y.
  - eexists. apply draws_ret.
  - simpl. destruct (D >? 0) eqn:HD.
    + destruct (IH (D - 2 * dx + 2 * dy) (y + yi)) as [acc Hacc]. exists acc.
      apply (draws_bind [(x, y)] _ _ (D - 2 * dx + 2 * dy, y + yi)); [|done].
      unfold plotLineLow_step; cbv beta iota; rewrite ?HD; cbv beta iota.
      rewrite <- (app_nil_r [(x, y)]).
      apply (draws_bind _ _ _ tt); [apply draws_safe_set_pixel|apply draws_ret].
    + destruct (IH (D + 2 * dy) y) as [acc Hacc]. exists acc.
      apply (draws_bind [(x, y)] _ _ (D + 2 * dy, y)); [|done].
      unfold plotLineLow_step; cbv beta iota; rewrite ?HD; cbv beta iota.
      rewrite <- (app_nil_r [(x, y)]).
      apply (draws_bind _ _ _ tt); [apply draws_safe_set_pixel|apply draws_ret].
Qed.

Lemma draws_for_fold_high (ys : list Z) (dx dy xi D x : Z) (c : color) :
  ∃ acc, draws (high_points ys dx dy xi D x) c acc
           (for_fold ys (plotLineHigh_step dx dy xi c) (D, x)).
Proof.
  revert D x. induction ys as [|y ys IH]; intros D x.
  - eexists. apply draws_ret.
  - simpl. destruct (D >? 0) eqn:HD.
    + destruct (IH (D - 2 * dy + 2 * dx) (x + xi)) as [acc Hacc]. exists acc.
      apply (draws_bind [(x, y)] _ _ (D - 2 * dy + 2 * dx, x + xi)); [|done].
      unfold plotLineHigh_step; cbv beta iota; rewrite ?HD; cbv beta iota.
      rewrite <- (app_nil_r [(x, y)]).
      apply (draws_bind _ _ _ tt); [apply draws_safe_set_pixel|apply draws_ret].
    + destruct (IH (D + 2 * dx) x) as [acc Hacc]. exists acc.
      apply (draws_bind [(x, y)] _ _ (D + 2 * dx, x)); [|done].
      unfold plotLineHigh_step; cbv beta iota; rewrite ?HD; cbv beta iota.
      rewrite <- (app_nil_r [(x, y)]).
      apply (draws_bind _ _ _ tt); [apply draws_safe_set_pixel|apply draws_ret].
Qed.

Lemma draws_plotLineLow (x0 y0 x1 y1 : Z) (c : color) :
  draws (plotLineLow_points x0 y0 x1 y1) c tt (_plotLineLow x0 y0 x1 y1 c).
Proof.
  unfold _plotLineLow, plotLineLow_points.
  edestruct draws_for_fold_low as [acc Hacc].
  rewrite <- (app_nil_r (low_points _ _ _ _ _ _)).
  apply (draws_bind _ _ _ acc); [apply Hacc|apply draws_ret].
Qed.

Lemma draws_plotLineHigh (x0 y0 x1 y1 : Z) (c : color) :
  draws (plotLineHigh_points x0 y0 x1 y1) c tt (_plotLineHigh x0 y0 x1 y1 c).
Proof.
  unfold _plotLineHigh, plotLineHigh_points.
  edestruct draws_for_fold_high as [acc Hacc].
  rewrite <- (app_nil_r (high_points _ _ _ _ _ _)).
  apply (draws_bind _ _ _ acc); [apply Hacc|apply draws_ret].
Qed.

(** [draw_line] is a walk over [line_points], and so on for the other
    drawing functions. *)
Lemma draws_draw_line (x0 y0 x1 y1 : Z) (c : color) :
  draws (line_points x0 y0 x1 y1) c tt (draw_line x0 y0 x1 y1 c).
Proof.
  unfold draw_line, line_points.
  apply (draws_bind _ _ _ tt).
  - destruct (_ <? _); [destruct (x0 >? x1)|destruct (y0 >? y1)];
      by (apply draws_plotLineLow || apply draws_plotLineHigh).
  - apply (draws_bind [(x0, y0)] [(x1, y1)] _ tt); apply draws_safe_set_pixel.
Qed.

Lemma draws_draw_rect (x y w h : Z) (c : color) :
  draws (rect_points x y w h) c tt (draw_rect x y w h c).
Proof.
  unfold draw_rect, rect_points.
  repeat (apply (draws_bind _ _ _ tt); [apply draws_draw_line|]).
  apply draws_draw_line.
Qed.

Lemma draws_fill_rect (x y w h : Z) (c : color) :
  draws (fill_points x y w h) c tt (fill_rect x y w h c).
Proof.
  unfold fill_rect, fill_points.
  apply (draws_for_in (λ i, line_points x (y + i) (x + h) (y + i))).
  intros i. apply draws_draw_line.
Qed.

Lemma draws_circle_octants (x0 y0 x y : Z) (c : color) :
  draws (octant_points x0 y0 x y) c tt (circle_octants x0 y0 x y c).
Proof.
  unfold circle_octants, octant_points.
  repeat (apply (draws_bind [_] _ _ tt); [apply draws_safe_set_pixel|]).
  apply draws_safe_set_pixel.
Qed.

Lemma draws_circle_loop (fuel : nat) (x0 y0 : Z) (c : color) (l : circle_locals) :
  draws (circle_loop_points fuel x0 y0 l) c tt (circle_loop fuel x0 y0 c l).
Proof.
  revert l. induction fuel as [|fuel IH]; intros l; [apply draws_ret|].
  cbn [circle_loop circle_loop_points].
  destruct (circle_x l <? circle_y l); [|apply draws_ret].
  apply (draws_bind _ _ _ tt); [apply draws_circle_octants|apply IH].
Qed.

Lemma draws_draw_circle (x y radius : Z) (c : color) :
  draws (circle_points x y radius) c tt (draw_circle x y radius c).
Proof.
  unfold draw_circle, circle_points. rewrite Z.sub_0_r.
  repeat (apply (draws_bind [_] _ _ tt); [apply draws_safe_set_pixel|]).
  apply draws_circle_loop.
Qed.

(** ** What a walk does to the buffer *)

(** With a colour that the buffer takes, the points are plotted. *)
Lemma draws_plots {A} (points : list (Z * Z)) (c : color) (p : pixel) (a : A) (m : M A) :
  draws points c a m → valid_color c p → plots points p a m.
Proof.
  intros Hm Hv s Hs. rewrite Hm, bind_unfold. clear Hm.
  assert (for_in points (λ pt, safe_set_pixel pt.1 pt.2 c) s =
          (Ok tt, with_buf (plot_all (_buf s) points p) s)) as ->; [|done].
  revert s Hs. induction points as [|[x y] points IH]; intros s Hs.
  - simpl. by rewrite with_buf_same.
  - rewrite for_in_cons. simpl. rewrite (safe_set_pixel_plot x y c p s Hs Hv).
    rewrite IH by (by apply panel_buffer_plot). done.
Qed.

(** Off the panel no point is passed on, whatever the colour and the
    buffer. *)
Lemma draws_off_panel {A} (points : list (Z * Z)) (c : color) (a : A) (m : M A) (s : state) :
  draws points c a m →
  (∀ x y, (x, y) ∈ points → ¬ in_guard x y) →
  m s = (Ok a, s).
Proof.
  intros Hm Hoff. rewrite Hm, bind_unfold. clear Hm.
  assert (for_in points (λ pt, safe_set_pixel pt.1 pt.2 c) s = (Ok tt, s)) as ->; [|done].
  induction points as [|[x y] points IH]; [done|].
  rewrite for_in_cons. simpl. unfold safe_set_pixel at 1.
  rewrite guard_false by (apply Hoff, elem_of_cons; by left).
  apply IH. intros x' y' Hin. apply Hoff, elem_of_cons. by right.
Qed.

(** A colour name that is not in the table is reported at the first point
    on the panel, before anything is written. *)
Lemma draws_unknown_color {A} (points : list (Z * Z)) (c : color) (a : A) (m : M A)
    (s : state) (x y : Z) :
  draws points c a m → color_pixel c = None →
  (x, y) ∈ points → in_guard x y →
  m s = (Raise (ValueError "Invalid color!"), s).
Proof.
  intros Hm Hc Hin Hg. rewrite Hm, bind_unfold. clear Hm.
  assert (for_in points (λ pt, safe_set_pixel pt.1 pt.2 c) s =
          (Raise (ValueError "Invalid color!"), s)) as ->; [|done].
  induction points as [|[x' y'] points IH]; [by apply elem_of_nil in Hin|].
  rewrite for_in_cons. simpl. unfold safe_set_pixel at 1.
  destruct (decide (in_guard x' y')) as [Hg'|Hg'].
  - rewrite guard_true by done. unfold set_pixel.
    rewrite (bind_raise _ _ s (ValueError "Invalid color!") s); [done|].
    by rewrite resolve_color_pixel, Hc.
  - rewrite guard_false by done. apply IH.
    apply elem_of_cons in Hin as [[= -> ->]|Hin]; done.
Qed.

Lemma plots_painted {A} (points : list (Z * Z)) (p : pixel) (a : A) (m : M A) (s : state) :
  plots points p a m → panel_buffer (_buf s) →
  m s = (Ok a, with_buf (plot_all (_buf s) points p) s) ∧
  painted p (_buf s) (plot_all (_buf s) points p).
Proof. intros Hm Hs. split; [by apply Hm|by apply painted_plot_all]. Qed.
(** ** The points of a line *)

Lemma high_points_low_points (ys : list Z) (dx dy xi D x : Z) :
  high_points ys dx dy xi D x = prod_swap <$> low_points ys dy dx xi D x.
Proof.
  revert D x. induction ys as [|y ys IH]; intros D x; [done|].
  simpl. f_equal. destruct (D >? 0); apply IH.
Qed.

Lemma low_points_fst (xs : list Z) (dx dy yi D y : Z) :
  fst <$> low_points xs dx dy yi D y = xs.
Proof.
  revert D y. induction xs as [|x xs IH]; intros D y; [done|].
  simpl. f_equal. destruct (D >? 0); apply IH.
Qed.

(** With no rise the loop stays on its row. *)
Lemma low_points_level (xs : list Z) (dx yi D y : Z) :
  D ≤ 0 → low_points xs dx 0 yi D y = (λ x, (x, y)) <$> xs.
Proof.
  intros HD. induction xs as [|x xs IH]; [done|].
  simpl. destruct (D >? 0) eqn:E; [lia|].
  f_equal. by rewrite Z.add_0_r.
Qed.

(** The loop of Bresenham: after [k] turns the row has moved [t] steps,
    and [D = 2 dy (k + 1) - dx (2 t + 1)] stays in [(2 dy - 2 dx, 2 dy]],
    which keeps [t] within [dy]. *)
Lemma low_points_steps (len : nat) (a dx dy yi D y0 k t : Z) :
  0 ≤ dy ≤ dx → 0 ≤ k → k + Z.of_nat len = dx → 0 ≤ t →
  D = 2 * dy * (k + 1) - dx * (2 * t + 1) →
  2 * dy - 2 * dx < D ≤ 2 * dy →
  ∀ x y, (x, y) ∈ low_points (seqZ a (Z.of_nat len)) dx dy yi D (y0 + yi * t) →
    a ≤ x < a + Z.of_nat len ∧ ∃ t', 0 ≤ t' ≤ dy ∧ y = y0 + yi * t'.
Proof.
  revert a D k t. induction len as [|len IH]; intros a D k t Hdy Hk Hlen Ht HD HDr x y Hin.
  - by apply elem_of_nil in Hin.
  - rewrite seqZ_cons in Hin by lia.
    replace (Z.pred (Z.of_nat (S len))) with (Z.of_nat len) in Hin by lia.
    simpl in Hin. apply elem_of_cons in Hin as [[= -> ->]|Hin].
    + split; [lia|]. exists t. split; [|done]. nia.
    + destruct (D >? 0) eqn:E.
      * replace (y0 + yi * t + yi) with (y0 + yi * (t + 1)) in Hin by lia.
        apply (IH _ _ (k + 1) (t + 1)) in Hin; [|lia..]. 
        destruct Hin as [? ?]. split; [lia|done].
      * apply (IH _ _ (k + 1) t) in Hin; [|lia..].
        destruct Hin as [? ?]. split; [lia|done].
Qed.

Lemma plotLineLow_points_box (x0 y0 x1 y1 x y : Z) :
  Z.abs (y1 - y0) ≤ x1 - x0 →
  (x, y) ∈ plotLineLow_points x0 y0 x1 y1 →
  x0 ≤ x < x1 ∧ between y0 y1 y.
Proof.
  intros Habs Hin. unfold plotLineLow_points in Hin.
  destruct (decide (x1 - x0 ≤ 0)) as [Hle|Hlt].
  { rewrite seqZ_nil in Hin by done. by apply elem_of_nil in Hin. }
  pose proof (low_points_steps (Z.to_nat (x1 - x0)) x0 (x1 - x0)
    (if y1 - y0 <? 0 then - (y1 - y0) else y1 - y0)
    (if y1 - y0 <? 0 then -1 else 1)
    (2 * (if y1 - y0 <? 0 then - (y1 - y0) else y1 - y0) - (x1 - x0)) y0 0 0) as H.
  rewrite Z2Nat.id in H by lia.
  replace (y0 + (if y1 - y0 <? 0 then -1 else 1) * 0) with y0 in H by lia.
  apply H in Hin; [|destruct (y1 - y0 <? 0) eqn:E; lia..].
  destruct Hin as [Hx (t & Ht & ->)]. split; [lia|].
  unfold between. destruct (y1 - y0 <? 0) eqn:E; lia.
Qed.

Lemma plotLineLow_points_cover (x0 y0 x1 y1 x : Z) :
  x0 ≤ x < x1 → ∃ y, (x, y) ∈ plotLineLow_points x0 y0 x1 y1.
Proof.
  intros Hx. unfold plotLineLow_points.
  assert (x ∈ seqZ x0 (x1 - x0)) as Hin by (apply elem_of_seqZ; lia).
  rewrite <- (low_points_fst _ (x1 - x0) (if y1 - y0 <? 0 then - (y1 - y0) else y1 - y0)
    (if y1 - y0 <? 0 then -1 else 1)
    (2 * (if y1 - y0 <? 0 then - (y1 - y0) else y1 - y0) - (x1 - x0)) y0) in Hin.
  apply list_elem_of_fmap in Hin as ([x' y] & -> & Hin). by exists y.
Qed.

Lemma plotLineHigh_points_swap (x0 y0 x1 y1 : Z) :
  plotLineHigh_points x0 y0 x1 y1 = prod_swap <$> plotLineLow_points y0 x0 y1 x1.
Proof. unfold plotLineHigh_points, plotLineLow_points. apply high_points_low_points. Qed.

Lemma plotLineHigh_points_elem (x0 y0 x1 y1 x y : Z) :
  (x, y) ∈ plotLineHigh_points x0 y0 x1 y1 ↔ (y, x) ∈ plotLineLow_points y0 x0 y1 x1.
Proof.
  rewrite plotLineHigh_points_swap, list_elem_of_fmap. split.
  - by intros ([y' x'] & [= -> ->] & Hin).
  - intros Hin. by exists (y, x).
Qed.

Lemma line_points_elem (x0 y0 x1 y1 x y : Z) :
  (x, y) ∈ line_points x0 y0 x1 y1 ↔
  (if Z.abs (y1 - y0) <? Z.abs (x1 - x0) then
     if x0 >? x1 then (x, y) ∈ plotLineLow_points x1 y1 x0 y0
     else (x, y) ∈ plotLineLow_points x0 y0 x1 y1
   else if y0 >? y1 then (y, x) ∈ plotLineLow_points y1 x1 y0 x0
   else (y, x) ∈ plotLineLow_points y0 x0 y1 x1) ∨
  (x, y) = (x0, y0) ∨ (x, y) = (x1, y1).
Proof.
  unfold line_points. rewrite elem_of_app, !elem_of_cons, elem_of_nil.
  destruct (_ <? _); [destruct (x0 >? x1)|destruct (y0 >? y1)];
    rewrite ?plotLineHigh_points_elem; tauto.
Qed.

(** The points of a line lie in the box that its two ends span. *)
Lemma line_points_box (x0 y0 x1 y1 x y : Z) :
  (x, y) ∈ line_points x0 y0 x1 y1 → between x0 x1 x ∧ between y0 y1 y.
Proof.
  rewrite line_points_elem. unfold between. intros [Hin|[[= -> ->]|[= -> ->]]]; [|lia..].
  destruct (_ <? _) eqn:Habs; [destruct (x0 >? x1) eqn:E|destruct (y0 >? y1) eqn:E];
    apply plotLineLow_points_box in Hin; unfold between in Hin; lia.
Qed.

(** A line that is wider than high has a point in every column between its
    ends, and every other line a point in every row. *)
Lemma line_points_cover_x (x0 y0 x1 y1 x : Z) :
  Z.abs (y1 - y0) < Z.abs (x1 - x0) → between x0 x1 x →
  ∃ y, (x, y) ∈ line_points x0 y0 x1 y1.
Proof.
  intros Habs Hx. unfold between in Hx.
  destruct (decide (x = x0)) as [->|]; [exists y0; rewrite line_points_elem; auto|].
  destruct (decide (x = x1)) as [->|]; [exists y1; rewrite line_points_elem; auto|].
  apply Z.ltb_lt in Habs as Hb.
  destruct (x0 >? x1) eqn:E.
  - destruct (plotLineLow_points_cover x1 y1 x0 y0 x) as [y Hy]; [lia|].
    exists y. rewrite line_points_elem, Hb, E. by left.
  - destruct (plotLineLow_points_cover x0 y0 x1 y1 x) as [y Hy]; [lia|].
    exists y. rewrite line_points_elem, Hb, E. by left.
Qed.

Lemma line_points_cover_y (x0 y0 x1 y1 y : Z) :
  Z.abs (x1 - x0) ≤ Z.abs (y1 - y0) → between y0 y1 y →
  ∃ x, (x, y) ∈ line_points x0 y0 x1 y1.
Proof.
  intros Habs Hy. unfold between in Hy.
  destruct (decide (y = y0)) as [->|]; [exists x0; rewrite line_points_elem; auto|].
  destruct (decide (y = y1)) as [->|]; [exists x1; rewrite line_points_elem; auto|].
  assert ((Z.abs (y1 - y0) <? Z.abs (x1 - x0)) = false) as Hb by (apply Z.ltb_ge; lia).
  destruct (y0 >? y1) eqn:E.
  - destruct (plotLineLow_points_cover y1 x1 y0 x0 y) as [x Hx]; [lia|].
    exists x. rewrite line_points_elem, Hb, E. by left.
  - destruct (plotLineLow_points_cover y0 x0 y1 x1 y) as [x Hx]; [lia|].
    exists x. rewrite line_points_elem, Hb, E. by left.
Qed.

(** The points of a line along the first axis, and along the second. *)
Lemma line_points_along_x (x0 x1 y x y' : Z) :
  (x, y') ∈ line_points x0 y x1 y ↔ between x0 x1 x ∧ y' = y.
Proof.
  split.
  - intros [Hx Hy]%line_points_box. split; [done|]. unfold between in Hy. lia.
  - intros [Hx ->]. destruct (decide (x0 = x1)) as [->|Hne].
    + unfold between in Hx. replace x with x1 by lia.
      rewrite line_points_elem. auto.
    + destruct (line_points_cover_x x0 y x1 y x) as [y' Hy']; [lia|done|].
      apply line_points_box in Hy' as Hb. unfold between in Hb.
      by assert (y' = y) as -> by lia.
Qed.

Lemma line_points_along_y (x y0 y1 x' y : Z) :
  (x', y) ∈ line_points x y0 x y1 ↔ x' = x ∧ between y0 y1 y.
Proof.
  split.
  - intros [Hx Hy]%line_points_box. split; [|done]. unfold between in Hx. lia.
  - intros [-> Hy].
    destruct (line_points_cover_y x y0 x y1 y) as [x' Hx']; [lia|done|].
    apply line_points_box in Hx' as Hb. unfold between in Hb.
    by assert (x' = x) as -> by lia.
Qed.

(** The points of a line do not depend on the end it is drawn from. *)
Lemma line_points_sym (x0 y0 x1 y1 x y : Z) :
  (x, y) ∈ line_points x0 y0 x1 y1 ↔ (x, y) ∈ line_points x1 y1 x0 y0.
Proof.
  rewrite !line_points_elem.
  replace (Z.abs (y0 - y1)) with (Z.abs (y1 - y0)) by lia.
  replace (Z.abs (x0 - x1)) with (Z.abs (x1 - x0)) by lia.
  destruct (_ <? _) eqn:Habs.
  - apply Z.ltb_lt in Habs.
    destruct (x0 >? x1) eqn:E0, (x1 >? x0) eqn:E1; try lia; tauto.
  - apply Z.ltb_ge in Habs.
    destruct (y0 >? y1) eqn:E0, (y1 >? y0) eqn:E1; try lia; try tauto.
    assert (y0 = y1) as -> by lia. assert (x0 = x1) as -> by lia. tauto.
Qed.

(** Two lists of the same points plot the same buffer. *)
Lemma plot_all_same_points (m : ndarray) (l1 l2 : list (Z * Z)) (p : pixel) :
  panel_buffer m →
  (∀ x y, in_guard x y → (x, y) ∈ l1 ↔ (x, y) ∈ l2) →
  plot_all m l1 p = plot_all m l2 p.
Proof.
  intros Hm Hl.
  destruct (panel_buffer_plot_all m l1 p Hm) as (Hwf1 & H10 & H11).
  destruct (panel_buffer_plot_all m l2 p Hm) as (Hwf2 & H20 & H21).
  apply ndarray_ext; [done|done|congruence|congruence|].
  intros i j Hi Hj.
  assert (in_guard (Z.of_nat i) (Z.of_nat j)) as Hg by (unfold in_guard; lia).
  pose proof (pixel_at_plot_all m l1 p _ _ Hm Hg) as E1.
  pose proof (pixel_at_plot_all m l2 p _ _ Hm Hg) as E2.
  unfold pixel_at in E1, E2. rewrite !Nat2Z.id in E1, E2. rewrite E1, E2.
  destruct (decide (_ ∈ l1)) as [H1|H1], (decide (_ ∈ l2)) as [H2|H2]; try done.
  - by apply Hl in H1.
  - by apply Hl in H2.
Qed.

Lemma range_elem (n : nat) (i : Z) : i ∈ range n ↔ 0 ≤ i < Z.of_nat n.
Proof.
  unfold range. rewrite list_elem_of_fmap. split.
  - intros (k & -> & Hk). apply elem_of_seq in Hk. lia.
  - intros Hi. exists (Z.to_nat i). split; [lia|]. apply elem_of_seq. lia.
Qed.

Lemma rect_points_elem (x y w h x' y' : Z) :
  (x', y') ∈ rect_points x y w h ↔ on_outline x y (x + h) (y + w) x' y'.
Proof.
  unfold rect_points, on_outline.
  rewrite !elem_of_app, !line_points_along_x, !line_points_along_y.
  unfold between. lia.
Qed.

Lemma fill_points_elem (x y w h x' y' : Z) :
  (x', y') ∈ fill_points x y w h ↔
  between x (x + h) x' ∧ y ≤ y' < y + Z.abs (w + 1).
Proof.
  unfold fill_points. rewrite list_elem_of_bind. split.
  - intros (i & Hin & Hi). apply line_points_along_x in Hin as [? ->].
    apply range_elem in Hi. split; [done|lia].
  - intros [Hx Hy]. exists (y' - y). split.
    + apply line_points_along_x. split; [done|lia].
    + apply range_elem. lia.
Qed.

(** ** The points of a circle *)

Lemma circle_invariant_start (r : Z) :
  0 ≤ r → circle_invariant r (CircleLocals 0 r (1 - r) 1 (-2 * r)).
Proof. intros Hr. unfold circle_invariant. simpl. lia. Qed.

Lemma circle_invariant_advance (r : Z) (l : circle_locals) :
  circle_invariant r l → circle_x l < circle_y l →
  circle_invariant r (circle_advance l) ∧
  circle_x (circle_advance l) ≤ r ∧ 0 ≤ circle_y (circle_advance l) ∧
  circle_y (circle_advance l) - circle_x (circle_advance l) ≤ circle_y l - circle_x l - 1 ∧
  Z.abs (circle_x (circle_advance l) * circle_x (circle_advance l) +
         circle_y (circle_advance l) * circle_y (circle_advance l) - r * r) ≤ r.
Proof.
  destruct l as [x y f ddx ddy]. unfold circle_invariant, circle_advance. simpl.
  intros (Hx & Hy & -> & -> & -> & Hf) Hlt. specialize (Hf Hlt).
  destruct (_ >=? 0) eqn:E; simpl; nia.
Qed.

Lemma octant_points_near (x0 y0 r x y x' y' : Z) :
  Z.abs (x * x + y * y - r * r) ≤ r →
  (x', y') ∈ octant_points x0 y0 x y → near_circle x0 y0 r x' y'.
Proof.
  intros Hxy Hin. unfold octant_points in Hin. unfold near_circle.
  repeat (apply elem_of_cons in Hin as [[= -> ->]|Hin]; [nia|]).
  by apply elem_of_nil in Hin.
Qed.

Lemma circle_loop_points_near (fuel : nat) (x0 y0 r : Z) (l : circle_locals) (x' y' : Z) :
  circle_invariant r l →
  (x', y') ∈ circle_loop_points fuel x0 y0 l → near_circle x0 y0 r x' y'.
Proof.
  revert l. induction fuel as [|fuel IH]; intros l Hl Hin.
  - by apply elem_of_nil in Hin.
  - cbn [circle_loop_points] in Hin. destruct (circle_x l <? circle_y l) eqn:E.
    + apply Z.ltb_lt in E.
      destruct (circle_invariant_advance r l Hl E) as (Hl' & _ & _ & _ & Hnear).
      apply elem_of_app in Hin as [Hin|Hin].
      * by apply (octant_points_near x0 y0 r _ _ _ _ Hnear).
      * by apply (IH _ Hl').
    + by apply elem_of_nil in Hin.
Qed.

(** A turn brings [x] and [y] closer by one at least, so that the loop has
    ended after [y - x] turns: more turns add nothing. *)
Lemma circle_loop_fuel (fuel extra : nat) (x0 y0 r : Z) (c : color) (l : circle_locals) :
  circle_invariant r l → circle_y l - circle_x l ≤ Z.of_nat fuel →
  circle_loop (fuel + extra) x0 y0 c l = circle_loop fuel x0 y0 c l.
Proof.
  revert l. induction fuel as [|fuel IH]; intros l Hl Hfuel.
  - destruct extra as [|extra]; [done|]. simpl.
    destruct (circle_x l <? circle_y l) eqn:E; [lia|done].
  - cbn [circle_loop Nat.add]. destruct (circle_x l <? circle_y l) eqn:E; [|done].
    apply Z.ltb_lt in E.
    destruct (circle_invariant_advance r l Hl E) as (Hl' & _ & _ & Hdec & _).
    rewrite IH; [done|done|lia].
Qed.

Lemma circle_points_near (x y radius x' y' : Z) :
  (x', y') ∈ circle_points x y radius → near_circle y x (Z.max 0 radius) x' y'.
Proof.
  unfold circle_points. intros Hin.
  apply elem_of_app in Hin as [Hin|Hin].
  - unfold near_circle.
    repeat (apply elem_of_cons in Hin as [[= -> ->]|Hin]; [nia|]).
    by apply elem_of_nil in Hin.
  - apply (circle_loop_points_near _ _ _ _ _ _ _ (circle_invariant_start _ (Z.le_max_l 0 radius)) Hin).
Qed.

Lemma circle_points_dot (x y radius x' y' : Z) :
  radius ≤ 0 → (x', y') ∈ circle_points x y radius ↔ x' = y ∧ y' = x.
Proof.
  intros Hr. unfold circle_points. rewrite Z.max_l by done. simpl.
  rewrite !Z.add_0_r, !Z.sub_0_r, !elem_of_cons, elem_of_nil.
  split; [intros [[= -> ->]|[[= -> ->]|[[= -> ->]|[[= -> ->]|[]]]]]; done|].
  intros [-> ->]. by left.
Qed.

Lemma valid_color_rgb (r g b : Z) :
  fits_cell (r, g, b) = true → valid_color (ColorRGB r g b) (r, g, b).
Proof. by split. Qed.

(** ** Lines *)

(** X11: on a panel buffer, with a colour that the buffer takes,
    [draw_line] returns and changes nothing but the buffer; every pixel of
    the buffer is then of the colour or as it was, each end of the line
    that is on the panel is of the colour, and no pixel outside the box
    that the two ends span has changed. *)
Theorem draw_line_within_box (x0 y0 x1 y1 : Z) (c : color) (p : pixel) (s : state) :
  panel_buffer (_buf s) → valid_color c p →
  ∃ b, draw_line x0 y0 x1 y1 c s = (Ok tt, with_buf b s) ∧
       painted p (_buf s) b ∧
       (in_guard x0 y0 → pixel_at b x0 y0 = p) ∧
       (in_guard x1 y1 → pixel_at b x1 y1 = p) ∧
       ∀ x y, in_guard x y → ¬ (between x0 x1 x ∧ between y0 y1 y) →
              pixel_at b x y = pixel_at (_buf s) x y.
Proof.
  intros Hs Hv.
  destruct (plots_painted _ p tt _ s (draws_plots _ _ _ _ _ (draws_draw_line x0 y0 x1 y1 c) Hv) Hs)
    as [Hrun Hp].
  eexists. split; [exact Hrun|]. split; [done|].
  split; [|split].
  - intros Hg. rewrite pixel_at_plot_all, decide_True; [done| |done|done].
    apply line_points_elem. auto.
  - intros Hg. rewrite pixel_at_plot_all, decide_True; [done| |done|done].
    apply line_points_elem. auto.
  - intros x y Hg Hbox. rewrite pixel_at_plot_all, decide_False; [done| |done|done].
    intros Hin. by apply Hbox, line_points_box.
Qed.

Lemma draw_line_within_box_witness :
  ∃ b, draw_line 1 2 14 9 (ColorRGB 255 0 0) initial = (Ok tt, with_buf b initial) ∧
       painted (255, 0, 0) (_buf initial) b ∧
       (in_guard 1 2 → pixel_at b 1 2 = (255, 0, 0)) ∧
       (in_guard 14 9 → pixel_at b 14 9 = (255, 0, 0)) ∧
       ∀ x y, in_guard x y → ¬ (between 1 14 x ∧ between 2 9 y) →
              pixel_at b x y = pixel_at (_buf initial) x y.
Proof.
  apply (draw_line_within_box 1 2 14 9 (ColorRGB 255 0 0) (255, 0, 0) initial
           panel_buffer_initial).
  by apply valid_color_rgb.
Defined.

(** X12: a line drawn by [draw_line] has no gap along its longer side.
    When the ends are further apart in the first coordinate than in the
    second, every first coordinate between the ends has a pixel of the
    line, which is of the colour when it is on the panel; otherwise every
    second coordinate has one. *)
Theorem draw_line_has_no_gap (x0 y0 x1 y1 : Z) (c : color) (p : pixel) (s : state) :
  panel_buffer (_buf s) → valid_color c p →
  ∃ b, draw_line x0 y0 x1 y1 c s = (Ok tt, with_buf b s) ∧
       (Z.abs (y1 - y0) < Z.abs (x1 - x0) →
        ∀ x, between x0 x1 x →
          ∃ y, between y0 y1 y ∧ (in_guard x y → pixel_at b x y = p)) ∧
       (Z.abs (x1 - x0) ≤ Z.abs (y1 - y0) →
        ∀ y, between y0 y1 y →
          ∃ x, between x0 x1 x ∧ (in_guard x y → pixel_at b x y = p)).
Proof.
  intros Hs Hv.
  destruct (plots_painted _ p tt _ s (draws_plots _ _ _ _ _ (draws_draw_line x0 y0 x1 y1 c) Hv) Hs)
    as [Hrun Hp].
  eexists. split; [exact Hrun|]. split.
  - intros Habs x Hx. destruct (line_points_cover_x x0 y0 x1 y1 x Habs Hx) as [y Hy].
    exists y. split; [by apply line_points_box in Hy as [_ ?]|].
    intros Hg. by rewrite pixel_at_plot_all, decide_True.
  - intros Habs y Hy. destruct (line_points_cover_y x0 y0 x1 y1 y Habs Hy) as [x Hx].
    exists x. split; [by apply line_points_box in Hx as [? _]|].
    intros Hg. by rewrite pixel_at_plot_all, decide_True.
Qed.

Lemma draw_line_has_no_gap_witness :
  ∃ b, draw_line 1 2 14 9 (ColorRGB 255 0 0) initial = (Ok tt, with_buf b initial) ∧
       (Z.abs (9 - 2) < Z.abs (14 - 1) →
        ∀ x, between 1 14 x →
          ∃ y, between 2 9 y ∧ (in_guard x y → pixel_at b x y = (255, 0, 0))) ∧
       (Z.abs (14 - 1) ≤ Z.abs (9 - 2) →
        ∀ y, between 2 9 y →
          ∃ x, between 1 14 x ∧ (in_guard x y → pixel_at b x y = (255, 0, 0))).
Proof.
  apply (draw_line_has_no_gap 1 2 14 9 (ColorRGB 255 0 0) (255, 0, 0) initial
           panel_buffer_initial).
  by apply valid_color_rgb.
Defined.

(** X13: a line along one of the two axes is exact: [draw_line] from
    [(x0, y)] to [(x1, y)] sets the pixels [(x, y)] with [x] between [x0]
    and [x1], in either order, and no other; and the same along the other
    axis. *)
Theorem draw_line_along_axis (a0 a1 k : Z) (c : color) (p : pixel) (s : state) :
  panel_buffer (_buf s) → valid_color c p →
  (∃ b, draw_line a0 k a1 k c s = (Ok tt, with_buf b s) ∧
        painted_exactly (λ x y, between a0 a1 x ∧ y = k) p (_buf s) b) ∧
  (∃ b, draw_line k a0 k a1 c s = (Ok tt, with_buf b s) ∧
        painted_exactly (λ x y, x = k ∧ between a0 a1 y) p (_buf s) b).
Proof.
  intros Hs Hv. split.
  - eexists. split; [exact (draws_plots _ _ _ _ _ (draws_draw_line a0 k a1 k c) Hv s Hs)|].
    apply painted_exactly_plot_all; [done|].
    intros x y _. apply line_points_along_x.
  - eexists. split; [exact (draws_plots _ _ _ _ _ (draws_draw_line k a0 k a1 c) Hv s Hs)|].
    apply painted_exactly_plot_all; [done|].
    intros x y _. apply line_points_along_y.
Qed.

Lemma draw_line_along_axis_witness :
  (∃ b, draw_line 12 5 3 5 (ColorName "red") initial = (Ok tt, with_buf b initial) ∧
        painted_exactly (λ x y, between 12 3 x ∧ y = 5) (255, 0, 0) (_buf initial) b) ∧
  (∃ b, draw_line 5 12 5 3 (ColorName "red") initial = (Ok tt, with_buf b initial) ∧
        painted_exactly (λ x y, x = 5 ∧ between 12 3 y) (255, 0, 0) (_buf initial) b).
Proof.
  apply (draw_line_along_axis 12 3 5 (ColorName "red") (255, 0, 0) initial
           panel_buffer_initial).
  split; reflexivity.
Defined.

(** X14: the line does not depend on the end it is drawn from: on a panel
    buffer, with a colour that the buffer takes, [draw_line] from the
    second end to the first leaves the state that [draw_line] from the
    first to the second leaves. *)
Theorem draw_line_either_direction (x0 y0 x1 y1 : Z) (c : color) (p : pixel) (s : state) :
  panel_buffer (_buf s) → valid_color c p →
  draw_line x1 y1 x0 y0 c s = draw_line x0 y0 x1 y1 c s.
Proof.
  intros Hs Hv.
  rewrite (draws_plots _ _ _ _ _ (draws_draw_line x0 y0 x1 y1 c) Hv s Hs).
  rewrite (draws_plots _ _ _ _ _ (draws_draw_line x1 y1 x0 y0 c) Hv s Hs).
  f_equal. f_equal. apply plot_all_same_points; [done|].
  intros x y _. apply line_points_sym.
Qed.

Lemma draw_line_either_direction_witness :
  draw_line 14 9 1 2 (ColorRGB 255 0 0) initial =
  draw_line 1 2 14 9 (ColorRGB 255 0 0) initial.
Proof.
  apply (draw_line_either_direction 1 2 14 9 (ColorRGB 255 0 0) (255, 0, 0) initial
           panel_buffer_initial).
  by apply valid_color_rgb.
Defined.

(** X15: the guard of [safe_set_pixel] comes before the colour is looked
    at.  [draw_line] with a colour name of ASCII characters that is not in
    the table raises [ValueError] with nothing changed when one of its ends
    is on the panel; and with any colour and any buffer, a line whose box
    misses the panel returns with nothing changed, an unknown name going
    unnoticed. *)
Theorem draw_line_unknown_color (x0 y0 x1 y1 : Z) (s : state) :
  (∀ name, is_ascii name = true → COLORS !! lower name = None →
   in_guard x0 y0 ∨ in_guard x1 y1 →
   draw_line x0 y0 x1 y1 (ColorName name) s = (Raise (ValueError "Invalid color!"), s)) ∧
  (∀ c, (∀ x y, between x0 x1 x → between y0 y1 y → ¬ in_guard x y) →
   draw_line x0 y0 x1 y1 c s = (Ok tt, s)).
Proof.
  split.
  - intros name _ Hc [Hg|Hg].
    + apply (draws_unknown_color _ _ _ _ _ x0 y0
               (draws_draw_line x0 y0 x1 y1 (ColorName name)) Hc); [|done].
      apply line_points_elem. auto.
    + apply (draws_unknown_color _ _ _ _ _ x1 y1
               (draws_draw_line x0 y0 x1 y1 (ColorName name)) Hc); [|done].
      apply line_points_elem. auto.
  - intros c Hoff. apply (draws_off_panel _ _ _ _ _ (draws_draw_line x0 y0 x1 y1 c)).
    intros x y [??]%line_points_box. by apply Hoff.
Qed.

Lemma draw_line_unknown_color_witness :
  draw_line 3 3 20 3 (ColorName "mauve") initial =
    (Raise (ValueError "Invalid color!"), initial) ∧
  draw_line 16 0 20 5 (ColorName "mauve") initial = (Ok tt, initial).
Proof.
  split.
  - apply (proj1 (draw_line_unknown_color 3 3 20 3 initial) "mauve").
    + reflexivity.
    + reflexivity.
    + left. unfold in_guard. lia.
  - apply (proj2 (draw_line_unknown_color 16 0 20 5 initial)).
    unfold between, in_guard. lia.
Defined.

(** ** Rectangles *)

(** X16: [draw_rect(x, y, w, h)] sets exactly the outline of the rectangle
    with the corners [(x, y)] and [(x + h, y + w)]: the height [h] is
    added to the first coordinate and the width [w] to the second, and
    either may be negative. *)
Theorem draw_rect_outline (x y w h : Z) (c : color) (p : pixel) (s : state) :
  panel_buffer (_buf s) → valid_color c p →
  ∃ b, draw_rect x y w h c s = (Ok tt, with_buf b s) ∧
       painted_exactly (on_outline x y (x + h) (y + w)) p (_buf s) b.
Proof.
  intros Hs Hv.
  eexists. split; [exact (draws_plots _ _ _ _ _ (draws_draw_rect x y w h c) Hv s Hs)|].
  apply painted_exactly_plot_all; [done|].
  intros x' y' _. apply rect_points_elem.
Qed.

Lemma draw_rect_outline_witness :
  ∃ b, draw_rect 2 3 5 9 (ColorRGB 0 255 0) initial = (Ok tt, with_buf b initial) ∧
       painted_exactly (on_outline 2 3 (2 + 9) (3 + 5)) (0, 255, 0) (_buf initial) b.
Proof.
  apply (draw_rect_outline 2 3 5 9 (ColorRGB 0 255 0) (0, 255, 0) initial
           panel_buffer_initial).
  by apply valid_color_rgb.
Defined.

(** X17: [fill_rect(x, y, w, h)] sets exactly the pixels whose first
    coordinate is between [x] and [x + h] and whose second is one of the
    [abs(w + 1)] from [y] upwards.  For [w] from 0 that is the rectangle of
    [draw_rect]; for [w = -1] nothing is set, and for a smaller [w] the
    rows go up from [y], not down. *)
Theorem fill_rect_region (x y w h : Z) (c : color) (p : pixel) (s : state) :
  panel_buffer (_buf s) → valid_color c p →
  ∃ b, fill_rect x y w h c s = (Ok tt, with_buf b s) ∧
       painted_exactly (λ x' y', between x (x + h) x' ∧ y ≤ y' < y + Z.abs (w + 1))
         p (_buf s) b.
Proof.
  intros Hs Hv.
  eexists. split; [exact (draws_plots _ _ _ _ _ (draws_fill_rect x y w h c) Hv s Hs)|].
  apply painted_exactly_plot_all; [done|].
  intros x' y' _. apply fill_points_elem.
Qed.

Lemma fill_rect_region_witness :
  ∃ b, fill_rect 2 3 (-4) 9 (ColorRGB 0 255 0) initial = (Ok tt, with_buf b initial) ∧
       painted_exactly (λ x' y', between 2 (2 + 9) x' ∧ 3 ≤ y' < 3 + Z.abs (-4 + 1))
         (0, 255, 0) (_buf initial) b.
Proof.
  apply (fill_rect_region 2 3 (-4) 9 (ColorRGB 0 255 0) (0, 255, 0) initial
           panel_buffer_initial).
  by apply valid_color_rgb.
Defined.

(** ** Circles *)

(** X18: [draw_circle(x, y, radius)] draws about [(y, x)], the two
    coordinates swapped.  On a panel buffer, with a colour that the buffer
    takes, it returns and changes nothing but the buffer; every pixel is
    then of the colour or as it was; the four points at the radius along
    the axes are of the colour when they are on the panel; and every pixel
    that changed is within a pixel of the circle: the square of its
    distance to [(y, x)] is off the square of the radius by the radius at
    most. *)
Theorem draw_circle_near_circle (x y radius : Z) (c : color) (p : pixel) (s : state) :
  panel_buffer (_buf s) → valid_color c p →
  ∃ b, draw_circle x y radius c s = (Ok tt, with_buf b s) ∧
       painted p (_buf s) b ∧
       (∀ x' y', (x', y') ∈ [(y, x + Z.max 0 radius); (y, x - Z.max 0 radius);
                             (y + Z.max 0 radius, x); (y - Z.max 0 radius, x)] →
                 in_guard x' y' → pixel_at b x' y' = p) ∧
       ∀ x' y', in_guard x' y' → ¬ near_circle y x (Z.max 0 radius) x' y' →
                pixel_at b x' y' = pixel_at (_buf s) x' y'.
Proof.
  intros Hs Hv.
  destruct (plots_painted _ p tt _ s (draws_plots _ _ _ _ _ (draws_draw_circle x y radius c) Hv) Hs)
    as [Hrun Hp].
  eexists. split; [exact Hrun|]. split; [done|]. split.
  - intros x' y' Hin Hg. rewrite pixel_at_plot_all, decide_True; [done| |done|done].
    unfold circle_points. apply elem_of_app. by left.
  - intros x' y' Hg Hfar. rewrite pixel_at_plot_all, decide_False; [done| |done|done].
    intros Hin. by apply Hfar, circle_points_near.
Qed.

Lemma draw_circle_near_circle_witness :
  ∃ b, draw_circle 7 8 6 (ColorRGB 0 0 255) initial = (Ok tt, with_buf b initial) ∧
       painted (0, 0, 255) (_buf initial) b ∧
       (∀ x' y', (x', y') ∈ [(8, 7 + Z.max 0 6); (8, 7 - Z.max 0 6);
                             (8 + Z.max 0 6, 7); (8 - Z.max 0 6, 7)] →
                 in_guard x' y' → pixel_at b x' y' = (0, 0, 255)) ∧
       ∀ x' y', in_guard x' y' → ¬ near_circle 8 7 (Z.max 0 6) x' y' →
                pixel_at b x' y' = pixel_at (_buf initial) x' y'.
Proof.
  apply (draw_circle_near_circle 7 8 6 (ColorRGB 0 0 255) (0, 0, 255) initial
           panel_buffer_initial).
  by apply valid_color_rgb.
Defined.

(** X19: with a radius of 0 or less, [draw_circle(x, y, radius)] sets the
    one pixel [(y, x)] and no other. *)
Theorem draw_circle_dot (x y radius : Z) (c : color) (p : pixel) (s : state) :
  panel_buffer (_buf s) → valid_color c p → radius ≤ 0 →
  ∃ b, draw_circle x y radius c s = (Ok tt, with_buf b s) ∧
       painted_exactly (λ x' y', x' = y ∧ y' = x) p (_buf s) b.
Proof.
  intros Hs Hv Hr.
  eexists. split; [exact (draws_plots _ _ _ _ _ (draws_draw_circle x y radius c) Hv s Hs)|].
  apply painted_exactly_plot_all; [done|].
  intros x' y' _. by apply circle_points_dot.
Qed.

Lemma draw_circle_dot_witness :
  ∃ b, draw_circle 2 5 (-3) (ColorRGB 0 0 255) initial = (Ok tt, with_buf b initial) ∧
       painted_exactly (λ x' y', x' = 5 ∧ y' = 2) (0, 0, 255) (_buf initial) b.
Proof.
  apply (draw_circle_dot 2 5 (-3) (ColorRGB 0 0 255) (0, 0, 255) initial
           panel_buffer_initial).
  - by apply valid_color_rgb.
  - lia.
Defined.

(** X20: the loop of [draw_circle] ends: from its first locals it makes
    [radius] turns at most, so that turns allowed beyond those change
    nothing of what it does. *)
Theorem draw_circle_loop_ends (x0 y0 radius : Z) (c : color) (extra : nat) :
  0 ≤ radius →
  circle_loop (Z.to_nat radius + extra) x0 y0 c
    (CircleLocals 0 radius (1 - radius) 1 (-2 * radius)) =
  circle_loop (Z.to_nat radius) x0 y0 c
    (CircleLocals 0 radius (1 - radius) 1 (-2 * radius)).
Proof.
  intros Hr. apply (circle_loop_fuel _ _ _ _ radius).
  - by apply circle_invariant_start.
  - simpl. lia.
Qed.

Lemma draw_circle_loop_ends_witness :
  circle_loop (Z.to_nat 6 + 10) 8 7 (ColorRGB 0 0 255)
    (CircleLocals 0 6 (1 - 6) 1 (-2 * 6)) =
  circle_loop (Z.to_nat 6) 8 7 (ColorRGB 0 0 255)
    (CircleLocals 0 6 (1 - 6) 1 (-2 * 6)).
Proof. apply (draw_circle_loop_ends 8 7 6 (ColorRGB 0 0 255) 10). lia. Defined.

(** ** Loops with an invariant *)

(** A loop whose body keeps [Inv], indexed by the turn, returns with
    [Inv] at the length of the list. *)
Lemma for_in_ok_inv {A} (l : list A) (body : A → M unit) (Inv : nat → state → Prop) (s : state) :
  Inv 0%nat s →
  (∀ k v s, l !! k = Some v → Inv k s → ∃ s', body v s = (Ok tt, s') ∧ Inv (S k) s') →
  ∃ s', for_in l body s = (Ok tt, s') ∧ Inv (length l) s'.
Proof.
  revert Inv s. induction l as [|v l IH]; intros Inv s H0 Hstep; [by exists s|].
  destruct (Hstep 0%nat v s eq_refl H0) as (s1 & Hv & H1).
  rewrite for_in_cons, Hv.
  apply (IH (λ k, Inv (S k))); [done|].
  intros k v' s2 Hk. by apply (Hstep (S k)).
Qed.



Lemma range_lookup_Some (n k : nat) (v : Z) :
  range n !! k = Some v → (k < n)%nat ∧ v = Z.of_nat k.
Proof.
  unfold range. rewrite list_lookup_fmap. intros H.
  destruct (seq 0 n !! k) as [k'|] eqn:Hk; [|done].
  apply lookup_seq in Hk as [-> ?]. injection H as <-. done.
Qed.

Lemma range_length (n : nat) : length (range n) = n.
Proof. unfold range. by rewrite length_fmap, length_seq. Qed.

(** ** Shading *)

Lemma set_pixel_rgb_inside (x y r g b : Z) (s : state) :
  0 ≤ x < Z.of_nat (shape0 (_buf s)) → 0 ≤ y < Z.of_nat (shape1 (_buf s)) →
  fits_cell (r, g, b) = true →
  set_pixel x y (ColorRGB r g b) s =
  (Ok tt, with_buf (store (_buf s) (Z.to_nat x) (Z.to_nat y) (r, g, b)) s).
Proof.
  intros Hx Hy Hfits.
  rewrite (set_pixel_unfold x y _ (r, g, b)) by done.
  by rewrite !py_index_nonneg, Hfits by done.
Qed.


Lemma shaded_until_start (shader : Z → Z → pixel) (b0 : ndarray) :
  wf_ndarray b0 → shaded_until shader 0 0 b0 b0.
Proof.
  intros Hwf. split; [done|]. split; [done|]. split; [done|].
  intros i j. rewrite decide_False; [done|lia].
Qed.

Lemma shaded_until_next_row (shader : Z → Z → pixel) (x : nat) (b0 b : ndarray) :
  shaded_until shader x 16 b0 b → shaded_until shader (S x) 0 b0 b.
Proof.
  intros (Hwf & H0 & H1 & Hcells). split; [done|]. split; [done|]. split; [done|].
  intros i j. rewrite Hcells. repeat case_decide; (done || lia).
Qed.

(** One turn of the inner loop. *)
Lemma shade_step (shader : Z → Z → pixel) (x y : nat) (b0 b : ndarray) (s0 : state) :
  (x < shape0 b0)%nat → (y < shape1 b0)%nat → (y < 16)%nat →
  fits_cell (shader (Z.of_nat x) (Z.of_nat y)) = true →
  shaded_until shader x y b0 b →
  ∃ b', (let '(r, g, b) := shader (Z.of_nat x) (Z.of_nat y) in
         set_pixel (Z.of_nat x) (Z.of_nat y) (ColorRGB r g b)) (with_buf b s0)
        = (Ok tt, with_buf b' s0) ∧
        shaded_until shader x (S y) b0 b'.
Proof.
  intros Hx Hy Hy16 Hfits (Hwf & H0 & H1 & Hcells).
  destruct (shader (Z.of_nat x) (Z.of_nat y)) as [[r g] c] eqn:Hsh.
  exists (store b x y (r, g, c)). split.
  - rewrite set_pixel_rgb_inside; simpl; [|lia..|done].
    by rewrite !Nat2Z.id.
  - split; [by apply wf_store|]. split; [done|]. split; [done|].
    intros i j. rewrite cell_or_zero_store by (done || lia). rewrite Hcells.
    repeat case_decide; try (done || lia).
    destruct H as [-> ->]. done.
Qed.

(** The inner loop on a row of the buffer, when the rows are long enough,
    and when they are not. *)
Lemma shade_row_ok (shader : Z → Z → pixel) (x : nat) (b0 b : ndarray) (s0 : state) :
  (x < shape0 b0)%nat → (16 ≤ shape1 b0)%nat →
  (∀ y, (y < 16)%nat → fits_cell (shader (Z.of_nat x) (Z.of_nat y)) = true) →
  shaded_until shader x 0 b0 b →
  ∃ b', for_in (range (Z.to_nat HEIGHT)) (λ y,
          let '(r, g, b) := shader (Z.of_nat x) y in
          set_pixel (Z.of_nat x) y (ColorRGB r g b)) (with_buf b s0)
        = (Ok tt, with_buf b' s0) ∧
        shaded_until shader (S x) 0 b0 b'.
Proof.
  intros Hx Hrow Hfits Hb.
  destruct (for_in_ok_inv (range (Z.to_nat HEIGHT))
              (λ y, let '(r, g, b) := shader (Z.of_nat x) y in
                    set_pixel (Z.of_nat x) y (ColorRGB r g b))
              (λ k s, ∃ b', s = with_buf b' s0 ∧ shaded_until shader x k b0 b')
              (with_buf b s0)) as (s' & Hrun & b' & -> & Hb').
  - by exists b.
  - intros k v s Hv (b1 & -> & Hb1).
    apply range_lookup_Some in Hv as [Hk ->]. change (Z.to_nat HEIGHT) with 16%nat in Hk.
    destruct (shade_step shader x k b0 b1 s0) as (b2 & Hstep & Hb2);
      [done|lia|done|by apply Hfits|done|].
    exists (with_buf b2 s0). split; [done|]. by exists b2.
  - exists b'. split; [done|].
    rewrite range_length in Hb'. by apply shaded_until_next_row.
Qed.



(** X21: on a buffer of 16 rows and 16 columns at least, with a shader
    whose values the buffer takes, [shade_pixels] returns; the pixel at
    every [(x, y)] of the panel is then what the shader gives for it, the
    rest of a larger buffer is as it was, and nothing but the buffer has
    changed. *)
Theorem shade_pixels_shades (shader : Z → Z → pixel) (s : state) :
  wf_ndarray (_buf s) →
  (16 ≤ shape0 (_buf s))%nat → (16 ≤ shape1 (_buf s))%nat →
  (∀ x y, in_guard x y → fits_cell (shader x y) = true) →
  ∃ b, shade_pixels shader s = (Ok tt, with_buf b s) ∧
       wf_ndarray b ∧ shape0 b = shape0 (_buf s) ∧ shape1 b = shape1 (_buf s) ∧
       (∀ x y, in_guard x y → pixel_at b x y = shader x y) ∧
       (∀ i j, ¬ (i < 16 ∧ j < 16)%nat → cell_or_zero b i j = cell_or_zero (_buf s) i j).
Proof.
  intros Hwf H0 H1 Hfits. unfold shade_pixels.
  destruct (for_in_ok_inv (range (Z.to_nat WIDTH))
              (λ x, for_in (range (Z.to_nat HEIGHT)) (λ y,
                      let '(r, g, b) := shader x y in set_pixel x y (ColorRGB r g b)))
              (λ k s', ∃ b, s' = with_buf b s ∧ shaded_until shader k 0 (_buf s) b) s)
    as (s' & Hrun & b & -> & Hb).
  - exists (_buf s). split; [by rewrite with_buf_same|by apply shaded_until_start].
  - intros k v s1 Hv (b1 & -> & Hb1).
    apply range_lookup_Some in Hv as [Hk ->]. change (Z.to_nat WIDTH) with 16%nat in Hk.
    destruct (shade_row_ok shader k (_buf s) b1 s) as (b2 & Hrow & Hb2); [lia|done| |done|].
    { intros y Hy. apply Hfits. unfold in_guard. lia. }
    exists (with_buf b2 s). split; [done|]. by exists b2.
  - rewrite range_length in Hb. change (Z.to_nat WIDTH) with 16%nat in Hb.
    destruct Hb as (Hwfb & Hb0 & Hb1 & Hcells).
    exists b. split; [done|]. split; [done|]. split; [done|]. split; [done|]. split.
    + intros x y [Hx Hy]. unfold pixel_at. rewrite Hcells.
      rewrite decide_True by lia. rewrite decide_True by lia.
      by rewrite !Z2Nat.id by lia.
    + intros i j Hij. rewrite Hcells. repeat case_decide; (done || lia).
Qed.

Lemma shade_pixels_shades_witness :
  ∃ b, shade_pixels (λ x y, (x, y, x + y)) initial = (Ok tt, with_buf b initial) ∧
       wf_ndarray b ∧ shape0 b = shape0 (_buf initial) ∧ shape1 b = shape1 (_buf initial) ∧
       (∀ x y, in_guard x y → pixel_at b x y = (x, y, x + y)) ∧
       (∀ i j, ¬ (i < 16 ∧ j < 16)%nat →
               cell_or_zero b i j = cell_or_zero (_buf initial) i j).
Proof.
  apply (shade_pixels_shades (λ x y, (x, y, x + y)) initial).
  - apply wf_zeros.
  - simpl. unfold WIDTH. lia.
  - simpl. unfold HEIGHT. lia.
  - intros x y [Hx Hy]. unfold fits_cell, fits_int64, int64_min, int64_max. lia.
Defined.




(** ** Dark arrays *)















(** ** Refused and dark frames *)

Section OutputFacts.
Variable und : spec_float → Z.

Lemma show_sends_scaled_frames (s : state) :
  ∃ res evs,
    show und s = (res, with_io (io s ++ evs) s) ∧
    Forall (scaled_frame s) (frames evs).
Proof.
  assert (s = with_io (io s) s) as Hs by (by destruct s).
  rewrite show_unfold.
  destruct (_addressing_enabled s) eqn:Hmode.
  - destruct (for_in_show_display_frames und s (range 8) (io s) Hmode)
      as (res & evs & Hrun & Hevs).
    rewrite <- Hs in Hrun. rewrite Hrun.
    destruct res as [[]|e].
    + exists (Ok tt), (evs ++ [Sleep]). split.
      * unfold sleep, modify, with_io. simpl. by rewrite app_assoc.
      * rewrite frames_app. apply Forall_app. split; [done|]. by apply Forall_nil.
    + by exists (Raise e), evs.
  - destruct (payload und _ _) as [bytes|e] eqn:Hp.
    + exists (Ok tt), [Xfer2 (_SOF :: bytes); Sleep]. split; [done|].
      apply Forall_singleton.
      apply (scaled_frame_of_payload und) with (rot90 (_buf s) (_rotation s)); [|done].
      unfold shown_window. by rewrite Hmode.
    + exists (Raise e), []. rewrite app_nil_r. split; [by rewrite <- Hs|].
      by apply Forall_nil.
Qed.

(** X23: outside addressed mode [show] wants the 256 pixels of one panel.
    With a buffer of any other size it raises the [ValueError] of the
    reshape, which names the number of values that the buffer has, and it
    has then sent nothing and not paused; the buffer, the chain and the
    settings are as they were. *)
Theorem show_refuses_other_sizes (s : state) :
  _addressing_enabled s = false →
  (shape0 (_buf s) * shape1 (_buf s))%nat ≠ 256%nat →
  show und s =
  (Raise (ValueError (reshape_message (shape0 (_buf s) * shape1 (_buf s) * 3))), s).
Proof.
  intros Hmode Hsize. rewrite show_unfold, Hmode.
  unfold payload, reshape768. rewrite rot90_size.
  destruct (_ =? 768)%nat eqn:E; [|done].
  apply Nat.eqb_eq in E. lia.
Qed.




End OutputFacts.

Lemma show_refuses_other_sizes_witness :
  show (λ _, 0) (with_buf (zeros 32 16) initial) =
  (Raise (ValueError "cannot reshape array of size 1536 into shape (768,)"),
   with_buf (zeros 32 16) initial).
Proof.
  apply (show_refuses_other_sizes (λ _, 0) (with_buf (zeros 32 16) initial)).
  - reflexivity.
  - simpl. lia.
Defined.

Lemma finite_brightness_initial : finite_brightness (_brightness initial).
Proof. intros f [= <-]. reflexivity. Qed.



(** ** The slots of the chain *)

Lemma display_at_inside (address : Z) (d : Display.t) (s : state) :
  0 ≤ address → _displays s !! Z.to_nat address = Some d →
  display_at address s = (Ok (Z.to_nat address, d), s).
Proof.
  intros Ha Hd. apply lookup_lt_Some in Hd as Hlen.
  unfold display_at. rewrite bind_unfold. unfold read.
  by rewrite py_index_nonneg, Hd by lia.
Qed.

Lemma enable_display_inside (address : Z) (enabled : bool) (d : Display.t) (s : state) :
  0 ≤ address → _displays s !! Z.to_nat address = Some d →
  enable_display address enabled s =
  (Ok tt, with_displays (<[Z.to_nat address := Display.set_enabled d enabled]> (_displays s)) s).
Proof.
  intros Ha Hd. unfold enable_display.
  by rewrite (bind_ok _ _ _ _ _ (display_at_inside address d s Ha Hd)).
Qed.

(** X26: at an address from 0 that the chain has, [setup_display] returns;
    the slot then holds the offsets and the rotation given and is enabled,
    and [enable_display] returns and changes the flag of the slot and
    keeps its offsets and its rotation.  Both leave every other slot and
    every other global as they were. *)
Theorem setup_display_configures_slot (address x y rotation : Z) (enabled : bool)
    (d : Display.t) (s : state) :
  0 ≤ address → _displays s !! Z.to_nat address = Some d →
  (∃ ds, setup_display address x y rotation s = (Ok tt, with_displays ds s) ∧
         length ds = length (_displays s) ∧
         ds !! Z.to_nat address = Some (Display.Build true x y rotation) ∧
         ∀ n, n ≠ Z.to_nat address → ds !! n = _displays s !! n) ∧
  (∃ ds, enable_display address enabled s = (Ok tt, with_displays ds s) ∧
         length ds = length (_displays s) ∧
         ds !! Z.to_nat address =
           Some (Display.Build enabled (Display.x d) (Display.y d) (Display.rotation d)) ∧
         ∀ n, n ≠ Z.to_nat address → ds !! n = _displays s !! n).
Proof.
  intros Ha Hd. apply lookup_lt_Some in Hd as Hlen. split.
  - exists (<[Z.to_nat address := Display.Build true x y rotation]> (_displays s)).
    split; [|split; [by rewrite length_insert|split]].
    + rewrite setup_display_unfold, (display_at_inside address d s Ha Hd).
      rewrite (enable_display_inside address true (Display.update d x y rotation)); [|done|].
      * simpl. by rewrite list_insert_insert_eq.
      * simpl. by apply list_lookup_insert_eq.
    + by apply list_lookup_insert_eq.
    + intros n Hn. by apply list_lookup_insert_ne.
  - exists (<[Z.to_nat address := Display.set_enabled d enabled]> (_displays s)).
    split; [by apply enable_display_inside|].
    split; [by rewrite length_insert|]. split.
    + by apply list_lookup_insert_eq.
    + intros n Hn. by apply list_lookup_insert_ne.
Qed.

Lemma setup_display_configures_slot_witness :
  ∃ ds, setup_display 5 16 0 3 initial = (Ok tt, with_displays ds initial) ∧
        length ds = length (_displays initial) ∧
        ds !! Z.to_nat 5 = Some (Display.Build true 16 0 3) ∧
        ∀ n, n ≠ Z.to_nat 5 → ds !! n = _displays initial !! n.
Proof.
  destruct (setup_display_configures_slot 5 16 0 3 true (Display.Build false 0 0 0) initial)
    as [H _]; [lia|reflexivity|exact H].
Defined.

(** ** What the calls change *)

Section Steps.
Context {R : state → state → Prop}.
Hypothesis R_refl : ∀ s, R s s.
Hypothesis R_trans : ∀ s1 s2 s3, R s1 s2 → R s2 s3 → R s1 s3.

Lemma steps_ret {A} (a : A) : steps R (ret a).
Proof. intros s r s' [= _ <-]. apply R_refl. Qed.

Lemma steps_bind {A B} (m : M A) (k : A → M B) :
  steps R m → (∀ a, steps R (k a)) → steps R (m ≫= k).
Proof.
  intros Hm Hk s r s'. rewrite bind_unfold.
  destruct (m s) as [[a|e] s1] eqn:E.
  - intros H. apply (R_trans s s1 s'); [by apply (Hm _ _ _ E)|by apply (Hk a _ _ _ H)].
  - intros [= _ <-]. by apply (Hm _ _ _ E).
Qed.

Lemma steps_for_in {A} (l : list A) (body : A → M unit) :
  (∀ v, steps R (body v)) → steps R (for_in l body).
Proof.
  intros Hbody. induction l as [|v l IH]; [apply steps_ret|].
  apply steps_bind; [apply Hbody|by intros _].
Qed.

End Steps.

Lemma buffer_step_refl (s : state) : buffer_step s s.
Proof. exists (_buf s). by rewrite with_buf_same. Qed.

Lemma buffer_step_trans (s1 s2 s3 : state) :
  buffer_step s1 s2 → buffer_step s2 s3 → buffer_step s1 s3.
Proof.
  intros (b2 & -> & H20 & H21 & Hwf2 & H642) (b3 & -> & H30 & H31 & Hwf3 & H643).
  simpl in *. exists b3. rewrite with_buf_with_buf.
  split; [done|]. split; [congruence|]. split; [congruence|]. split; auto.
Qed.

Lemma buffer_steps_ret {A} (a : A) : steps buffer_step (ret a).
Proof. apply steps_ret, buffer_step_refl. Qed.

Lemma buffer_steps_bind {A B} (m : M A) (k : A → M B) :
  steps buffer_step m → (∀ a, steps buffer_step (k a)) → steps buffer_step (m ≫= k).
Proof. apply steps_bind. apply buffer_step_trans. Qed.

Lemma buffer_steps_for_in {A} (l : list A) (body : A → M unit) :
  (∀ v, steps buffer_step (body v)) → steps buffer_step (for_in l body).
Proof. apply steps_for_in; [apply buffer_step_refl|apply buffer_step_trans]. Qed.

Lemma int64_buffer_fill (m : ndarray) (p : pixel) :
  fits_cell p = true → int64_buffer (fill m p).
Proof. intros Hp i j q Hq. by apply cell_fill in Hq as ->. Qed.

Lemma int64_buffer_rows (m : ndarray) :
  int64_buffer m ↔ Forall (Forall (λ p, fits_cell p = true)) (cells m).
Proof.
  split.
  - intros Hm. apply Forall_lookup. intros i row Hrow.
    apply Forall_lookup. intros j p Hp. apply (Hm i j). unfold cell. by rewrite Hrow.
  - intros Hm i j p. unfold cell.
    destruct (cells m !! i) as [row|] eqn:Hrow; [|done]. simpl. intros Hp.
    apply (Forall_lookup_1 _ _ _ _ (Forall_lookup_1 _ _ _ _ Hm Hrow) Hp).
Qed.

Lemma Forall_roll_list {A} (P : A → Prop) (n : nat) (d : Z) (l : list A) :
  Forall P l → Forall P (roll_list n d l).
Proof.
  intros Hl. unfold roll_list. destruct (Z.to_nat _); [done|].
  apply Forall_app. split; [by apply Forall_drop|by apply Forall_take].
Qed.

Lemma int64_buffer_roll0 (m : ndarray) (d : Z) : int64_buffer m → int64_buffer (roll0 m d).
Proof. rewrite !int64_buffer_rows. simpl. apply Forall_roll_list. Qed.

Lemma int64_buffer_roll1 (m : ndarray) (d : Z) : int64_buffer m → int64_buffer (roll1 m d).
Proof.
  rewrite !int64_buffer_rows. simpl. intros Hm. apply Forall_fmap.
  apply (Forall_impl _ _ _ Hm). intros row Hrow. by apply Forall_roll_list.
Qed.

Lemma steps_get_pixel (x y : Z) : steps buffer_step (get_pixel x y).
Proof.
  intros s r s'. rewrite get_pixel_unfold.
  destruct (py_index _ x); [destruct (py_index _ y)|]; intros [= _ <-]; apply buffer_step_refl.
Qed.

Lemma steps_set_pixel (x y : Z) (c : color) : steps buffer_step (set_pixel x y c).
Proof.
  intros s r s'. unfold set_pixel. rewrite bind_unfold, resolve_color_pixel.
  destruct (color_pixel c) as [p|]; [|intros [= _ <-]; apply buffer_step_refl].
  rewrite bind_unfold. unfold read.
  destruct (py_index _ x) as [i|]; [|intros [= _ <-]; apply buffer_step_refl].
  destruct (py_index _ y) as [j|]; [|intros [= _ <-]; apply buffer_step_refl].
  destruct (fits_cell p) eqn:Hp; [|intros [= _ <-]; apply buffer_step_refl].
  intros [= _ <-]. exists (store (_buf s) i j p).
  split; [done|]. split; [done|]. split; [done|].
  split; [apply wf_store|intros ?; by apply int64_buffer_store].
Qed.

Lemma steps_safe_set_pixel (x y : Z) (c : color) : steps buffer_step (safe_set_pixel x y c).
Proof.
  unfold safe_set_pixel. destruct (_ && _); [apply steps_set_pixel|apply buffer_steps_ret].
Qed.

(** A walk changes the buffer at most. *)
Lemma draws_steps {A} (points : list (Z * Z)) (c : color) (a : A) (m : M A) :
  draws points c a m → steps buffer_step m.
Proof.
  intros Hm s r s'. rewrite Hm.
  apply buffer_steps_bind; [|intros _; apply buffer_steps_ret].
  apply buffer_steps_for_in. intros [x y]. apply steps_safe_set_pixel.
Qed.

Lemma steps_modify_buf (f : ndarray → ndarray) :
  (∀ m, shape0 (f m) = shape0 m ∧ shape1 (f m) = shape1 m ∧
        (wf_ndarray m → wf_ndarray (f m)) ∧ (int64_buffer m → int64_buffer (f m))) →
  steps buffer_step (modify (λ s, with_buf (f (_buf s)) s)).
Proof.
  intros Hf s r s' [= _ <-]. exists (f (_buf s)).
  destruct (Hf (_buf s)) as (? & ? & ? & ?). done.
Qed.

Lemma steps_set_all (c : color) : steps buffer_step (set_all c).
Proof.
  intros s r s'. unfold set_all. rewrite bind_unfold, resolve_color_pixel.
  destruct (color_pixel c) as [p|]; [|intros [= _ <-]; apply buffer_step_refl].
  destruct (fits_cell p) eqn:Hp; [|intros [= _ <-]; apply buffer_step_refl].
  apply (steps_modify_buf (λ m, fill m p)). intros m.
  split; [done|]. split; [done|].
  split; [apply wf_fill|intros _; by apply int64_buffer_fill].
Qed.

Lemma steps_clear : steps buffer_step clear.
Proof.
  apply (steps_modify_buf (λ m, fill m (0, 0, 0))). intros m.
  split; [done|]. split; [done|].
  split; [apply wf_fill|intros _; by apply int64_buffer_fill].
Qed.

Lemma steps_hscroll (dx : Z) : steps buffer_step (hscroll dx).
Proof.
  apply (steps_modify_buf (λ m, roll1 m dx)). intros m.
  split; [done|]. split; [done|].
  split; [apply wf_roll1|apply int64_buffer_roll1].
Qed.

Lemma steps_vscroll (dy : Z) : steps buffer_step (vscroll dy).
Proof.
  apply (steps_modify_buf (λ m, roll0 m dy)). intros m.
  split; [done|]. split; [done|].
  split; [apply wf_roll0|apply int64_buffer_roll0].
Qed.

Lemma steps_swap_pixels (x0 y0 x1 y1 : Z) : steps buffer_step (swap_pixels x0 y0 x1 y1).
Proof.
  unfold swap_pixels.
  apply buffer_steps_bind; [apply steps_get_pixel|intros p0].
  apply buffer_steps_bind; [apply steps_get_pixel|intros p1].
  apply buffer_steps_bind; [apply steps_safe_set_pixel|intros _].
  apply steps_safe_set_pixel.
Qed.

Lemma steps_shade_pixels (shader : Z → Z → pixel) : steps buffer_step (shade_pixels shader).
Proof.
  unfold shade_pixels. apply buffer_steps_for_in. intros x.
  apply buffer_steps_for_in. intros y.
  destruct (shader x y) as [[r g] b]. apply steps_set_pixel.
Qed.

Lemma enable_display_chain_step (address : Z) (enabled : bool) (s s' : state) (r : result unit) :
  enable_display address enabled s = (r, s') → chain_step s s'.
Proof.
  unfold enable_display. rewrite bind_unfold. unfold display_at. rewrite bind_unfold.
  unfold read.
  assert (chain_step s s) as Hrefl by (exists (_displays s); by destruct s).
  destruct (py_index _ address) as [i|]; [|by intros [= _ <-]].
  destruct (_ !! i) as [d|]; [|by intros [= _ <-]].
  intros [= _ <-]. eexists. split; [done|]. by rewrite length_insert.
Qed.

Lemma setup_display_chain_step (address x y rotation : Z) (s s' : state) (r : result unit) :
  setup_display address x y rotation s = (r, s') → chain_step s s'.
Proof.
  rewrite setup_display_unfold. unfold display_at. rewrite bind_unfold. unfold read.
  assert (chain_step s s) as Hrefl by (exists (_displays s); by destruct s).
  destruct (py_index _ address) as [i|]; [|by intros [= _ <-]].
  destruct (_ !! i) as [d|]; [|by intros [= _ <-]].
  intros (ds & -> & Hlen)%enable_display_chain_step.
  exists ds. split; [done|]. simpl in Hlen. by rewrite length_insert in Hlen.
Qed.

Lemma setup_buffer_footprint (width height : Z) (s s' : state) (r : result unit) :
  setup_buffer width height s = (r, s') →
  footprint (CallSetupBuffer width height) s s'.
Proof.
  unfold setup_buffer. run_py.
  destruct ((width <? 0) || (height <? 0)); intros [= _ <-]; [by left|by right].
Qed.

Lemma steps_set_pixel_hsv (hsv : pynum → pynum → pynum → result (pynum * pynum * pynum))
    (x y : Z) (h sat v : pynum) :
  steps buffer_step (set_pixel_hsv hsv x y h sat v).
Proof.
  unfold set_pixel_hsv. apply buffer_steps_bind.
  - intros s r s' [= _ <-]. apply buffer_step_refl.
  - intros [[r g] b]. apply steps_set_pixel.
Qed.

Lemma steps_safe_set_pixel_hsv (hsv : pynum → pynum → pynum → result (pynum * pynum * pynum))
    (x y : Z) (h sat v : pynum) :
  steps buffer_step (safe_set_pixel_hsv hsv x y h sat v).
Proof.
  unfold safe_set_pixel_hsv.
  destruct (_ && _); [apply steps_set_pixel_hsv|apply buffer_steps_ret].
Qed.

(** Every call changes its own part of the globals at most. *)
Lemma run_call_footprint (und : spec_float → Z)
    (hsv : pynum → pynum → pynum → result (pynum * pynum * pynum))
    (c : call) (s s' : state) (r : result unit) :
  run_call und hsv c s = (r, s') → footprint c s s'.
Proof.
  destruct c; simpl.
  - by intros [= _ <-].
  - by intros [= _ <-].
  - apply setup_buffer_footprint.
  - apply enable_display_chain_step.
  - apply setup_display_chain_step.
  - by intros [= _ <-].
  - rewrite set_rotation_any_state.
    destruct (rotation_outcome r0) as [k|e]; intros [= _ <-]; [right; by exists k|by left].
  - by intros [= _ <-].
  - by intros [= _ <-].
  - apply steps_set_all.
  - apply steps_set_pixel.
  - apply steps_safe_set_pixel.
  - apply (draws_steps _ _ _ _ (draws_draw_circle x y radius c)).
  - apply (draws_steps _ _ _ _ (draws_draw_line x0 y0 x1 y1 c)).
  - apply (draws_steps _ _ _ _ (draws_draw_rect x y w h c)).
  - apply (draws_steps _ _ _ _ (draws_fill_rect x y w h c)).
  - apply steps_set_pixel_hsv.
  - apply steps_safe_set_pixel_hsv.
  - rewrite bind_unfold, get_pixel_unfold.
    destruct (py_index _ x); [destruct (py_index _ y)|]; by intros [= _ <-].
  - apply steps_shade_pixels.
  - apply steps_swap_pixels.
  - by intros [= _ <-].
  - by intros [= _ <-].
  - apply steps_hscroll.
  - apply steps_vscroll.
  - by intros [= _ <-].
  - apply steps_clear.
  - intros H. exists (with_buf (fill (_buf s) (0, 0, 0)) s). split.
    + by apply (steps_clear s (Ok tt)).
    + destruct (show_sends_scaled_frames und (with_buf (fill (_buf s) (0, 0, 0)) s))
        as (res & evs & Hrun & _).
      exists evs. change (off und s) with (show und (with_buf (fill (_buf s) (0, 0, 0)) s)) in H.
      congruence.
  - intros H. destruct (show_sends_scaled_frames und s) as (res & evs & Hrun & _).
    exists evs. congruence.
Qed.

(** X27: whichever of the functions that the module defines at its top
    level is called, with whatever arguments of these types and whatever
    [colorsys.hsv_to_rgb] returns,
    and whether the call returns or raises, the chain keeps its eight slots
    and the buffer stays an array of rows of one length with cells of 64
    bits. *)
Theorem calls_keep_module_invariant (und : spec_float → Z)
    (hsv : pynum → pynum → pynum → result (pynum * pynum * pynum))
    (c : call) (s s' : state) (r : result unit) :
  module_invariant s → run_call und hsv c s = (r, s') → module_invariant s'.
Proof.
  intros (Hlen & Hwf & H64) Hrun%run_call_footprint.
  assert (∀ s1 s2, module_invariant s1 → buffer_step s1 s2 → module_invariant s2) as Hbuf.
  { intros s1 s2 (? & ? & ?) (b & -> & _ & _ & Hwfb & H64b).
    split; [done|]. split; [by apply Hwfb|by apply H64b]. }
  assert (module_invariant s) as Hs by done.
  destruct c; simpl in Hrun; try (by apply (Hbuf s)); try (by subst s').
  - destruct Hrun as [-> | ->]; [done|].
    split; [done|]. split; [apply wf_zeros|apply int64_buffer_zeros].
  - destruct Hrun as (ds & -> & Hds). split; [simpl; by rewrite Hds|done].
  - destruct Hrun as (ds & -> & Hds). split; [simpl; by rewrite Hds|done].
  - destruct Hrun as [-> | [k ->]]; done.
  - destruct Hrun as (s1 & Hs1 & evs & ->). apply (Hbuf s) in Hs1; done.
  - by destruct Hrun as (evs & ->).
Qed.

Lemma module_invariant_initial : module_invariant initial.
Proof. split; [done|]. split; [apply wf_zeros|apply int64_buffer_zeros]. Qed.

Lemma calls_keep_module_invariant_witness :
  module_invariant
    (with_buf (store (_buf initial) 3 4 (255, 0, 127)) initial).
Proof.
  apply (calls_keep_module_invariant (λ _, 0)
           (λ h sat v, Ok (v, PyInt 0, PyFloat (float64_div (float64_of_Z 1) (float64_of_Z 2))))
           (CallSetPixelHsv 3 4 (PyInt 0) (PyInt 1) (PyInt 1))
           initial _ (Ok tt) module_invariant_initial).
  vm_compute. reflexivity.
Defined.

(** X28: each of the globals of [state] has its own functions, and a call
    of any other function that the module defines at its top level leaves
    it as it was, whether the call returns or raises.  Nothing is sent or paused for but by [show]
    and [off]; the shape of the buffer and the two recorded dimensions
    change in [setup_buffer] only; the slots of the chain in
    [enable_display] and [setup_display] only; the rotation, the
    brightness and the addressing mode in their setters only; and the
    buffer is left alone by every function that is not one of the writers
    of pixels: by [setup], [show], the getters, [set_layout], the
    functions on the chain and the settings, and by [set_pixels]. *)
Theorem calls_change_their_own_globals (und : spec_float → Z)
    (hsv : pynum → pynum → pynum → result (pynum * pynum * pynum))
    (c : call) (s s' : state) (r : result unit) :
  run_call und hsv c s = (r, s') →
  (sends c = false → io s' = io s) ∧
  (resizes c = false →
   shape0 (_buf s') = shape0 (_buf s) ∧ shape1 (_buf s') = shape1 (_buf s) ∧
   _buffer_width s' = _buffer_width s ∧ _buffer_height s' = _buffer_height s) ∧
  (configures_chain c = false → _displays s' = _displays s) ∧
  ((∀ angle, c ≠ CallSetRotation angle) → _rotation s' = _rotation s) ∧
  ((∀ b, c ≠ CallSetBrightness b) → _brightness s' = _brightness s) ∧
  ((∀ enabled, c ≠ CallEnableAddressing enabled) →
   _addressing_enabled s' = _addressing_enabled s) ∧
  (writes_pixels c = false → _buf s' = _buf s).
Proof.
  intros Hrun%run_call_footprint.
  assert (∀ s1 s2, buffer_step s1 s2 →
            io s2 = io s1 ∧ shape0 (_buf s2) = shape0 (_buf s1) ∧
            shape1 (_buf s2) = shape1 (_buf s1) ∧
            _buffer_width s2 = _buffer_width s1 ∧ _buffer_height s2 = _buffer_height s1 ∧
            _displays s2 = _displays s1 ∧ _rotation s2 = _rotation s1 ∧
            _brightness s2 = _brightness s1 ∧
            _addressing_enabled s2 = _addressing_enabled s1) as Hbuf.
  { intros s1 s2 (b & -> & ? & ? & _). done. }
  destruct c; simpl in Hrun;
    repeat match goal with
    | H : buffer_step _ _ |- _ => apply Hbuf in H as (? & ? & ? & ? & ? & ? & ? & ? & ?)
    | H : chain_step _ _ |- _ => destruct H as (? & ? & _)
    | H : io_step _ _ |- _ => destruct H as (? & ?)
    | H : _ ∨ _ |- _ => destruct H as [H|H]
    | H : ∃ _, _ |- _ => destruct H as [? H]
    | H : _ ∧ _ |- _ => destruct H as [? H]
    end;
    subst; simpl in *;
    repeat split; try done; try congruence;
    try (intros Hne; exfalso; by eapply Hne).
Qed.

Lemma calls_change_their_own_globals_witness :
  (sends (CallDrawLine 0 0 15 15 (ColorName "red")) = false →
   io (with_buf (plot_all (_buf initial) (line_points 0 0 15 15) (255, 0, 0)) initial)
   = io initial) ∧
  (configures_chain (CallDrawLine 0 0 15 15 (ColorName "red")) = false →
   _displays (with_buf (plot_all (_buf initial) (line_points 0 0 15 15) (255, 0, 0)) initial)
   = _displays initial).
Proof.
  destruct (calls_change_their_own_globals (λ _, 0) (λ h sat v, Ok (h, sat, v))
              (CallDrawLine 0 0 15 15 (ColorName "red")) initial
              (with_buf (plot_all (_buf initial) (line_points 0 0 15 15) (255, 0, 0)) initial)
              (Ok tt)) as (Hio & _ & Hchain & _).
  - vm_compute. reflexivity.
  - split; [exact Hio|exact Hchain].
Defined.
